(** * noura-core: the scheduling coordinator

    A shallow embedding of [src/modules/scheduling/SchedulingService.ts],
    of the two engines under [src/modules/scheduling/engines/], of the
    scheduling types and of [src/core/policies.ts], followed by the
    properties of the coordinator: validation order, fail-fast behaviour,
    engine selection, policy defaults and error propagation.

    JavaScript values are modelled as the code handles them:
    - a string is its sequence of UTF-16 code units;
    - a [number] is an IEEE 754 binary64 value ([spec_float]), so that
      [NaN], the two zeros and the infinities are all present;
    - objects handed around by reference ([MeetingRequest]) live in a
      store, beside the array of attendees and the record of constraints
      that each refers to, which a spread does not copy; [async] methods
      are sequential computations whose rejection is an exception;
    - a thrown value carries what [JSON.stringify] makes of it, as the
      logger serialises what it is given. *)

From Stdlib Require Import ZArith NArith List String Ascii Bool Lia.
From Stdlib Require Import Floats.SpecFloat.
From stdpp Require Import base option list gmap.

Set Implicit Arguments.

(* ================================================================== *)
(** * JavaScript strings *)
(* ================================================================== *)

(** A UTF-16 code unit. *)
Definition code_unit := N.

(** A JavaScript string: a finite sequence of code units. *)
Definition jsstring := list code_unit.

(** A string literal of the source (ASCII only). *)
Definition lit (s : string) : jsstring :=
  map N_of_ascii (list_ascii_of_string s).

(** ToBoolean on a string: only the empty string is falsy. *)
Definition truthy_string (s : jsstring) : bool :=
  match s with
  | [] => false
  | _ :: _ => true
  end.

(** ToBoolean on an optional string property ([undefined] is falsy). *)
Definition truthy_opt_string (o : option jsstring) : bool :=
  match o with
  | Some s => truthy_string s
  | None => false
  end.

(** [WhiteSpace] and [LineTerminator] of ECMAScript, the code units that
    [String.prototype.trim] strips. *)
Definition isWhiteSpace (c : code_unit) : bool :=
  (c =? 0x09)%N || (c =? 0x0A)%N || (c =? 0x0B)%N || (c =? 0x0C)%N
  || (c =? 0x0D)%N || (c =? 0x20)%N || (c =? 0xA0)%N || (c =? 0x1680)%N
  || ((0x2000 <=? c)%N && (c <=? 0x200A)%N)
  || (c =? 0x2028)%N || (c =? 0x2029)%N || (c =? 0x202F)%N
  || (c =? 0x205F)%N || (c =? 0x3000)%N || (c =? 0xFEFF)%N.

Fixpoint trimStart (s : jsstring) : jsstring :=
  match s with
  | [] => []
  | c :: s' => if isWhiteSpace c then trimStart s' else s
  end.

Definition trimEnd (s : jsstring) : jsstring :=
  rev (trimStart (rev s)).

(** [s.trim()] *)
Definition trim (s : jsstring) : jsstring :=
  trimEnd (trimStart s).

Fixpoint startsWith (s prefix : jsstring) : bool :=
  match prefix, s with
  | [], _ => true
  | _ :: _, [] => false
  | p :: prefix', c :: s' => (p =? c)%N && startsWith s' prefix'
  end.

(** [s.includes(needle)] *)
Fixpoint includes (s needle : jsstring) : bool :=
  startsWith s needle
  || match s with
     | [] => false
     | _ :: s' => includes s' needle
     end.

(** Strict equality of an optional string with a string literal
    ([process.env[...] === 'true']). *)
Definition strict_eq_opt (o : option jsstring) (s : jsstring) : bool :=
  match o with
  | Some s' => bool_decide (s' = s)
  | None => false
  end.

(* ================================================================== *)
(** * JavaScript numbers *)
(* ================================================================== *)

(** A JavaScript number: binary64, [prec = 53] and [emax = 1024]. *)
Definition number := spec_float.

(** The number written as the integer literal [z]. *)
Definition num_of_Z (z : Z) : number := binary_normalize 53 1024 z 0 false.

Definition num_of_nat (n : nat) : number := num_of_Z (Z.of_nat n).

Definition zero : number := S754_zero false.

(** ToBoolean on a number: [+0], [-0] and [NaN] are falsy. *)
Definition truthy_number (x : number) : bool :=
  match x with
  | S754_zero _ | S754_nan => false
  | S754_infinity _ | S754_finite _ _ _ => true
  end.

(** ToBoolean on an optional number property. *)
Definition truthy_opt_number (o : option number) : bool :=
  match o with
  | Some x => truthy_number x
  | None => false
  end.

(** [x <= y] and [x < y] on numbers (false as soon as one side is NaN). *)
Definition num_le (x y : number) : bool := SFleb x y.
Definition num_lt (x y : number) : bool := SFltb x y.

(** A number is positive when [0 < x]. *)
Definition positive_number (x : number) : bool := num_lt zero x.

(* ================================================================== *)
(** * Dates *)
(* ================================================================== *)

(** The time value of a [Date]: milliseconds since the epoch, or [None]
    for an Invalid Date (whose [getTime()] is [NaN]). *)
Definition Date := option Z.

(** [isNaN(d.getTime())] *)
Definition isNaN_getTime (d : Date) : bool :=
  match d with
  | Some _ => false
  | None => true
  end.

(** [a >= b] on two [Date]s: both are converted to their time values and
    the comparison is false when one of them is [NaN]. *)
Definition date_ge (a b : Date) : bool :=
  match a, b with
  | Some x, Some y => (y <=? x)%Z
  | _, _ => false
  end.

(** [a < b] on two [Date]s. *)
Definition date_lt (a b : Date) : bool :=
  match a, b with
  | Some x, Some y => (x <? y)%Z
  | _, _ => false
  end.

(* ================================================================== *)
(** * Scheduling types ([types.ts]) *)
(* ================================================================== *)

(** A primitive value, for the open [constraints] record. *)
Inductive JsValue :=
| VUndefined
| VNull
| VBoolean (b : bool)
| VNumber (n : number)
| VString (s : jsstring).

Record Attendee := {
  email : jsstring;
  name : option jsstring;
  required : option bool
}.

Record TimeWindow := {
  startISO : jsstring;
  endISO : jsstring
}.

(** A meeting request as it reads through a reference: the value of
    each property, [attendees] being the elements of the array and
    [constraints] the entries of the record that the object refers to. *)
Record MeetingRequest := {
  subject : jsstring;
  attendees : list Attendee;
  durationMinutes : option number;
  earliestISO : option jsstring;
  latestISO : option jsstring;
  constraints : option (list (jsstring * JsValue))
}.

Record Proposal := {
  slot : TimeWindow;
  score : number;
  reason : option jsstring
}.

Record BookingResult := {
  eventId : jsstring
}.

(* ================================================================== *)
(** * Policies ([core/policies.ts]) *)
(* ================================================================== *)

(** [NOURA_IDENTITY.DEFAULT_TIMEZONE] of [config/settings.ts], which
    [policies.ts] imports.  It only appears in a log record. *)
Definition DEFAULT_TIMEZONE : jsstring := lit "Asia/Dubai".

Record BusinessHours := {
  bh_start : jsstring;
  bh_end : jsstring;
  timezone : jsstring
}.

Record SchedulingPolicy := {
  businessHours : BusinessHours;
  minBufferMinutes : number;
  maxMeetingsPerDay : number;
  defaultDurationMinutes : number;
  autoApproveTrustedContacts : bool
}.

Definition schedulingPolicy : SchedulingPolicy := {|
  businessHours := {|
    bh_start := lit "10:00";
    bh_end := lit "18:00";
    timezone := DEFAULT_TIMEZONE
  |};
  minBufferMinutes := num_of_Z 15;
  maxMeetingsPerDay := num_of_Z 3;
  defaultDurationMinutes := num_of_Z 45;
  autoApproveTrustedContacts := true
|}.

Record PoliciesT := {
  scheduling : SchedulingPolicy
}.

Definition Policies : PoliciesT := {| scheduling := schedulingPolicy |}.

(* ================================================================== *)
(** * Errors, log records and the trace of a run *)
(* ================================================================== *)

(** What [JSON.stringify] makes of a value: a text, or a [TypeError]
    with the given message when it refuses the value (a cycle, or a
    BigInt, among its enumerable properties). *)
Inductive Stringified :=
| Json (text : jsstring)
| Refuses (why : jsstring).

(** A thrown value: for an error object its [name] and [message]; for
    every value, what [JSON.stringify] makes of it.  A method that
    rejects may do so with any value; the coordinator hands what it
    catches to the logger, which serialises it. *)
Record Error := mkError {
  errorName : jsstring;
  message : jsstring;
  asJSON : Stringified
}.

(** [new Error(msg)]: the name, the message and the stack of an error
    are not enumerable, so that it serialises as an empty object. *)
Definition new_Error (msg : jsstring) : Error :=
  {| errorName := lit "Error"; message := msg; asJSON := Json (lit "{}") |}.

(** The error that [JSON.stringify] throws with the message [why]. *)
Definition TypeError (why : jsstring) : Error :=
  {| errorName := lit "TypeError"; message := why;
     asJSON := Json (lit "{}") |}.

Inductive LogLevel := DEBUG | INFO | WARN | ERROR.

(** [LOG_LEVEL_PRIORITY] of [core/logger.ts] *)
Definition LOG_LEVEL_PRIORITY (level : LogLevel) : Z :=
  match level with
  | DEBUG => 0
  | INFO => 1
  | WARN => 2
  | ERROR => 3
  end.

#[local] Unset Elimination Schemes.

(** The values that the sources put into a log context. *)
Inductive LogValue :=
| LUndefined
| LString (s : jsstring)
| LNumber (n : number)
| LSlot (w : TimeWindow)
| LError (e : Error)
| LObject (fields : list (string * LogValue)).

#[local] Set Elimination Schemes.

(** The message with which [JSON.stringify] refuses a value of a log
    context, if it does: the values are visited in order, and only a
    thrown value can be one that it refuses. *)
Fixpoint value_refusal (v : LogValue) : option jsstring :=
  match v with
  | LError e =>
      match asJSON e with
      | Json _ => None
      | Refuses why => Some why
      end
  | LObject fields =>
      (fix go (l : list (string * LogValue)) : option jsstring :=
         match l with
         | [] => None
         | (_, x) :: l' =>
             match value_refusal x with
             | Some why => Some why
             | None => go l'
             end
         end) fields
  | LUndefined | LString _ | LNumber _ | LSlot _ => None
  end.

Definition context_refusal (context : list (string * LogValue))
    : option jsstring :=
  value_refusal (LObject context).

Definition LOptNumber (o : option number) : LogValue :=
  match o with
  | Some n => LNumber n
  | None => LUndefined
  end.

(** A reference to an object of the store. *)
Definition loc := positive.

(** The object behind a reference to a request: its own properties.
    [attendees] and [constraints] hold references in their turn; the
    array and the record that they name are reached from every object
    that holds the same reference. *)
Record RequestObject := {
  own_subject : jsstring;
  attendees_ref : loc;
  own_durationMinutes : option number;
  own_earliestISO : option jsstring;
  own_latestISO : option jsstring;
  constraints_ref : option loc
}.

(** A call through the [SchedulingEngine] interface. *)
Inductive EngineCall :=
| Propose (request : loc)
| Book (request : loc) (chosen : TimeWindow).

(** What a run leaves behind: the records handed to the logger (with the
    [source] of the child logger), the calls made on an engine (with the
    engine's constructor name) and the reads of [process.env]. *)
Inductive Event :=
| Logged (source : string) (level : LogLevel) (msg : string)
         (context : list (string * LogValue))
| Invoked (engineType : jsstring) (call : EngineCall)
| EnvRead (variable : string).

Definition is_invocation (ev : Event) : bool :=
  match ev with
  | Invoked _ _ => true
  | Logged _ _ _ _ | EnvRead _ => false
  end.

Definition is_env_read (ev : Event) : bool :=
  match ev with
  | EnvRead _ => true
  | Logged _ _ _ _ | Invoked _ _ => false
  end.

(** The engine calls of a trace, oldest first. *)
Definition engine_calls (t : list Event) : list Event :=
  List.filter is_invocation t.

(** The reads of the environment in a trace. *)
Definition env_reads (t : list Event) : list Event :=
  List.filter is_env_read t.

(** How a call ends: it returns a value or throws (an [async] method
    resolves or rejects). *)
Inductive Outcome (A : Type) :=
| Returned (a : A)
| Threw (e : Error).

Arguments Returned {A} a.
Arguments Threw {A} e.

(** [if (c) { throw e }] *)
Definition throw_if (c : bool) (e : Error) : Outcome unit :=
  if c then Threw e else Returned tt.

(** Two statements in sequence: the second runs when the first did not
    throw. *)
Definition and_then {A} (a : Outcome unit) (b : Outcome A) : Outcome A :=
  match a with
  | Returned _ => b
  | Threw e => Threw e
  end.

Infix ">>" := and_then (at level 62, left associativity).

(** Reading a property of [undefined]. *)
Definition TypeError_undefined : Error :=
  TypeError (lit "Cannot read properties of undefined").

(* ================================================================== *)
(** * The world and the computations over it *)
(* ================================================================== *)

Section Model.

(** The state of the systems behind the engines (calendars, bookings):
    nothing in the coordinator looks at it. *)
Variable Ext : Type.

(** [new Date(s)] on a string: the parse of the host, whose fallback for
    strings outside the ISO format is implementation-defined. *)
Variable parseDate : jsstring -> Date.

(** The store holds the request objects, the arrays of attendees and
    the records of constraints, each kind under references of its own.
    An array holds its attendees as they read; the elements are objects
    too, reached through the array only.  [logLevel] is the level in the
    configuration of the child loggers of the service and of its engine,
    which they copied from the root logger when they were made. *)
Record World := {
  trace : list Event;
  objects : gmap loc RequestObject;
  arrays : gmap loc (list Attendee);
  dictionaries : gmap loc (list (jsstring * JsValue));
  ENABLE_SIDEKICK : option jsstring;
  logLevel : LogLevel;
  external : Ext
}.

(** The request that an object reads as. *)
Definition read_request (w : World) (o : RequestObject)
    : option MeetingRequest :=
  match arrays w !! attendees_ref o with
  | None => None
  | Some l =>
      match constraints_ref o with
      | None =>
          Some {| subject := own_subject o;
                  attendees := l;
                  durationMinutes := own_durationMinutes o;
                  earliestISO := own_earliestISO o;
                  latestISO := own_latestISO o;
                  constraints := None |}
      | Some c =>
          match dictionaries w !! c with
          | None => None
          | Some d =>
              Some {| subject := own_subject o;
                      attendees := l;
                      durationMinutes := own_durationMinutes o;
                      earliestISO := own_earliestISO o;
                      latestISO := own_latestISO o;
                      constraints := Some d |}
          end
      end
  end.

(** The requests of the store, each as it reads through its reference. *)
Definition heap (w : World) : gmap loc MeetingRequest :=
  omap (read_request w) (objects w).

(** The world after more events. *)
Definition record (evs : list Event) (w : World) : World :=
  {| trace := trace w ++ evs;
     objects := objects w;
     arrays := arrays w;
     dictionaries := dictionaries w;
     ENABLE_SIDEKICK := ENABLE_SIDEKICK w;
     logLevel := logLevel w;
     external := external w |}.

(** The world after a write of the object at [r]. *)
Definition store (r : loc) (obj : RequestObject) (w : World) : World :=
  {| trace := trace w;
     objects := <[r := obj]> (objects w);
     arrays := arrays w;
     dictionaries := dictionaries w;
     ENABLE_SIDEKICK := ENABLE_SIDEKICK w;
     logLevel := logLevel w;
     external := external w |}.

(** The world after a write of the array at [a]: an assignment to an
    element or to [length], or a call of a method such as [push]. *)
Definition store_array (a : loc) (l : list Attendee) (w : World) : World :=
  {| trace := trace w;
     objects := objects w;
     arrays := <[a := l]> (arrays w);
     dictionaries := dictionaries w;
     ENABLE_SIDEKICK := ENABLE_SIDEKICK w;
     logLevel := logLevel w;
     external := external w |}.

(** The world with another value of the environment variable. *)
Definition setenv (v : option jsstring) (w : World) : World :=
  {| trace := trace w;
     objects := objects w;
     arrays := arrays w;
     dictionaries := dictionaries w;
     ENABLE_SIDEKICK := v;
     logLevel := logLevel w;
     external := external w |}.

Definition M (A : Type) : Type := World -> Outcome A * World.

Definition ret {A} (a : A) : M A := fun w => (Returned a, w).

Definition throw {A} (e : Error) : M A := fun w => (Threw e, w).

Definition bind {A B} (m : M A) (k : A -> M B) : M B :=
  fun w =>
    match m w with
    | (Returned a, w') => k a w'
    | (Threw e, w') => (Threw e, w')
    end.

(** [try { body } catch (error) { handler }] *)
Definition try_catch {A} (body : M A) (handler : Error -> M A) : M A :=
  fun w =>
    match body w with
    | (Returned a, w') => (Returned a, w')
    | (Threw e, w') => handler e w'
    end.

Notation "x <- m ;; k" := (bind m (fun x => k))
  (at level 100, m at next level, right associativity).
Notation "m ;; k" := (bind m (fun _ => k))
  (at level 100, right associativity).

Local Open Scope string_scope.

(** A call of a function that touches nothing but its arguments. *)
Definition lift {A} (o : Outcome A) : M A := fun w => (o, w).

Definition emit (ev : Event) : M unit :=
  fun w => (Returned tt, record [ev] w).

(** A call on a child logger created with [{ source }]; the trace holds
    every call, whatever becomes of the record on the console.  A record
    below the level of the logger is dropped.  Every other one is
    serialised with [JSON.stringify], in both formats and outside any
    [try]: the context of a child logger is never empty, as it holds the
    source.  When [JSON.stringify] refuses the context, its [TypeError]
    comes out of the call. *)
Definition log (source : string) (level : LogLevel) (msg : string)
    (context : list (string * LogValue)) : M unit :=
  fun w =>
    let w' := record [Logged source level msg context] w in
    if (LOG_LEVEL_PRIORITY level <? LOG_LEVEL_PRIORITY (logLevel w))%Z
    then (Returned tt, w')
    else
      match context_refusal context with
      | None => (Returned tt, w')
      | Some why => (Threw (TypeError why), w')
      end.

(** Reading through a reference; a reference that holds no object behaves
    as [undefined]. *)
Definition deref (r : loc) : M MeetingRequest :=
  fun w =>
    match heap w !! r with
    | Some obj => (Returned obj, w)
    | None => (Threw TypeError_undefined, w)
    end.

(** The object itself behind a reference. *)
Definition deref_object (r : loc) : M RequestObject :=
  fun w =>
    match objects w !! r with
    | Some obj => (Returned obj, w)
    | None => (Threw TypeError_undefined, w)
    end.

(** An object literal: a new object at a reference not yet in use. *)
Definition alloc (obj : RequestObject) : M loc :=
  fun w =>
    let r := fresh (dom (objects w)) in
    (Returned r, store r obj w).

(** [process.env['ENABLE_SIDEKICK']] *)
Definition getenv_ENABLE_SIDEKICK : M (option jsstring) :=
  emit (EnvRead "ENABLE_SIDEKICK") ;;
  fun w => (Returned (ENABLE_SIDEKICK w), w).

(* ================================================================== *)
(** * Engines *)
(* ================================================================== *)

(** The [SchedulingEngine] interface, with the name of the implementing
    class ([engine.constructor.name]). *)
Record SchedulingEngine := {
  constructor_name : jsstring;
  propose : loc -> M (list Proposal);
  book : loc -> TimeWindow -> M BookingResult
}.

(** [engines/googleCalendarEngine.ts] *)
Definition GoogleCalendarEngine : SchedulingEngine := {|
  constructor_name := lit "GoogleCalendarEngine";
  propose := fun request =>
    req <- deref request ;;
    log "GoogleCalendarEngine" DEBUG "Proposing slots for meeting request"
      [("subject", LString (subject req));
       ("attendeeCount", LNumber (num_of_nat (length (attendees req))));
       ("duration", LOptNumber (durationMinutes req))] ;;
    log "GoogleCalendarEngine" WARN
      "Google Calendar engine not yet implemented - returning empty proposals"
      [] ;;
    ret [];
  book := fun request slot =>
    req <- deref request ;;
    log "GoogleCalendarEngine" DEBUG "Booking meeting slot"
      [("subject", LString (subject req));
       ("slot", LSlot slot);
       ("attendeeCount", LNumber (num_of_nat (length (attendees req))))] ;;
    log "GoogleCalendarEngine" WARN
      "Google Calendar booking not yet implemented - returning placeholder event ID"
      [] ;;
    ret {| eventId := lit "TBD" |}
|}.

(** [new GoogleCalendarEngine()] *)
Definition new_GoogleCalendarEngine : M SchedulingEngine :=
  log "GoogleCalendarEngine" DEBUG
    "Google Calendar scheduling engine initialized" [] ;;
  ret GoogleCalendarEngine.

(** [engines/sidekickEngine.ts] *)
Definition SidekickEngine : SchedulingEngine := {|
  constructor_name := lit "SidekickEngine";
  propose := fun request =>
    req <- deref request ;;
    log "SidekickEngine" DEBUG "Proposing slots via Sidekick API"
      [("subject", LString (subject req));
       ("attendeeCount", LNumber (num_of_nat (length (attendees req))));
       ("duration", LOptNumber (durationMinutes req))] ;;
    log "SidekickEngine" WARN
      "Sidekick API integration not yet implemented - returning empty proposals"
      [] ;;
    ret [];
  book := fun request slot =>
    req <- deref request ;;
    log "SidekickEngine" DEBUG "Booking meeting via Sidekick API"
      [("subject", LString (subject req));
       ("slot", LSlot slot);
       ("attendeeCount", LNumber (num_of_nat (length (attendees req))))] ;;
    log "SidekickEngine" WARN
      "Sidekick booking not yet implemented - returning placeholder event ID"
      [] ;;
    ret {| eventId := lit "TBD" |}
|}.

(** [new SidekickEngine()] *)
Definition new_SidekickEngine : M SchedulingEngine :=
  log "SidekickEngine" DEBUG "Sidekick scheduling engine initialized" [] ;;
  ret SidekickEngine.

(** A call through the interface, recorded in the trace before the
    engine runs. *)
Definition call_propose (e : SchedulingEngine) (request : loc)
    : M (list Proposal) :=
  emit (Invoked (constructor_name e) (Propose request)) ;;
  propose e request.

Definition call_book (e : SchedulingEngine) (request : loc)
    (chosen : TimeWindow) : M BookingResult :=
  emit (Invoked (constructor_name e) (Book request chosen)) ;;
  book e request chosen.

(* ================================================================== *)
(** * The coordinator ([SchedulingService.ts]) *)
(* ================================================================== *)

(** The class has one field besides its logger; it is assigned in the
    constructor only. *)
Record SchedulingService := {
  engine : SchedulingEngine
}.

Definition getEngineType (this : SchedulingService) : jsstring :=
  constructor_name (engine this).

Definition createEngine : M SchedulingEngine :=
  env <- getenv_ENABLE_SIDEKICK ;;
  let useSidekick := strict_eq_opt env (lit "true") in
  if useSidekick then
    log "SchedulingService" INFO "Using Sidekick scheduling engine" [] ;;
    new_SidekickEngine
  else
    log "SchedulingService" INFO "Using Google Calendar scheduling engine" [] ;;
    new_GoogleCalendarEngine.

(** [new SchedulingService()] *)
Definition new_SchedulingService : M SchedulingService :=
  e <- createEngine ;;
  let this := {| engine := e |} in
  log "SchedulingService" INFO "Scheduling service initialized"
    [("engineType", LString (getEngineType this));
     ("policies", LObject
        [("businessHours", LObject
            [("start", LString (bh_start (businessHours (scheduling Policies))));
             ("end", LString (bh_end (businessHours (scheduling Policies))));
             ("timezone", LString (timezone (businessHours (scheduling Policies))))]);
         ("maxMeetingsPerDay", LNumber (maxMeetingsPerDay (scheduling Policies)));
         ("defaultDuration", LNumber (defaultDurationMinutes (scheduling Policies)))])] ;;
  ret this.

(** The loop over [request.attendees]: the first attendee whose email is
    empty or has no ['@'] throws. *)
Fixpoint validateAttendees (l : list Attendee) : Outcome unit :=
  match l with
  | [] => Returned tt
  | attendee :: rest =>
      if negb (truthy_string (email attendee))
         || negb (includes (email attendee) (lit "@"))
      then Threw (new_Error
                    (lit "Invalid email address for attendee: "
                     ++ email attendee)%list)
      else validateAttendees rest
  end.

(** [undefined <= y] is false. *)
Definition opt_num_le (o : option number) (y : number) : bool :=
  match o with
  | Some x => num_le x y
  | None => false
  end.

(** The last check: both bounds truthy, then the two dates compared. *)
Definition validateRange (request : MeetingRequest) : Outcome unit :=
  match earliestISO request, latestISO request with
  | Some e, Some l =>
      if truthy_string e && truthy_string l then
        let earliest := parseDate e in
        let latest := parseDate l in
        throw_if (date_ge earliest latest)
          (new_Error (lit "Earliest time must be before latest time"))
      else Returned tt
  | _, _ => Returned tt
  end.

(** [validateMeetingRequest] reads the properties of the request and
    touches nothing else: it is a function of the object it is given.
    An array is always truthy, so [!request.attendees] is false on a
    typed request. *)
Definition validateMeetingRequest (request : MeetingRequest) : Outcome unit :=
  throw_if (negb (truthy_string (subject request))
            || Nat.eqb (length (trim (subject request))) 0)
    (new_Error (lit "Meeting subject is required"))
  >> throw_if (Nat.eqb (length (attendees request)) 0)
       (new_Error (lit "At least one attendee is required"))
  >> validateAttendees (attendees request)
  >> throw_if (truthy_opt_number (durationMinutes request)
               && opt_num_le (durationMinutes request) zero)
       (new_Error (lit "Meeting duration must be positive"))
  >> validateRange request.

Definition validateTimeWindow (slot : TimeWindow) : Outcome unit :=
  let start := parseDate (startISO slot) in
  let end_ := parseDate (endISO slot) in
  throw_if (isNaN_getTime start || isNaN_getTime end_)
    (new_Error (lit "Invalid time slot format"))
  >> throw_if (date_ge start end_)
       (new_Error (lit "Meeting start time must be before end time")).

(** [x || dflt] on an optional number. *)
Definition or_default (o : option number) (dflt : number) : number :=
  match o with
  | Some x => if truthy_number x then x else dflt
  | None => dflt
  end.

(** What [{ ...request, durationMinutes: ... }] reads as. *)
Definition enhanced (request : MeetingRequest) : MeetingRequest := {|
  subject := subject request;
  attendees := attendees request;
  durationMinutes :=
    Some (or_default (durationMinutes request)
            (defaultDurationMinutes (scheduling Policies)));
  earliestISO := earliestISO request;
  latestISO := latestISO request;
  constraints := constraints request
|}.

(** The object that [{ ...request, durationMinutes: ... }] builds: the
    spread copies the own properties of [request], so that the new
    object holds the same two references as the old one. *)
Definition enhanced_object (request : RequestObject) : RequestObject := {|
  own_subject := own_subject request;
  attendees_ref := attendees_ref request;
  own_durationMinutes :=
    Some (or_default (own_durationMinutes request)
            (defaultDurationMinutes (scheduling Policies)));
  own_earliestISO := own_earliestISO request;
  own_latestISO := own_latestISO request;
  constraints_ref := constraints_ref request
|}.

(** [enhanceRequest]: the object literal is a new object. *)
Definition enhanceRequest (request : loc) : M loc :=
  req <- deref_object request ;;
  alloc (enhanced_object req).

(** [proposeSlots]; the exported function of the same name calls it on
    the service built when the module is loaded. *)
Definition proposeSlots (this : SchedulingService) (request : loc)
    : M (list Proposal) :=
  req <- deref request ;;
  log "SchedulingService" DEBUG "Proposing meeting slots"
    [("subject", LString (subject req));
     ("attendeeCount", LNumber (num_of_nat (length (attendees req))));
     ("engine", LString (getEngineType this))] ;;
  try_catch
    (req <- deref request ;;
     lift (validateMeetingRequest req) ;;
     enhancedRequest <- enhanceRequest request ;;
     proposals <- call_propose (engine this) enhancedRequest ;;
     log "SchedulingService" DEBUG "Generated meeting proposals"
       [("proposalCount", LNumber (num_of_nat (length proposals)));
        ("engine", LString (getEngineType this))] ;;
     ret proposals)
    (fun error =>
       log "SchedulingService" ERROR "Failed to propose meeting slots"
         [("error", LError error)] ;;
       throw error).

Definition confirmSlot (this : SchedulingService) (request : loc)
    (chosenSlot : TimeWindow) : M BookingResult :=
  req <- deref request ;;
  log "SchedulingService" DEBUG "Confirming meeting slot"
    [("subject", LString (subject req));
     ("slot", LSlot chosenSlot);
     ("engine", LString (getEngineType this))] ;;
  try_catch
    (req <- deref request ;;
     lift (validateMeetingRequest req) ;;
     lift (validateTimeWindow chosenSlot) ;;
     enhancedRequest <- enhanceRequest request ;;
     result <- call_book (engine this) enhancedRequest chosenSlot ;;
     req' <- deref request ;;
     log "SchedulingService" INFO "Meeting successfully booked"
       [("eventId", LString (eventId result));
        ("subject", LString (subject req'));
        ("slot", LSlot chosenSlot);
        ("engine", LString (getEngineType this))] ;;
     ret result)
    (fun error =>
       log "SchedulingService" ERROR "Failed to confirm meeting slot"
         [("error", LError error)] ;;
       throw error).

End Model.

Arguments trace {Ext} w.
Arguments objects {Ext} w.
Arguments arrays {Ext} w.
Arguments dictionaries {Ext} w.
Arguments logLevel {Ext} w.
Arguments read_request {Ext} w o.
Arguments heap {Ext} w.
Arguments ENABLE_SIDEKICK {Ext} w.
Arguments external {Ext} w.
Arguments record {Ext} evs w.
Arguments store {Ext} r obj w.
Arguments store_array {Ext} a l w.
Arguments deref_object {Ext} r.
Arguments setenv {Ext} v w.
Arguments constructor_name {Ext} e : rename.
Arguments propose {Ext} e request : rename.
Arguments book {Ext} e request chosen : rename.
Arguments engine {Ext} this : rename.
Arguments getEngineType {Ext} this.
Arguments new_SchedulingService {Ext}.
Arguments createEngine {Ext}.
Arguments proposeSlots {Ext} parseDate this request.
Arguments confirmSlot {Ext} parseDate this request chosenSlot.
Arguments enhanceRequest {Ext} request.
Arguments GoogleCalendarEngine {Ext}.
Arguments SidekickEngine {Ext}.

(* ================================================================== *)
(** * A date parser and the fixtures of the test suite *)
(* ================================================================== *)

(** The properties below hold for every [parseDate].  To run the model
    on the timestamps of the test suite, [isoParse] reads the full UTC
    form [YYYY-MM-DDTHH:mm:ss.sssZ] of the ECMAScript date-time format and
    returns an Invalid Date on every other string. *)

Definition digit (c : code_unit) : option Z :=
  if (48 <=? c)%N && (c <=? 57)%N then Some (Z.of_N c - 48)%Z else None.

Fixpoint digits (s : jsstring) (acc : Z) : option Z :=
  match s with
  | [] => Some acc
  | c :: s' =>
      match digit c with
      | Some d => digits s' (10 * acc + d)%Z
      | None => None
      end
  end.

(** The [len] decimal digits of [s] from position [start]. *)
Definition field (s : jsstring) (start len : nat) : option Z :=
  let f := take len (drop start s) in
  if Nat.eqb (length f) len then digits f 0 else None.

Definition char_at (s : jsstring) (i : nat) (c : string) : bool :=
  bool_decide (take 1 (drop i s) = lit c).

Definition isLeapYear (y : Z) : bool :=
  ((y mod 4 =? 0) && negb (y mod 100 =? 0) || (y mod 400 =? 0))%Z.

Definition daysInMonth (y m : Z) : Z :=
  if (m =? 2)%Z then (if isLeapYear y then 29 else 28)%Z
  else if ((m =? 4) || (m =? 6) || (m =? 9) || (m =? 11))%Z then 30%Z
  else 31%Z.

(** Days from 1970-01-01 to the given civil date. *)
Definition daysFromCivil (y m d : Z) : Z :=
  let y' := (if (m <=? 2)%Z then y - 1 else y)%Z in
  let era := (y' / 400)%Z in
  let yoe := (y' - era * 400)%Z in
  let mp := (if (m <=? 2)%Z then m + 9 else m - 3)%Z in
  let doy := ((153 * mp + 2) / 5 + d - 1)%Z in
  let doe := (yoe * 365 + yoe / 4 - yoe / 100 + doy)%Z in
  (era * 146097 + doe - 719468)%Z.

Definition isoParse (s : jsstring) : Date :=
  if Nat.eqb (length s) 24
     && char_at s 4 "-" && char_at s 7 "-" && char_at s 10 "T"
     && char_at s 13 ":" && char_at s 16 ":" && char_at s 19 "."
     && char_at s 23 "Z"
  then
    match field s 0 4, field s 5 2, field s 8 2,
          field s 11 2, field s 14 2, field s 17 2, field s 20 3 with
    | Some y, Some mo, Some d, Some h, Some mi, Some sec, Some ms =>
        if ((1 <=? mo) && (mo <=? 12) && (1 <=? d) && (d <=? daysInMonth y mo)
            && (h <=? 23) && (mi <=? 59) && (sec <=? 59))%Z
        then Some ((((daysFromCivil y mo d * 24 + h) * 60 + mi) * 60 + sec)
                   * 1000 + ms)%Z
        else None
    | _, _, _, _, _, _, _ => None
    end
  else None.

(** [dummyRequest] and [dummySlot] of the test suite. *)
Definition dummyRequest : MeetingRequest := {|
  subject := lit "Test Meeting";
  attendees :=
    [ {| email := lit "test@example.com";
         name := Some (lit "Test User");
         required := Some true |};
      {| email := lit "another@example.com";
         name := Some (lit "Another User");
         required := None |} ];
  durationMinutes := Some (num_of_Z 30);
  earliestISO := Some (lit "2024-01-15T10:00:00.000Z");
  latestISO := Some (lit "2024-01-15T18:00:00.000Z");
  constraints := None
|}.

Definition dummySlot : TimeWindow := {|
  startISO := lit "2024-01-15T14:00:00.000Z";
  endISO := lit "2024-01-15T14:30:00.000Z"
|}.

(** [{ ...request, durationMinutes: d }] *)
Definition with_duration (d : option number) (request : MeetingRequest)
    : MeetingRequest := {|
  subject := subject request;
  attendees := attendees request;
  durationMinutes := d;
  earliestISO := earliestISO request;
  latestISO := latestISO request;
  constraints := constraints request
|}.

(** [{ ...request, earliestISO: e, latestISO: l }] *)
Definition with_range (e l : option jsstring) (request : MeetingRequest)
    : MeetingRequest := {|
  subject := subject request;
  attendees := attendees request;
  durationMinutes := durationMinutes request;
  earliestISO := e;
  latestISO := l;
  constraints := constraints request
|}.

(** A world whose store holds [request] at reference [1], its array of
    attendees and its record of constraints being held by no other
    object, with an empty trace, the given value of [ENABLE_SIDEKICK]
    and loggers at their default level. *)
Definition world_with (env : option jsstring) (request : MeetingRequest)
    : World unit := {|
  trace := [];
  objects :=
    {[ 1%positive :=
         {| own_subject := subject request;
            attendees_ref := 1%positive;
            own_durationMinutes := durationMinutes request;
            own_earliestISO := earliestISO request;
            own_latestISO := latestISO request;
            constraints_ref :=
              match constraints request with
              | Some _ => Some 1%positive
              | None => None
              end |} ]};
  arrays := {[ 1%positive := attendees request ]};
  dictionaries :=
    match constraints request with
    | Some d => {[ 1%positive := d ]}
    | None => ∅
    end;
  ENABLE_SIDEKICK := env;
  logLevel := INFO;
  external := tt
|}.

(** An engine whose calls all fail, as a backend out of reach would. *)
Definition EngineUnavailable : Error :=
  {| errorName := lit "EngineUnavailable";
     message := lit "backend unreachable";
     asJSON := Json (lit "{}") |}.

Definition FailingEngine : SchedulingEngine unit := {|
  constructor_name := lit "FailingEngine";
  propose := fun _ w => (Threw EngineUnavailable, w);
  book := fun _ _ w => (Threw EngineUnavailable, w)
|}.

(** [Object.assign(new Error('quota exceeded'), { retryAfterMs: 30000n })]:
    an error that carries a BigInt among its enumerable properties. *)
Definition QuotaExceeded : Error :=
  {| errorName := lit "Error";
     message := lit "quota exceeded";
     asJSON := Refuses (lit "Do not know how to serialize a BigInt") |}.

(** An engine whose calls all fail with it. *)
Definition QuotaEngine : SchedulingEngine unit := {|
  constructor_name := lit "QuotaEngine";
  propose := fun _ w => (Threw QuotaExceeded, w);
  book := fun _ _ w => (Threw QuotaExceeded, w)
|}.

(** An engine that empties the list of attendees of the request it is
    handed ([request.attendees.length = 0]) and writes nothing else. *)
Definition AttendeeDroppingEngine : SchedulingEngine unit := {|
  constructor_name := lit "AttendeeDroppingEngine";
  propose := fun request w =>
    match objects w !! request with
    | Some obj => (Returned [], store_array (attendees_ref obj) [] w)
    | None => (Threw TypeError_undefined, w)
    end;
  book := fun request _ w =>
    match objects w !! request with
    | Some obj =>
        (Returned {| eventId := lit "TBD" |},
         store_array (attendees_ref obj) [] w)
    | None => (Threw TypeError_undefined, w)
    end
|}.

(* ================================================================== *)
(** * The checks as the specification lists them *)
(* ================================================================== *)

(** The five preconditions of section 4.1, in the order of the list. *)
Inductive Check :=
| SubjectCheck
| AttendeesCheck
| EmailCheck
| DurationCheck
| RangeCheck.

Definition check_order : list Check :=
  [SubjectCheck; AttendeesCheck; EmailCheck; DurationCheck; RangeCheck].

(** "earliest before latest when both present", read on the strings the
    request carries: a bound that is no date is not before anything. *)
Definition range_as_stated (parseDate : jsstring -> Date)
    (request : MeetingRequest) : bool :=
  match earliestISO request, latestISO request with
  | Some e, Some l => date_lt (parseDate e) (parseDate l)
  | _, _ => true
  end.

(** The range check restricted to bounds that are non-empty and parse:
    a bound that is empty or is no date passes. *)
Definition range_of_dates (parseDate : jsstring -> Date)
    (request : MeetingRequest) : bool :=
  match earliestISO request, latestISO request with
  | Some e, Some l =>
      if truthy_string e && truthy_string l then
        match parseDate e, parseDate l with
        | Some a, Some b => (a <? b)%Z
        | _, _ => true
        end
      else true
  | _, _ => true
  end.

(** Whether a request passes a check, for a given reading of the last
    one. *)
Definition passes (range : MeetingRequest -> bool) (c : Check)
    (request : MeetingRequest) : bool :=
  match c with
  | SubjectCheck => negb (Nat.eqb (length (trim (subject request))) 0)
  | AttendeesCheck => negb (Nat.eqb (length (attendees request)) 0)
  | EmailCheck =>
      forallb (fun a => includes (email a) (lit "@")) (attendees request)
  | DurationCheck =>
      match durationMinutes request with
      | Some d => positive_number d
      | None => true
      end
  | RangeCheck => range request
  end.

(** The first check of the list that the request fails. *)
Definition first_failing (range : MeetingRequest -> bool)
    (request : MeetingRequest) : option Check :=
  List.find (fun c => negb (passes range c request)) check_order.

(** The email of the first attendee without an ['@']. *)
Definition offending_email (l : list Attendee) : jsstring :=
  match List.find (fun a => negb (includes (email a) (lit "@"))) l with
  | Some a => email a
  | None => []
  end.

(** The error that belongs to a check. *)
Definition error_of (c : Check) (request : MeetingRequest) : Error :=
  match c with
  | SubjectCheck => new_Error (lit "Meeting subject is required")
  | AttendeesCheck => new_Error (lit "At least one attendee is required")
  | EmailCheck =>
      new_Error (lit "Invalid email address for attendee: "
                 ++ offending_email (attendees request))
  | DurationCheck => new_Error (lit "Meeting duration must be positive")
  | RangeCheck => new_Error (lit "Earliest time must be before latest time")
  end.

(** The duration is absent or a number other than [0], [-0] and [NaN]. *)
Definition duration_set (request : MeetingRequest) : bool :=
  match durationMinutes request with
  | Some d => truthy_number d
  | None => true
  end.

(* ================================================================== *)
(** * Vocabulary for the statements *)
(* ================================================================== *)

Section Vocabulary.

Variable Ext : Type.

Local Open Scope string_scope.

(** A run that threw [e] having added nothing to [w] but records without
    an engine call: the store and the backends are as they were. *)
Definition raised_before_engine {A} (e : Error) (w : World Ext)
    (run : Outcome A * World Ext) : Prop :=
  fst run = Threw e
  /\ exists logs, snd run = record logs w /\ engine_calls logs = [].

(** The records written by the two methods. *)
Definition proposing_log (this : SchedulingService Ext)
    (request : MeetingRequest) : Event :=
  Logged "SchedulingService" DEBUG "Proposing meeting slots"
    [("subject", LString (subject request));
     ("attendeeCount", LNumber (num_of_nat (length (attendees request))));
     ("engine", LString (getEngineType this))].

Definition generated_log (this : SchedulingService Ext)
    (proposals : list Proposal) : Event :=
  Logged "SchedulingService" DEBUG "Generated meeting proposals"
    [("proposalCount", LNumber (num_of_nat (length proposals)));
     ("engine", LString (getEngineType this))].

Definition propose_failed_log (e : Error) : Event :=
  Logged "SchedulingService" ERROR "Failed to propose meeting slots"
    [("error", LError e)].

Definition confirming_log (this : SchedulingService Ext)
    (request : MeetingRequest) (chosenSlot : TimeWindow) : Event :=
  Logged "SchedulingService" DEBUG "Confirming meeting slot"
    [("subject", LString (subject request));
     ("slot", LSlot chosenSlot);
     ("engine", LString (getEngineType this))].

Definition booked_log (this : SchedulingService Ext)
    (result : BookingResult) (request : MeetingRequest)
    (chosenSlot : TimeWindow) : Event :=
  Logged "SchedulingService" INFO "Meeting successfully booked"
    [("eventId", LString (eventId result));
     ("subject", LString (subject request));
     ("slot", LSlot chosenSlot);
     ("engine", LString (getEngineType this))].

Definition confirm_failed_log (e : Error) : Event :=
  Logged "SchedulingService" ERROR "Failed to confirm meeting slot"
    [("error", LError e)].

(** The reference of the enhanced copy made in world [w]. *)
Definition enhanced_ref (w : World Ext) : loc := fresh (dom (objects w)).

(** The world in which [engine.propose] starts on a request that reads
    as [request] through [r]: the first record written, the enhanced
    copy of the object at [r] made, the call recorded. *)
Definition propose_world (this : SchedulingService Ext) (r : loc)
    (request : MeetingRequest) (w : World Ext) : World Ext :=
  record [Invoked (getEngineType this) (Propose (enhanced_ref w))]
    (snd (enhanceRequest r (record [proposing_log this request] w))).

(** The world in which [engine.book] starts. *)
Definition book_world (this : SchedulingService Ext) (r : loc)
    (request : MeetingRequest) (chosenSlot : TimeWindow) (w : World Ext)
    : World Ext :=
  record [Invoked (getEngineType this) (Book (enhanced_ref w) chosenSlot)]
    (snd (enhanceRequest r
            (record [confirming_log this request chosenSlot] w))).

(** What comes out of the handler of the two methods, which hands the
    caught value to the logger before it throws it again: the value
    itself, or the [TypeError] of [JSON.stringify] when it refuses it. *)
Definition rethrown (e : Error) : Error :=
  match asJSON e with
  | Json _ => e
  | Refuses why => TypeError why
  end.

(** What [proposeSlots] makes of the end of [engine.propose]. *)
Definition after_propose (this : SchedulingService Ext)
    (res : Outcome (list Proposal) * World Ext)
    : Outcome (list Proposal) * World Ext :=
  match res with
  | (Returned proposals, w') =>
      (Returned proposals, record [generated_log this proposals] w')
  | (Threw e, w') => (Threw (rethrown e), record [propose_failed_log e] w')
  end.

(** What [confirmSlot] makes of the end of [engine.book]; the record of
    success reads [request.subject] once more. *)
Definition after_book (this : SchedulingService Ext) (r : loc)
    (chosenSlot : TimeWindow) (res : Outcome BookingResult * World Ext)
    : Outcome BookingResult * World Ext :=
  match res with
  | (Returned result, w') =>
      match heap w' !! r with
      | Some request' =>
          (Returned result,
           record [booked_log this result request' chosenSlot] w')
      | None =>
          (Threw TypeError_undefined,
           record [confirm_failed_log TypeError_undefined] w')
      end
  | (Threw e, w') => (Threw (rethrown e), record [confirm_failed_log e] w')
  end.

(** An engine that writes to the store only through the reference it is
    handed: every request object but the one behind that reference has
    after the call the properties it had before.  The array of attendees
    and the record of constraints of the object it is handed are within
    its reach, and it may write to them. *)
Definition writes_through_argument (e : SchedulingEngine Ext) : Prop :=
  (forall r w r0, r0 <> r ->
     objects (snd (propose e r w)) !! r0 = objects w !! r0)
  /\ (forall r chosen w r0, r0 <> r ->
        objects (snd (book e r chosen w)) !! r0 = objects w !! r0).

(** An engine that writes neither to the array of attendees nor to the
    record of constraints of the request it is handed: the enhanced copy
    shares both with the caller's request, so that a write to either
    shows through the caller's reference too. *)
Definition leaves_shared_parts_alone (e : SchedulingEngine Ext) : Prop :=
  (forall r w obj, objects w !! r = Some obj ->
     arrays (snd (propose e r w)) !! attendees_ref obj
     = arrays w !! attendees_ref obj
     /\ (forall c, constraints_ref obj = Some c ->
           dictionaries (snd (propose e r w)) !! c = dictionaries w !! c))
  /\ (forall r chosen w obj, objects w !! r = Some obj ->
        arrays (snd (book e r chosen w)) !! attendees_ref obj
        = arrays w !! attendees_ref obj
        /\ (forall c, constraints_ref obj = Some c ->
              dictionaries (snd (book e r chosen w)) !! c
              = dictionaries w !! c)).

(** The events that a run added to the trace of [w]. *)
Definition added_events (w w' : World Ext) (evs : list Event) : Prop :=
  trace w' = (trace w ++ evs)%list.

End Vocabulary.

Arguments raised_before_engine {Ext A} e w run.
Arguments proposing_log {Ext} this request.
Arguments generated_log {Ext} this proposals.
Arguments confirming_log {Ext} this request chosenSlot.
Arguments booked_log {Ext} this result request chosenSlot.
Arguments enhanced_ref {Ext} w.
Arguments propose_world {Ext} this r request w.
Arguments book_world {Ext} this r request chosenSlot w.
Arguments after_propose {Ext} this res.
Arguments after_book {Ext} this r chosenSlot res.
Arguments writes_through_argument {Ext} e.
Arguments leaves_shared_parts_alone {Ext} e.
Arguments added_events {Ext} w w' evs.

(** An event that is no engine call, or a call on the engine named [n]. *)
Definition is_call_on (n : jsstring) (ev : Event) : Prop :=
  match ev with
  | Invoked n' _ => n' = n
  | _ => True
  end.

(** One of the two engines of the repository. *)
Definition shipped_engine {Ext} (e : SchedulingEngine Ext) : Prop :=
  e = SidekickEngine \/ e = GoogleCalendarEngine.

(* ================================================================== *)
(** * Requests, slots and services for the examples *)
(* ================================================================== *)

(** The two services that the constructor can build, and one over the
    failing engine. *)
Definition googleService : SchedulingService unit :=
  {| engine := GoogleCalendarEngine |}.

Definition sidekickService : SchedulingService unit :=
  {| engine := SidekickEngine |}.

Definition failingService : SchedulingService unit :=
  {| engine := FailingEngine |}.

(** Two more over engines that the interface admits. *)
Definition quotaService : SchedulingService unit :=
  {| engine := QuotaEngine |}.

Definition droppingService : SchedulingService unit :=
  {| engine := AttendeeDroppingEngine |}.

(** [{ ...dummyRequest, durationMinutes: 0 }] *)
Definition zeroDurationRequest : MeetingRequest :=
  with_duration (Some zero) dummyRequest.

(** [{ ...dummyRequest, durationMinutes: -30 }], of the test suite. *)
Definition negativeDurationRequest : MeetingRequest :=
  with_duration (Some (num_of_Z (-30))) dummyRequest.

(** [dummyRequest] without a duration. *)
Definition openDurationRequest : MeetingRequest :=
  with_duration None dummyRequest.

(** [{ ...dummyRequest, earliestISO: 'not-a-date' }] *)
Definition undatedRequest : MeetingRequest :=
  with_range (Some (lit "not-a-date"))
    (Some (lit "2024-01-15T18:00:00.000Z")) dummyRequest.

(** A request that fails every check: blank subject, no attendee, a
    negative duration and bounds in the wrong order. *)
Definition hopelessRequest : MeetingRequest := {|
  subject := lit "   ";
  attendees := [];
  durationMinutes := Some (num_of_Z (-30));
  earliestISO := Some (lit "2024-01-15T18:00:00.000Z");
  latestISO := Some (lit "2024-01-15T10:00:00.000Z");
  constraints := None
|}.

(** The two bad slots of the test suite. *)
Definition invalidSlot : TimeWindow := {|
  startISO := lit "invalid-date";
  endISO := lit "2024-01-15T14:30:00.000Z"
|}.

Definition invertedSlot : TimeWindow := {|
  startISO := lit "2024-01-15T14:30:00.000Z";
  endISO := lit "2024-01-15T14:00:00.000Z"
|}.

Unset Implicit Arguments.

(* ================================================================== *)
(** * The contact store ([modules/memory/ContactMemory.ts]) *)
(* ================================================================== *)

Module ContactMemory.

(** [ContactProfile], the type inferred from [ContactProfileSchema]. *)
Record Preferences := {
  morningOnly : option bool;
  avoidDays : option (list jsstring)
}.

Record ContactProfile := {
  email : jsstring;
  name : option jsstring;
  timezone : jsstring;
  preferences : Preferences;
  notes : option jsstring
}.

(** A [Map<string, ContactProfile>]: its entries in insertion order, no
    key twice.  Keys are compared as [Map] compares strings, code unit by
    code unit.  The map holds the profile objects it is given, not copies
    of them, and the class never writes to one: an entry stands for the
    object and what it holds at the time it is read. *)
Definition JsMap := list (jsstring * ContactProfile).

(** [Map.prototype.get] *)
Fixpoint map_get (k : jsstring) (m : JsMap) : option ContactProfile :=
  match m with
  | [] => None
  | (k', v) :: m' => if bool_decide (k' = k) then Some v else map_get k m'
  end.

(** [Map.prototype.has] *)
Fixpoint map_has (k : jsstring) (m : JsMap) : bool :=
  match m with
  | [] => false
  | (k', _) :: m' => bool_decide (k' = k) || map_has k m'
  end.

(** [Map.prototype.set]: the value of a key already there is replaced
    where it stands, a new key goes to the end. *)
Fixpoint map_set (k : jsstring) (v : ContactProfile) (m : JsMap) : JsMap :=
  match m with
  | [] => [(k, v)]
  | (k', v') :: m' =>
      if bool_decide (k' = k) then (k', v) :: m'
      else (k', v') :: map_set k v m'
  end.

(** [Map.prototype.delete]: the map without the entry of the key. *)
Fixpoint map_remove (k : jsstring) (m : JsMap) : JsMap :=
  match m with
  | [] => []
  | (k', v) :: m' =>
      if bool_decide (k' = k) then m' else (k', v) :: map_remove k m'
  end.

(** [Array.from(map.values())] *)
Definition map_values (m : JsMap) : list ContactProfile := map snd m.

(** The instance: its one private field. *)
Record ContactMemory := {
  contacts : JsMap
}.

(** [new ContactMemory()] *)
Definition new : ContactMemory := {| contacts := [] |}.

Definition get (email : jsstring) (this : ContactMemory)
    : option ContactProfile :=
  map_get email (contacts this).

Definition set (email : jsstring) (profile : ContactProfile)
    (this : ContactMemory) : ContactMemory :=
  {| contacts := map_set email profile (contacts this) |}.

Definition has (email : jsstring) (this : ContactMemory) : bool :=
  map_has email (contacts this).

(** [delete] returns what [Map.prototype.delete] returns: whether the key
    was there. *)
Definition delete (email : jsstring) (this : ContactMemory)
    : bool * ContactMemory :=
  (map_has email (contacts this),
   {| contacts := map_remove email (contacts this) |}).

Definition getAll (this : ContactMemory) : list ContactProfile :=
  map_values (contacts this).

Definition clear (this : ContactMemory) : ContactMemory :=
  {| contacts := [] |}.

(** The keys of the map, in insertion order. *)
Definition keys (this : ContactMemory) : list jsstring :=
  map fst (contacts this).

(** A call that changes the store. *)
Inductive Call :=
| CallSet (email : jsstring) (profile : ContactProfile)
| CallDelete (email : jsstring)
| CallClear.

Definition call (this : ContactMemory) (c : Call) : ContactMemory :=
  match c with
  | CallSet k v => set k v this
  | CallDelete k => snd (delete k this)
  | CallClear => clear this
  end.

(** The store after a history of calls on a new instance, oldest first. *)
Definition after (history : list Call) : ContactMemory :=
  fold_left call history new.

(** What the history says of a key: the profile of the last [set] of the
    key that no [delete] of the key and no [clear] came after. *)
Fixpoint last_written (k : jsstring) (history : list Call)
    (acc : option ContactProfile) : option ContactProfile :=
  match history with
  | [] => acc
  | CallSet k' v :: h =>
      last_written k h (if bool_decide (k' = k) then Some v else acc)
  | CallDelete k' :: h =>
      last_written k h (if bool_decide (k' = k) then None else acc)
  | CallClear :: h => last_written k h None
  end.

End ContactMemory.

(* ================================================================== *)
(** * Configuration ([config/settings.ts]) *)
(* ================================================================== *)

(** [a.join(sep)] on an array of strings. *)
Fixpoint join (sep : jsstring) (l : list jsstring) : jsstring :=
  match l with
  | [] => []
  | [s] => s
  | s :: rest => s ++ sep ++ join sep rest
  end.

Module Settings.

(** [process.env], as it is once [dotenv]'s [config()] has run. *)
Definition Env := string -> option jsstring.

Inductive NodeEnv := development | production | test.

Definition NodeEnv_name (n : NodeEnv) : jsstring :=
  match n with
  | development => lit "development"
  | production => lit "production"
  | test => lit "test"
  end.

(** The string value of a member of the [LogLevel] enum. *)
Definition LogLevel_name (l : LogLevel) : jsstring :=
  match l with
  | DEBUG => lit "debug"
  | INFO => lit "info"
  | WARN => lit "warn"
  | ERROR => lit "error"
  end.

Record IdentityConfig := {
  fullName : jsstring;
  email : jsstring;
  defaultTimezone : jsstring
}.

Record SlackConfig := {
  displayName : option jsstring;
  memberId : option jsstring
}.

Record ApplicationConfig := {
  application_nodeEnv : NodeEnv;
  logLevel : LogLevel;
  port : number
}.

(** [Settings]: the validated configuration and the convenience
    properties added to it. *)
Record Settings := {
  identity : IdentityConfig;
  slack : SlackConfig;
  application : ApplicationConfig;
  nodeEnv : NodeEnv;
  isProduction : bool;
  isDevelopment : bool;
  isTest : bool
}.

Record NouraIdentity := {
  FULL_NAME : jsstring;
  EMAIL : jsstring;
  DEFAULT_TIMEZONE : jsstring;
  SLACK_DISPLAY_NAME : jsstring;
  SLACK_MEMBER_ID : jsstring
}.

Definition NOURA_IDENTITY : NouraIdentity := {|
  FULL_NAME := lit "Noura Khalil";
  EMAIL := lit "nk@fikra.ventures";
  DEFAULT_TIMEZONE := lit "Asia/Dubai";
  SLACK_DISPLAY_NAME := lit "@Noura Khalil";
  SLACK_MEMBER_ID := lit "U09DB024QS2"
|}.

(** [process.env.X || dflt]: an unset and an empty variable both give the
    default. *)
Definition or_else (o : option jsstring) (dflt : jsstring) : jsstring :=
  match o with
  | Some s => if truthy_string s then s else dflt
  | None => dflt
  end.

(** The object handed to [SettingsSchema.parse]: every property is a
    string. *)
Record RawConfig := {
  raw_fullName : jsstring;
  raw_email : jsstring;
  raw_defaultTimezone : jsstring;
  raw_displayName : jsstring;
  raw_memberId : jsstring;
  raw_nodeEnv : jsstring;
  raw_logLevel : jsstring;
  raw_port : jsstring
}.

Local Open Scope string_scope.

Definition rawConfig (env : Env) : RawConfig := {|
  raw_fullName := or_else (env "NOURA_FULL_NAME") (FULL_NAME NOURA_IDENTITY);
  raw_email := or_else (env "NOURA_EMAIL") (EMAIL NOURA_IDENTITY);
  raw_defaultTimezone :=
    or_else (env "DEFAULT_TIMEZONE") (DEFAULT_TIMEZONE NOURA_IDENTITY);
  raw_displayName :=
    or_else (env "SLACK_DISPLAY_NAME") (SLACK_DISPLAY_NAME NOURA_IDENTITY);
  raw_memberId :=
    or_else (env "SLACK_MEMBER_ID") (SLACK_MEMBER_ID NOURA_IDENTITY);
  raw_nodeEnv := or_else (env "NODE_ENV") (lit "development");
  raw_logLevel := or_else (env "LOG_LEVEL") (lit "info");
  raw_port := or_else (env "PORT") (lit "3000")
|}.

(** An issue of a [ZodError]: where, and the message. *)
Record ZodIssue := {
  path : list jsstring;
  issue_message : jsstring
}.

(** The issues whose message the schema does not give. *)
Inductive DefaultIssue :=
| invalid_enum_value (options : list jsstring) (received : jsstring)
| invalid_type_nan
| too_small (minimum : Z)
| too_big (maximum : Z).

(** What is written with [console.error]: a text and, for the first
    line, the error object beside it. *)
Inductive ConsoleLine :=
| ConsoleError (text : jsstring) (error : option (list ZodIssue)).

Section Zod.

(** The three things the validation library decides: whether a string
    is an email address ([z.string().email()]), the number a string is
    coerced to ([z.coerce.number()], that is [Number(s)]) and the wording
    of its own messages. *)
Variable isEmail : jsstring -> bool.
Variable toNumber : jsstring -> number.
Variable defaultMessage : DefaultIssue -> jsstring.

(** [z.string().min(1, message)] *)
Definition check_min1 (p : list jsstring) (message : jsstring)
    (s : jsstring) : list ZodIssue :=
  if Nat.ltb (length s) 1
  then [{| path := p; issue_message := message |}]
  else [].

(** [z.string().email(message)] *)
Definition check_email (p : list jsstring) (message : jsstring)
    (s : jsstring) : list ZodIssue :=
  if isEmail s then [] else [{| path := p; issue_message := message |}].

(** [z.enum([...])] on a string: the member it names. *)
Fixpoint enum_member {A : Type} (members : list (jsstring * A))
    (s : jsstring) : option A :=
  match members with
  | [] => None
  | (n, a) :: rest =>
      if bool_decide (n = s) then Some a else enum_member rest s
  end.

Definition check_enum {A : Type} (p : list jsstring)
    (members : list (jsstring * A)) (s : jsstring) : list ZodIssue :=
  match enum_member members s with
  | Some _ => []
  | None =>
      [{| path := p;
          issue_message :=
            defaultMessage (invalid_enum_value (map fst members) s) |}]
  end.

Definition nodeEnv_members : list (jsstring * NodeEnv) :=
  [(lit "development", development);
   (lit "production", production);
   (lit "test", test)].

Definition logLevel_members : list (jsstring * LogLevel) :=
  [(lit "debug", DEBUG); (lit "info", INFO);
   (lit "warn", WARN); (lit "error", ERROR)].

Definition isNaN (x : number) : bool :=
  match x with
  | S754_nan => true
  | _ => false
  end.

(** [z.coerce.number().min(1).max(65535)] *)
Definition check_port (p : list jsstring) (s : jsstring) : list ZodIssue :=
  let n := toNumber s in
  if isNaN n then
    [{| path := p; issue_message := defaultMessage invalid_type_nan |}]
  else
    (if num_lt n (num_of_Z 1)
     then [{| path := p; issue_message := defaultMessage (too_small 1) |}]
     else [])
    ++ (if num_lt (num_of_Z 65535) n
        then [{| path := p;
                 issue_message := defaultMessage (too_big 65535) |}]
        else []).

(** The issues of [SettingsSchema.parse(raw)], in the order of the keys
    of the schema; the optional strings of [slack] raise none. *)
Definition issues (raw : RawConfig) : list ZodIssue :=
  check_min1 [lit "identity"; lit "fullName"]
    (lit "Full name is required") (raw_fullName raw)
  ++ check_email [lit "identity"; lit "email"]
       (lit "Valid email is required") (raw_email raw)
  ++ check_min1 [lit "identity"; lit "defaultTimezone"]
       (lit "Default timezone is required") (raw_defaultTimezone raw)
  ++ check_enum [lit "application"; lit "nodeEnv"] nodeEnv_members
       (raw_nodeEnv raw)
  ++ check_enum [lit "application"; lit "logLevel"] logLevel_members
       (raw_logLevel raw)
  ++ check_port [lit "application"; lit "port"] (raw_port raw).

(** [SettingsSchema.parse(raw)]: the validated configuration, or the
    issues of the [ZodError] thrown. *)
Definition parse (raw : RawConfig)
    : list ZodIssue + (IdentityConfig * SlackConfig * ApplicationConfig) :=
  match issues raw,
        enum_member nodeEnv_members (raw_nodeEnv raw),
        enum_member logLevel_members (raw_logLevel raw) with
  | [], Some n, Some l =>
      inr ({| fullName := raw_fullName raw;
              email := raw_email raw;
              defaultTimezone := raw_defaultTimezone raw |},
           {| displayName := Some (raw_displayName raw);
              memberId := Some (raw_memberId raw) |},
           {| application_nodeEnv := n;
              logLevel := l;
              port := toNumber (raw_port raw) |})
  | errs, _, _ => inl errs
  end.

Definition NodeEnv_eqb (a b : NodeEnv) : bool :=
  match a, b with
  | development, development | production, production | test, test => true
  | _, _ => false
  end.

(** [loadConfiguration]: the settings, or the one error it throws after
    writing the issues to the console. *)
Definition loadConfiguration (env : Env)
    : Outcome Settings * list ConsoleLine :=
  match parse (rawConfig env) with
  | inr (validatedIdentity, validatedSlack, validatedApplication) =>
      let nodeEnv := application_nodeEnv validatedApplication in
      (Returned {|
         identity := validatedIdentity;
         slack := validatedSlack;
         application := validatedApplication;
         nodeEnv := nodeEnv;
         isProduction := NodeEnv_eqb nodeEnv production;
         isDevelopment := NodeEnv_eqb nodeEnv development;
         isTest := NodeEnv_eqb nodeEnv test
       |}, [])
  | inl errors =>
      (Threw (new_Error
                (lit "Invalid configuration - please check your environment variables")),
       ConsoleError (lit "Configuration validation failed:") (Some errors)
       :: ConsoleError (lit "Validation errors:") None
       :: map (fun err =>
                 ConsoleError
                   (lit "  - " ++ join (lit ".") (path err) ++ lit ": "
                    ++ issue_message err)%list None)
            errors)
  end.

End Zod.

(** [configUtils.validateEnvironment]: whether the three variables are
    set and not empty; the missing ones are named on the console. *)
Definition requiredVars : list string :=
  ["NOURA_FULL_NAME"; "NOURA_EMAIL"; "DEFAULT_TIMEZONE"].

Definition validateEnvironment (env : Env) : bool * list ConsoleLine :=
  let missingVars :=
    List.filter (fun varName => negb (truthy_opt_string (env varName)))
      requiredVars in
  if Nat.ltb 0 (length missingVars) then
    (false,
     ConsoleError (lit "Missing required environment variables:") None
     :: map (fun varName => ConsoleError (lit "  - " ++ lit varName)%list None)
          missingVars)
  else (true, []).

End Settings.

(* ================================================================== *)
(** * The application ([app.ts]) and its entry point ([index.ts]) *)
(* ================================================================== *)

Module Application.

Section App.

(** The exported [settings] of [config/settings.ts]. *)
Variable settings : Settings.Settings.

(** [error.stack], a text of the host. *)
Variable stack : Error -> option jsstring.

(** [process.env.npm_package_version] and [process.version]. *)
Variable npm_package_version : option jsstring.
Variable process_version : jsstring.

(** The two private fields of the class. *)
Record Application := {
  isInitialized : bool;
  isShuttingDown : bool
}.

(** [new Application()] *)
Definition new : Application :=
  {| isInitialized := false; isShuttingDown := false |}.

(** The instance and the calls made so far on the root logger. *)
Record Run := {
  app : Application;
  logged : list Event
}.

Definition A (T : Type) : Type := Run -> Outcome T * Run.

Definition ret {T} (x : T) : A T := fun s => (Returned x, s).

Definition throw {T} (e : Error) : A T := fun s => (Threw e, s).

Definition bind {T U} (m : A T) (k : T -> A U) : A U :=
  fun s =>
    match m s with
    | (Returned x, s') => k x s'
    | (Threw e, s') => (Threw e, s')
    end.

Notation "x <- m ;; k" := (bind m (fun x => k))
  (at level 100, m at next level, right associativity).
Notation "m ;; k" := (bind m (fun _ => k))
  (at level 100, right associativity).

(** [try { body } catch (error) { handler } finally { last }]; [last]
    runs on every way out. *)
Definition try_catch_finally {T} (body : A T) (handler : Error -> A T)
    (last : A unit) : A T :=
  fun s =>
    let (o, s1) :=
      match body s with
      | (Returned x, s') => (Returned x, s')
      | (Threw e, s') => handler e s'
      end in
    match last s1 with
    | (Returned _, s2) => (o, s2)
    | (Threw e, s2) => (Threw e, s2)
    end.

Definition try_catch {T} (body : A T) (handler : Error -> A T) : A T :=
  try_catch_finally body handler (ret tt).

Local Open Scope string_scope.

(** A call on the root logger, whose source is ["noura-core"]. *)
Definition logger (level : LogLevel) (msg : string)
    (context : list (string * LogValue)) : A unit :=
  fun s =>
    (Returned tt,
     {| app := app s;
        logged := logged s ++ [Logged "noura-core" level msg context] |}).

Definition get_isInitialized : A bool :=
  fun s => (Returned (isInitialized (app s)), s).

Definition get_isShuttingDown : A bool :=
  fun s => (Returned (isShuttingDown (app s)), s).

Definition set_isInitialized (b : bool) : A unit :=
  fun s =>
    (Returned tt,
     {| app := {| isInitialized := b;
                  isShuttingDown := isShuttingDown (app s) |};
        logged := logged s |}).

Definition set_isShuttingDown (b : bool) : A unit :=
  fun s =>
    (Returned tt,
     {| app := {| isInitialized := isInitialized (app s);
                  isShuttingDown := b |};
        logged := logged s |}).

Definition LOptString (o : option jsstring) : LogValue :=
  match o with
  | Some s => LString s
  | None => LUndefined
  end.

(** The context of the three error records: every value thrown here is
    an [Error]. *)
Definition error_context (error : Error) : list (string * LogValue) :=
  [("error", LString (message error)); ("stack", LOptString (stack error))].

Definition validateConfiguration : A unit :=
  logger DEBUG "Validating application configuration" [] ;;
  (if negb (truthy_string (Settings.fullName (Settings.identity settings)))
      || negb (truthy_string (Settings.email (Settings.identity settings)))
   then throw (new_Error (lit "Identity configuration is incomplete"))
   else ret tt) ;;
  (if truthy_opt_string (Settings.displayName (Settings.slack settings))
      && negb (truthy_opt_string (Settings.memberId (Settings.slack settings)))
   then throw (new_Error (lit "Slack configuration is incomplete"))
   else ret tt) ;;
  logger DEBUG "Configuration validation completed"
    [("identity", LObject
        [("name", LString (Settings.fullName (Settings.identity settings)));
         ("email", LString (Settings.email (Settings.identity settings)))]);
     ("environment",
      LString (Settings.NodeEnv_name (Settings.nodeEnv settings)))].

(** Whether neither check of [validateConfiguration] fires. *)
Definition configuration_complete : bool :=
  truthy_string (Settings.fullName (Settings.identity settings))
  && truthy_string (Settings.email (Settings.identity settings))
  && (negb (truthy_opt_string (Settings.displayName (Settings.slack settings)))
      || truthy_opt_string (Settings.memberId (Settings.slack settings))).

Definition initializeServices : A unit :=
  logger DEBUG "Initializing core services" [] ;;
  logger DEBUG "Core services initialized successfully" [].

Definition performHealthChecks : A unit :=
  logger DEBUG "Performing health checks" [] ;;
  logger DEBUG "Health checks completed successfully" [].

Definition cleanupServices : A unit :=
  logger DEBUG "Cleaning up services and resources" [] ;;
  logger DEBUG "Service cleanup completed successfully" [].

Definition initialize : A unit :=
  initialized <- get_isInitialized ;;
  if initialized then
    logger WARN "Application is already initialized" []
  else
    logger INFO "Initializing Noura Core application" [] ;;
    try_catch
      (validateConfiguration ;;
       initializeServices ;;
       performHealthChecks ;;
       set_isInitialized true ;;
       logger INFO "Application initialization completed successfully" [])
      (fun error =>
         logger ERROR "Application initialization failed"
           (error_context error) ;;
         throw error).

Definition shutdown : A unit :=
  shuttingDown <- get_isShuttingDown ;;
  if shuttingDown then
    logger WARN "Application is already shutting down" []
  else
    set_isShuttingDown true ;;
    logger INFO "Starting application shutdown" [] ;;
    try_catch_finally
      (cleanupServices ;;
       set_isInitialized false ;;
       logger INFO "Application shutdown completed successfully" [])
      (fun error =>
         logger ERROR "Error during application shutdown"
           (error_context error) ;;
         throw error)
      (set_isShuttingDown false).

Definition isReady (this : Application) : bool :=
  isInitialized this && negb (isShuttingDown this).

Inductive Status := healthy | unhealthy.

Record HealthStatus := {
  status : Status;
  timestamp : jsstring;
  identity : Settings.IdentityConfig;
  environment : Settings.NodeEnv;
  uptime : number
}.

(** [getHealthStatus]; [now] is [new Date().toISOString()] and [up] is
    [process.uptime()] at the time of the call. *)
Definition getHealthStatus (now : jsstring) (up : number)
    (this : Application) : HealthStatus :=
  {| status :=
       if isInitialized this && negb (isShuttingDown this)
       then healthy else unhealthy;
     timestamp := now;
     identity := Settings.identity settings;
     environment := Settings.nodeEnv settings;
     uptime := up |}.

(** How a call of [main] or of a signal handler ends: it returns
    without a call of [process.exit] ([Running]), or [process.exit(code)]
    ends the process. *)
Inductive Process :=
| Running
| Exited (code : Z).

(** [main] of [index.ts]. *)
Definition main : Run -> Process * Run :=
  fun s =>
    match
      try_catch
        (logger INFO "Starting Noura Core application"
           [("version",
             LString (Settings.or_else npm_package_version (lit "1.0.0")));
            ("nodeVersion", LString process_version);
            ("environment",
             LString (Settings.NodeEnv_name (Settings.nodeEnv settings)));
            ("timezone",
             LString (Settings.defaultTimezone (Settings.identity settings)))] ;;
         initialize ;;
         logger INFO "Noura Core application started successfully"
           [("identity", LObject
               [("name",
                 LString (Settings.fullName (Settings.identity settings)));
                ("email",
                 LString (Settings.email (Settings.identity settings)))])] ;;
         ret Running)
        (fun error =>
           logger ERROR "Failed to start Noura Core application"
             (error_context error) ;;
           ret (Exited 1)) s
    with
    | (Returned p, s') => (p, s')
    | (Threw _, s') => (Exited 1, s')
    end.

(** The two signals that [setupGracefulShutdown] listens to. *)
Inductive Signal := SIGINT | SIGTERM.

(** The handler installed for both; the first record carries the name of
    the signal. *)
Definition on_signal (signal : Signal) : Run -> Process * Run :=
  fun s =>
    match
      (logger INFO
         match signal with
         | SIGINT => "Received SIGINT, shutting down gracefully"
         | SIGTERM => "Received SIGTERM, shutting down gracefully"
         end [] ;;
       shutdown) s
    with
    | (Returned _, s') =>
        match logger INFO "Application shut down successfully" [] s' with
        | (_, s'') => (Exited 0, s'')
        end
    | (Threw error, s') =>
        match logger ERROR "Error during shutdown"
                [("error", LString (message error))] s' with
        | (_, s'') => (Exited 1, s'')
        end
    end.

(** A call from outside, and the instance after a history of calls that
    each ran to its end (an error thrown is the caller's to handle). *)
Inductive Call := CallInitialize | CallShutdown.

Definition call (s : Run) (c : Call) : Run :=
  match c with
  | CallInitialize => snd (initialize s)
  | CallShutdown => snd (shutdown s)
  end.

Definition after (history : list Call) : Run :=
  fold_left call history {| app := new; logged := [] |}.

End App.

End Application.
(* ================================================================== *)
(** * The structured logger ([core/logger.ts]) *)
(* ================================================================== *)

Module Logger.

Inductive Format := json | pretty.

Record LoggerConfig := {
  level : LogLevel;
  format : Format;
  includeStackTrace : bool;
  includeIdentity : bool;
  source : option jsstring
}.

(** [Partial<LoggerConfig>]: the keys that are present; [source] may be
    present and [undefined]. *)
Record PartialConfig := {
  p_level : option LogLevel;
  p_format : option Format;
  p_includeStackTrace : option bool;
  p_includeIdentity : option bool;
  p_source : option (option jsstring)
}.

(** [{}] *)
Definition no_options : PartialConfig :=
  {| p_level := None; p_format := None; p_includeStackTrace := None;
     p_includeIdentity := None; p_source := None |}.

(** [{ ...c, ...p }] *)
Definition spread_config (c : LoggerConfig) (p : PartialConfig)
    : LoggerConfig :=
  {| level := default (level c) (p_level p);
     format := default (format c) (p_format p);
     includeStackTrace := default (includeStackTrace c) (p_includeStackTrace p);
     includeIdentity := default (includeIdentity c) (p_includeIdentity p);
     source := default (source c) (p_source p) |}.

(** [{ ...c, source: s }] as an argument of the constructor: every key is
    present. *)
Definition with_source (c : LoggerConfig) (s : option jsstring)
    : PartialConfig :=
  {| p_level := Some (level c);
     p_format := Some (format c);
     p_includeStackTrace := Some (includeStackTrace c);
     p_includeIdentity := Some (includeIdentity c);
     p_source := Some s |}.

(** [a || b] on two optional strings. *)
Definition or_opt (a b : option jsstring) : option jsstring :=
  if truthy_opt_string a then a else b.

Record Identity := {
  identity_name : jsstring;
  identity_email : jsstring
}.

(** The console methods, and a line written with one of them. *)
Inductive Console :=
| console_log | console_debug | console_info | console_warn | console_error.

Record Written := {
  method : Console;
  text : jsstring
}.

(** What a call of the logger leaves on the console: the lines that the
    settings module writes when its load fails, and the line of the
    logger itself. *)
Inductive Line :=
| OfSettings (line : Settings.ConsoleLine)
| OfLogger (line : Written).

(** The members of the [LogLevel] enum with their values, in the order
    of [Object.values(LogLevel)]. *)
Definition LogLevel_values : list (jsstring * LogLevel) :=
  [(lit "debug", DEBUG); (lit "info", INFO);
   (lit "warn", WARN); (lit "error", ERROR)].

(** [entry.level.toUpperCase().padEnd(5)] *)
Definition level_label (l : LogLevel) : jsstring :=
  match l with
  | DEBUG => lit "DEBUG"
  | INFO => lit "INFO "
  | WARN => lit "WARN "
  | ERROR => lit "ERROR"
  end.

Section Host.

(** A log context is an object of the host; what the logger does with it
    is to spread two of them into a new one ([{ ...a, ...b }], where [b]
    may be [undefined]) and to count its keys.  [toLowerCase] is the
    method of strings, and the two [stringify] are [JSON.stringify] on an
    entry and, with an indentation of 2, on a context: each gives the
    text, or refuses its argument with a [TypeError]. *)
Variable Context : Type.
Variable spread : Context -> option Context -> Context.
Variable keys : Context -> list jsstring.
Variable toLowerCase : jsstring -> jsstring.

Record LogEntry := {
  timestamp : jsstring;
  entry_level : LogLevel;
  entry_message : jsstring;
  entry_context : option Context;
  entry_identity : option Identity;
  entry_source : option jsstring
}.

Variable stringify : LogEntry -> Stringified.
Variable stringify_indented : Context -> Stringified.

(** [parseLogLevel] *)
Definition parseLogLevel (level : option jsstring) : option LogLevel :=
  match level with
  | None => None
  | Some l =>
      if negb (truthy_string l) then None
      else
        let normalized := toLowerCase l in
        snd <$> List.find (fun m => bool_decide (fst m = normalized))
                  LogLevel_values
  end.

Local Open Scope string_scope.

(** The configuration that the constructor computes from the environment
    and the options given. *)
Definition new_config (env : Settings.Env) (config : PartialConfig)
    : LoggerConfig :=
  spread_config
    {| level := default INFO (parseLogLevel (env "LOG_LEVEL"));
       format := if strict_eq_opt (env "LOG_FORMAT") (lit "json")
                 then json else pretty;
       includeStackTrace := strict_eq_opt (env "NODE_ENV") (lit "development");
       includeIdentity := true;
       source := Some (lit "noura-core") |}
    config.

(** [outputPretty]: the line that it writes, unless [JSON.stringify]
    throws before anything is written. *)
Definition outputPretty (entry : LogEntry) : Outcome Written :=
  let source :=
    match entry_source entry with
    | Some s => if truthy_string s then (lit "[" ++ s ++ lit "]")%list else []
    | None => []
    end in
  let identity :=
    match entry_identity entry with
    | Some i => (lit "[" ++ identity_name i ++ lit "]")%list
    | None => []
    end in
  let output :=
    (timestamp entry ++ lit " " ++ level_label (entry_level entry) ++ lit " "
     ++ source ++ identity ++ lit " " ++ entry_message entry)%list in
  let output :=
    match entry_context entry with
    | Some c =>
        if Nat.ltb 0 (length (keys c))
        then
          match stringify_indented c with
          | Json context =>
              Returned (output ++ [10%N] ++ lit "  Context: " ++ context)%list
          | Refuses why => Threw (TypeError why)
          end
        else Returned output
    | None => Returned output
    end in
  match output with
  | Returned output =>
      Returned
        {| method :=
             match entry_level entry with
             | DEBUG => console_debug
             | INFO => console_info
             | WARN => console_warn
             | ERROR => console_error
             end;
           text := output |}
  | Threw e => Threw e
  end.

(** [output] *)
Definition output (this : LoggerConfig) (entry : LogEntry)
    : Outcome Written :=
  match format this with
  | json =>
      match stringify entry with
      | Json line => Returned {| method := console_log; text := line |}
      | Refuses why => Threw (TypeError why)
      end
  | pretty => outputPretty entry
  end.

(** The [log] method of the class, on the configuration of the
    instance: how it ends and what is on the console by then.  [now] is
    [new Date().toISOString()].  [settings] is what
    [require('../config/settings')] does at the time of the call: it
    gives the settings, or the load of the module throws after it wrote
    its lines, and does so at every call, as a module whose load failed
    is loaded again.  The [require] is inside a [try]; the two
    [JSON.stringify] of [output] are not. *)
Definition log (this : LoggerConfig) (now : jsstring)
    (settings : Outcome Settings.Settings * list Settings.ConsoleLine)
    (level : LogLevel) (message : jsstring) (context : option Context)
    : Outcome unit * list Line :=
  if Z.ltb (LOG_LEVEL_PRIORITY level) (LOG_LEVEL_PRIORITY (Logger.level this))
  then (Returned tt, [])
  else
    let required :=
      if includeIdentity this then
        match settings with
        | (Returned s, lines) =>
            (Some {| identity_name := Settings.fullName (Settings.identity s);
                     identity_email := Settings.email (Settings.identity s) |},
             lines)
        | (Threw _, lines) => (None, lines)
        end
      else (None, []) in
    let logEntry :=
      {| timestamp := now;
         entry_level := level;
         entry_message := message;
         entry_context :=
           match context with
           | Some c => if Nat.ltb 0 (length (keys c)) then Some c else None
           | None => None
           end;
         entry_identity := fst required;
         entry_source := source this |} in
    match output this logEntry with
    | Returned line =>
        (Returned tt,
         (map OfSettings (snd required) ++ [OfLogger line])%list)
    | Threw e => (Threw e, map OfSettings (snd required))
    end.

(** An instance: its configuration and, for one made by [child], the
    context that its own [log] property spreads under the context of each
    call before it hands over to the [log] of the class. *)
Record Logger := {
  config : LoggerConfig;
  bound : option Context
}.

(** [new Logger(config)] *)
Definition new (env : Settings.Env) (config : PartialConfig) : Logger :=
  {| config := new_config env config; bound := None |}.

(** [createLogger(config)]; without an argument the options are [{}]. *)
Definition createLogger (env : Settings.Env) (config : option PartialConfig)
    : Logger :=
  new env (default no_options config).

(** [this.log(level, message, context)] on an instance. *)
Definition this_log (this : Logger) (now : jsstring)
    (settings : Outcome Settings.Settings * list Settings.ConsoleLine)
    (level : LogLevel) (message : jsstring) (context : option Context)
    : Outcome unit * list Line :=
  match bound this with
  | None => log (config this) now settings level message context
  | Some childContext =>
      log (config this) now settings level message
        (Some (spread childContext context))
  end.

Definition debug (this : Logger) now settings message context :=
  this_log this now settings DEBUG message context.

Definition info (this : Logger) now settings message context :=
  this_log this now settings INFO message context.

Definition warn (this : Logger) now settings message context :=
  this_log this now settings WARN message context.

Definition error (this : Logger) now settings message context :=
  this_log this now settings ERROR message context.

(** [child(context, source)]; the constructor reads the environment of
    the time of the call. *)
Definition child (env : Settings.Env) (this : Logger) (context : Context)
    (source : option jsstring) : Logger :=
  let childLogger :=
    new env
      (with_source (config this)
         (or_opt source (Logger.source (config this)))) in
  {| config := config childLogger; bound := Some context |}.

(** [configure(config)] *)
Definition configure (this : Logger) (options : PartialConfig) : Logger :=
  {| config := spread_config (config this) options;
     bound := bound this |}.

(** The logger reached from [this] by one [child] call after the other,
    each with its context and source. *)
Definition descend (env : Settings.Env) (this : Logger)
    (chain : list (Context * option jsstring)) : Logger :=
  fold_left (fun l cs => child env l (fst cs) (snd cs)) chain this.

End Host.

Arguments config {Context} _.
Arguments bound {Context} _.
Arguments timestamp {Context} _.
Arguments entry_level {Context} _.
Arguments entry_message {Context} _.
Arguments entry_context {Context} _.
Arguments entry_identity {Context} _.
Arguments entry_source {Context} _.

End Logger.

(* ================================================================== *)
(** * Meeting briefs ([modules/meetings/BriefService.ts]) *)
(* ================================================================== *)

Module BriefService.

(** The line feed, ["\n"]. *)
Definition nl : jsstring := [10%N].

(** [buildBrief] *)
Definition buildBrief (emails : list jsstring) : jsstring :=
  let participantList :=
    join nl (map (fun email => lit "- " ++ email) emails) in
  lit "# Meeting Brief" ++ nl ++ nl
  ++ lit "## Participants" ++ nl
  ++ participantList ++ nl ++ nl
  ++ lit "## Agenda" ++ nl
  ++ lit "- Welcome and introductions" ++ nl
  ++ lit "- Main discussion points" ++ nl
  ++ lit "- Next steps" ++ nl ++ nl
  ++ lit "## Preparation" ++ nl
  ++ lit "- Review previous meeting notes" ++ nl
  ++ lit "- Prepare talking points" ++ nl ++ nl
  ++ lit "---" ++ nl
  ++ lit "*This is a generated brief stub*".

(** [summarize] *)
Definition summarize (eventId : jsstring) : jsstring :=
  lit "# Meeting Summary" ++ nl ++ nl
  ++ lit "**Event ID:** " ++ eventId ++ nl ++ nl
  ++ lit "## Key Points" ++ nl
  ++ lit "- Discussion point 1" ++ nl
  ++ lit "- Discussion point 2" ++ nl
  ++ lit "- Discussion point 3" ++ nl ++ nl
  ++ lit "## Action Items" ++ nl
  ++ lit "- [ ] Action item 1" ++ nl
  ++ lit "- [ ] Action item 2" ++ nl
  ++ lit "- [ ] Action item 3" ++ nl ++ nl
  ++ lit "## Decisions Made" ++ nl
  ++ lit "- Decision 1" ++ nl
  ++ lit "- Decision 2" ++ nl ++ nl
  ++ lit "## Next Steps" ++ nl
  ++ lit "- Schedule follow-up meeting" ++ nl
  ++ lit "- Review action items" ++ nl ++ nl
  ++ lit "---" ++ nl
  ++ lit "*This is a generated summary stub*".

(** The lines of a text: [text.split("\n")]. *)
Fixpoint lines_from (current : jsstring) (text : jsstring)
    : list jsstring :=
  match text with
  | [] => [rev current]
  | c :: rest =>
      if N.eqb c 10 then rev current :: lines_from [] rest
      else lines_from (c :: current) rest
  end.

Definition lines (text : jsstring) : list jsstring := lines_from [] text.

End BriefService.

(* ================================================================== *)
(** * The inbox ([modules/inbox]) *)
(* ================================================================== *)

Module Inbox.

(** [needsFollowUp] *)
Definition needsFollowUp (daysOpen : number) : bool :=
  num_le (num_of_Z 3) daysOpen.

Record InboxItem := {
  id : jsstring;
  from : jsstring;
  subject : jsstring;
  snippet : option jsstring
}.

(** [classify] *)
Definition classify (item : InboxItem) : jsstring := lit "action".

End Inbox.
(* ================================================================== *)
(** * A validation library, a host and environments for the examples *)
(* ================================================================== *)

(** The properties of the configuration and of the logger hold for every
    email check, every conversion to a number and every [toLowerCase].
    To run the model, these stand in for them: an address is a string
    with an [@], a number is written in decimal digits, and only the
    letters [A] to [Z] have a lower case. *)
Definition looseEmail (s : jsstring) : bool := includes s (lit "@").

Definition decimalNumber (s : jsstring) : number :=
  match s with
  | [] => zero
  | _ :: _ =>
      match digits s 0 with
      | Some z => num_of_Z z
      | None => S754_nan
      end
  end.

Definition plainMessage (issue : Settings.DefaultIssue) : jsstring :=
  match issue with
  | Settings.invalid_enum_value _ _ => lit "Invalid enum value"
  | Settings.invalid_type_nan => lit "Expected number, received nan"
  | Settings.too_small _ => lit "Number must be greater than or equal to 1"
  | Settings.too_big _ => lit "Number must be less than or equal to 65535"
  end.

Definition asciiLower (s : jsstring) : jsstring :=
  map (fun c => if (65 <=? c)%N && (c <=? 90)%N then (c + 32)%N else c) s.

(** No variable is set; [NODE_ENV=staging]; [LOG_LEVEL=DEBUG]. *)
Definition noVariables : Settings.Env := fun _ => None.

Definition stagingEnvironment : Settings.Env :=
  fun name =>
    if String.eqb name "NODE_ENV" then Some (lit "staging") else None.

Definition shoutedLevel : Settings.Env :=
  fun name =>
    if String.eqb name "LOG_LEVEL" then Some (lit "DEBUG") else None.

(** The settings loaded when no variable is set, and the same with the
    Slack member id taken away. *)
Definition defaultSettings : Settings.Settings := {|
  Settings.identity :=
    {| Settings.fullName := lit "Noura Khalil";
       Settings.email := lit "nk@fikra.ventures";
       Settings.defaultTimezone := lit "Asia/Dubai" |};
  Settings.slack :=
    {| Settings.displayName := Some (lit "@Noura Khalil");
       Settings.memberId := Some (lit "U09DB024QS2") |};
  Settings.application :=
    {| Settings.application_nodeEnv := Settings.development;
       Settings.logLevel := INFO;
       Settings.port := num_of_Z 3000 |};
  Settings.nodeEnv := Settings.development;
  Settings.isProduction := false;
  Settings.isDevelopment := true;
  Settings.isTest := false
|}.

Definition halfSlackSettings : Settings.Settings := {|
  Settings.identity := Settings.identity defaultSettings;
  Settings.slack :=
    {| Settings.displayName := Some (lit "@Noura Khalil");
       Settings.memberId := None |};
  Settings.application := Settings.application defaultSettings;
  Settings.nodeEnv := Settings.development;
  Settings.isProduction := false;
  Settings.isDevelopment := true;
  Settings.isTest := false
|}.

(** A host whose errors carry no stack, and the application before any
    call. *)
Definition noStack (e : Error) : option jsstring := None.

Definition freshRun : Application.Run :=
  {| Application.app := Application.new; Application.logged := [] |}.

(** A contact, and two addresses. *)
Definition sampleProfile : ContactMemory.ContactProfile := {|
  ContactMemory.email := lit "test@example.com";
  ContactMemory.name := Some (lit "Test User");
  ContactMemory.timezone := lit "Asia/Dubai";
  ContactMemory.preferences :=
    {| ContactMemory.morningOnly := None; ContactMemory.avoidDays := None |};
  ContactMemory.notes := None
|}.

(* ================================================================== *)
(** * Properties *)
(* ================================================================== *)

Unset Implicit Arguments.

Section Properties.
Variable Ext : Type.
Variable parseDate : jsstring -> Date.
Implicit Types (w : World Ext) (this : SchedulingService Ext).
Implicit Types (request : MeetingRequest) (r : loc).

(** ** Runs of the two methods *)

Lemma record_record (evs1 evs2 : list Event) w :
  record evs2 (record evs1 w) = record (evs1 ++ evs2) w.
Proof. unfold record; simpl. by rewrite <- app_assoc. Qed.

(** ** The store *)

Lemma heap_lookup w r : heap w !! r = objects w !! r ≫= read_request w.
Proof. apply lookup_omap. Qed.

Lemma heap_record (evs : list Event) w : heap (record evs w) = heap w.
Proof. reflexivity. Qed.

Lemma heap_object w r request :
  heap w !! r = Some request ->
  exists o, objects w !! r = Some o /\ read_request w o = Some request.
Proof.
  rewrite heap_lookup. destruct (objects w !! r) as [o|]; [|discriminate].
  intros H. by exists o.
Qed.

Lemma read_request_ext w w' (o : RequestObject) :
  arrays w' = arrays w -> dictionaries w' = dictionaries w ->
  read_request w' o = read_request w o.
Proof. intros Ha Hd. unfold read_request. by rewrite Ha, Hd. Qed.

Lemma read_enhanced w (o : RequestObject) :
  read_request w (enhanced_object o) = enhanced <$> read_request w o.
Proof.
  unfold read_request. simpl.
  destruct (arrays w !! attendees_ref o); [|reflexivity].
  destruct (constraints_ref o) as [c|]; [|reflexivity].
  destruct (dictionaries w !! c); reflexivity.
Qed.

Lemma fresh_ref_free w : objects w !! enhanced_ref w = None.
Proof.
  unfold enhanced_ref. apply not_elem_of_dom. apply is_fresh.
Qed.

Lemma fresh_ref_other w r request :
  heap w !! r = Some request -> r <> enhanced_ref w.
Proof.
  intros Hr ->. rewrite heap_lookup, fresh_ref_free in Hr. discriminate.
Qed.

Lemma enhanceRequest_object r w (o : RequestObject) :
  objects w !! r = Some o ->
  enhanceRequest r w
  = (Returned (enhanced_ref w), store (enhanced_ref w) (enhanced_object o) w).
Proof.
  intros Ho. unfold enhanceRequest, bind, deref_object, alloc.
  by rewrite Ho.
Qed.

Lemma heap_store_enhanced w (o : RequestObject) request :
  read_request w o = Some request ->
  heap (store (enhanced_ref w) (enhanced_object o) w) !! enhanced_ref w
  = Some (enhanced request).
Proof.
  intros Hq. rewrite heap_lookup.
  replace (objects (store (enhanced_ref w) (enhanced_object o) w)
           !! enhanced_ref w)
    with (Some (enhanced_object o)) by (symmetry; apply lookup_insert_eq).
  change (read_request (store (enhanced_ref w) (enhanced_object o) w)
            (enhanced_object o) = Some (enhanced request)).
  rewrite (read_request_ext w (store (enhanced_ref w) (enhanced_object o) w))
    by reflexivity.
  by rewrite read_enhanced, Hq.
Qed.

Lemma heap_store_other w (o : RequestObject) r :
  r <> enhanced_ref w ->
  heap (store (enhanced_ref w) (enhanced_object o) w) !! r = heap w !! r.
Proof.
  intros Hne. rewrite !heap_lookup.
  replace (objects (store (enhanced_ref w) (enhanced_object o) w) !! r)
    with (objects w !! r)
    by (symmetry; apply lookup_insert_ne; congruence).
  destruct (objects w !! r) as [o'|]; [|reflexivity].
  apply read_request_ext; reflexivity.
Qed.

(** ** The logger *)

Lemma LOptNumber_plain (o : option number) :
  value_refusal (LOptNumber o) = None.
Proof. by destruct o. Qed.

Lemma log_plain source level msg context w :
  context_refusal context = None ->
  log source level msg context w
  = (Returned tt, record [Logged source level msg context] w).
Proof.
  intros Hc. unfold log. rewrite Hc.
  by destruct (LOG_LEVEL_PRIORITY level <? _)%Z.
Qed.

Lemma log_caught (A : Type) source msg (e : Error) w :
  bind (log source ERROR msg [("error"%string, LError e)])
    (fun _ => throw e) w
  = (Threw (rethrown e) : Outcome A,
     record [Logged source ERROR msg [("error"%string, LError e)]] w).
Proof.
  unfold bind, log, throw, rethrown, context_refusal. simpl.
  replace (3 <? LOG_LEVEL_PRIORITY (logLevel w))%Z with false
    by (symmetry; apply Z.ltb_ge; destruct (logLevel w); simpl; lia).
  by destruct (asJSON e).
Qed.

Lemma validateAttendees_plain (l : list Attendee) e :
  validateAttendees l = Threw e -> rethrown e = e.
Proof.
  induction l as [|a l IH]; simpl; [discriminate|].
  destruct (_ || _); [|exact IH]. by intros [= <-].
Qed.

Lemma validateMeetingRequest_plain request e :
  validateMeetingRequest parseDate request = Threw e -> rethrown e = e.
Proof.
  unfold validateMeetingRequest, validateRange, and_then, throw_if.
  repeat match goal with
         | |- context [if ?c then _ else _] => destruct c
         | |- context [validateAttendees ?l] =>
             let H := fresh in
             destruct (validateAttendees l) eqn:H;
             [|intros [= <-]; by eapply validateAttendees_plain]
         | |- context [match ?o with Some _ => _ | None => _ end] =>
             destruct o
         end; try discriminate; by intros [= <-].
Qed.

Lemma validateTimeWindow_plain (slot : TimeWindow) e :
  validateTimeWindow parseDate slot = Threw e -> rethrown e = e.
Proof.
  unfold validateTimeWindow, and_then, throw_if.
  repeat match goal with
         | |- context [if ?c then _ else _] => destruct c
         end; try discriminate; by intros [= <-].
Qed.

(** ** Runs of the two methods *)

Ltac run :=
  unfold proposeSlots, confirmSlot, call_propose, call_book,
    emit, try_catch, lift, deref, ret;
  unfold bind at 1 2; simpl.

Ltac plain_context :=
  unfold context_refusal; cbn [value_refusal];
  rewrite ?LOptNumber_plain; reflexivity.

Ltac logs := repeat (rewrite log_plain by plain_context; cbn beta iota).

Lemma proposeSlots_invalid this r w request e :
  heap w !! r = Some request ->
  validateMeetingRequest parseDate request = Threw e ->
  proposeSlots parseDate this r w
  = (Threw e, record [proposing_log this request; propose_failed_log e] w).
Proof.
  intros Hr Hv. run. rewrite Hr. logs.
  unfold bind at 1. cbn beta. rewrite heap_record, Hr.
  unfold bind at 1. cbn beta. rewrite Hv.
  rewrite log_caught, record_record.
  by rewrite (validateMeetingRequest_plain _ _ Hv).
Qed.

Lemma proposeSlots_valid this r w request :
  heap w !! r = Some request ->
  validateMeetingRequest parseDate request = Returned tt ->
  proposeSlots parseDate this r w
  = after_propose this
      (propose (engine this) (enhanced_ref w)
         (propose_world this r request w)).
Proof.
  intros Hr Hv. destruct (heap_object _ _ _ Hr) as (o & Ho & _).
  run. rewrite Hr. logs.
  unfold bind at 1. cbn beta. rewrite heap_record, Hr.
  unfold bind at 1. cbn beta. rewrite Hv.
  unfold bind at 1. unfold propose_world, proposing_log.
  rewrite (enhanceRequest_object r (record _ w) o Ho).
  change (enhanced_ref (record _ w)) with (enhanced_ref w).
  unfold bind at 1 2. cbn beta iota. cbn [snd]. unfold getEngineType.
  destruct (propose _ _ _) as [[ps|e] w']; cbn [after_propose].
  - unfold bind at 1. by logs.
  - by rewrite log_caught.
Qed.

Lemma confirmSlot_invalid_request this r chosenSlot w request e :
  heap w !! r = Some request ->
  validateMeetingRequest parseDate request = Threw e ->
  confirmSlot parseDate this r chosenSlot w
  = (Threw e,
     record [confirming_log this request chosenSlot; confirm_failed_log e] w).
Proof.
  intros Hr Hv. run. rewrite Hr. logs.
  unfold bind at 1. cbn beta. rewrite heap_record, Hr.
  unfold bind at 1. cbn beta. rewrite Hv.
  rewrite log_caught, record_record.
  by rewrite (validateMeetingRequest_plain _ _ Hv).
Qed.

Lemma confirmSlot_invalid_slot this r chosenSlot w request e :
  heap w !! r = Some request ->
  validateMeetingRequest parseDate request = Returned tt ->
  validateTimeWindow parseDate chosenSlot = Threw e ->
  confirmSlot parseDate this r chosenSlot w
  = (Threw e,
     record [confirming_log this request chosenSlot; confirm_failed_log e] w).
Proof.
  intros Hr Hv Hs. run. rewrite Hr. logs.
  unfold bind at 1. cbn beta. rewrite heap_record, Hr.
  unfold bind at 1. cbn beta. rewrite Hv.
  unfold bind at 1. cbn beta. rewrite Hs.
  rewrite log_caught, record_record.
  by rewrite (validateTimeWindow_plain _ _ Hs).
Qed.

Lemma confirmSlot_valid this r chosenSlot w request :
  heap w !! r = Some request ->
  validateMeetingRequest parseDate request = Returned tt ->
  validateTimeWindow parseDate chosenSlot = Returned tt ->
  confirmSlot parseDate this r chosenSlot w
  = after_book this r chosenSlot
      (book (engine this) (enhanced_ref w) chosenSlot
         (book_world this r request chosenSlot w)).
Proof.
  intros Hr Hv Hs. destruct (heap_object _ _ _ Hr) as (o & Ho & _).
  run. rewrite Hr. logs.
  unfold bind at 1. cbn beta. rewrite heap_record, Hr.
  unfold bind at 1. cbn beta. rewrite Hv.
  unfold bind at 1. cbn beta. rewrite Hs.
  unfold bind at 1. unfold book_world, confirming_log.
  rewrite (enhanceRequest_object r (record _ w) o Ho).
  change (enhanced_ref (record _ w)) with (enhanced_ref w).
  unfold bind at 1 2. cbn beta iota. cbn [snd]. unfold getEngineType.
  destruct (book _ _ _ _) as [[res|e] w']; cbn [after_book].
  - unfold bind at 1. cbn beta.
    destruct (heap w' !! r) as [request'|].
    + unfold bind at 1. by logs.
    + by rewrite log_caught.
  - by rewrite log_caught.
Qed.

(** ** The validation against the list of checks *)

Lemma includes_at_nil : includes [] (lit "@") = false.
Proof. reflexivity. Qed.

Lemma email_condition (a : Attendee) :
  negb (truthy_string (email a)) || negb (includes (email a) (lit "@"))
  = negb (includes (email a) (lit "@")).
Proof. destruct (email a) as [|c s]; [reflexivity|]. reflexivity. Qed.

Lemma validateAttendees_spec (l : list Attendee) :
  validateAttendees l
  = if forallb (fun a => includes (email a) (lit "@")) l
    then Returned tt
    else Threw (new_Error (lit "Invalid email address for attendee: "
                           ++ offending_email l)).
Proof.
  induction l as [|a l IH]; [reflexivity|].
  cbn [validateAttendees forallb]. rewrite email_condition.
  unfold offending_email. cbn [List.find].
  destruct (includes (email a) (lit "@")); cbn [negb andb]; [|reflexivity].
  exact IH.
Qed.

Lemma subject_condition (s : jsstring) :
  negb (truthy_string s) || Nat.eqb (length (trim s)) 0
  = Nat.eqb (length (trim s)) 0.
Proof. destruct s; reflexivity. Qed.

Lemma duration_condition (range : MeetingRequest -> bool) request :
  duration_set request = true ->
  truthy_opt_number (durationMinutes request)
  && opt_num_le (durationMinutes request) zero
  = negb (passes range DurationCheck request).
Proof.
  unfold duration_set, passes. destruct (durationMinutes request) as [d|];
    [|reflexivity].
  destruct d as [s|s| |s m e]; cbn; try discriminate; intros _;
    destruct s; reflexivity.
Qed.

Lemma validateRange_spec request :
  validateRange parseDate request
  = throw_if (negb (range_of_dates parseDate request))
      (new_Error (lit "Earliest time must be before latest time")).
Proof.
  unfold validateRange, range_of_dates.
  destruct (earliestISO request) as [e|], (latestISO request) as [l|];
    try reflexivity.
  destruct (truthy_string e && truthy_string l); [|reflexivity].
  unfold date_ge. destruct (parseDate e) as [a|], (parseDate l) as [b|];
    try reflexivity.
  rewrite Z.ltb_antisym, negb_involutive. reflexivity.
Qed.

(** The guard of the duration check throws on the negative numbers and
    on nothing else. *)
Lemma duration_guard (o : option number) :
  truthy_opt_number o && opt_num_le o zero = true
  <-> exists d, o = Some d /\ num_lt d zero = true.
Proof.
  split.
  - destruct o as [d|]; [|discriminate]. intros H. exists d.
    split; [reflexivity|].
    destruct d as [s|s| |s m e]; cbn in *; try discriminate;
      destruct s; cbn in *; congruence.
  - intros (d & -> & H).
    destruct d as [s|s| |s m e]; cbn in *; try discriminate;
      destruct s; cbn in *; congruence.
Qed.

Lemma duration_guard_positive (range : MeetingRequest -> bool) request :
  passes range DurationCheck request = true ->
  truthy_opt_number (durationMinutes request)
  && opt_num_le (durationMinutes request) zero = false.
Proof.
  unfold passes. destruct (durationMinutes request) as [d|]; [|reflexivity].
  destruct d as [s|s| |s m e]; cbn; try reflexivity; destruct s; cbn;
    congruence.
Qed.

(** The code against the list of checks: they agree on every request,
    save where the duration check is the first to fail on a duration of
    zero or NaN. *)
Lemma validateMeetingRequest_refines request :
  (first_failing (range_of_dates parseDate) request = Some DurationCheck ->
   duration_set request = true) ->
  validateMeetingRequest parseDate request
  = match first_failing (range_of_dates parseDate) request with
    | Some c => Threw (error_of c request)
    | None => Returned tt
    end.
Proof.
  intros Hd. unfold validateMeetingRequest.
  rewrite subject_condition, validateAttendees_spec, validateRange_spec.
  unfold first_failing, check_order in *.
  cbn [List.find] in *.
  change (passes (range_of_dates parseDate) SubjectCheck request)
    with (negb (Nat.eqb (length (trim (subject request))) 0)) in *.
  change (passes (range_of_dates parseDate) AttendeesCheck request)
    with (negb (Nat.eqb (length (attendees request)) 0)) in *.
  change (passes (range_of_dates parseDate) EmailCheck request)
    with (forallb (fun a => includes (email a) (lit "@"))
            (attendees request)) in *.
  change (passes (range_of_dates parseDate) RangeCheck request)
    with (range_of_dates parseDate request) in *.
  destruct (Nat.eqb (length (trim (subject request))) 0); [reflexivity|].
  destruct (Nat.eqb (length (attendees request)) 0); [reflexivity|].
  destruct (forallb _ (attendees request)); [|reflexivity].
  cbn [negb throw_if and_then] in *.
  destruct (passes (range_of_dates parseDate) DurationCheck request) eqn:Hp;
    cbn [negb] in *.
  - rewrite (duration_guard_positive _ request Hp). cbn [throw_if and_then].
    destruct (range_of_dates parseDate request); reflexivity.
  - rewrite (duration_condition (range_of_dates parseDate) request
               (Hd eq_refl)), Hp.
    reflexivity.
Qed.

(** C1 (as amended).  [proposeSlots] and [confirmSlot] apply the checks
    in the order of the list: subject not blank after trimming, at least
    one attendee, an ['@'] in every attendee email, a positive duration
    when one is given, earliest strictly before latest when both bounds
    are non-empty strings that parse as dates (a bound that is empty or
    is no date passes).  The first check that fails decides the error,
    and the call throws it having written log records only: no engine
    call is made, the store and the backends are untouched.  Nothing is
    said of the case where the first failing check is the one of the
    duration and the duration is zero or NaN. *)
Theorem C1_first_failing_check_raises_before_engine
    this r chosenSlot w request c :
  heap w !! r = Some request ->
  first_failing (range_of_dates parseDate) request = Some c ->
  (c = DurationCheck -> duration_set request = true) ->
  raised_before_engine (error_of c request) w (proposeSlots parseDate this r w)
  /\ raised_before_engine (error_of c request) w
       (confirmSlot parseDate this r chosenSlot w).
Proof.
  intros Hr Hc Hd.
  assert (Hv : validateMeetingRequest parseDate request
               = Threw (error_of c request)).
  { rewrite validateMeetingRequest_refines; [by rewrite Hc|].
    intros Hc'. apply Hd. congruence. }
  erewrite proposeSlots_invalid, confirmSlot_invalid_request by eassumption.
  split; (split; [reflexivity|]); eexists; (split; [reflexivity|]);
    reflexivity.
Qed.

(** ** Construction and the two engines of the repository *)

Lemma strict_eq_opt_true (v : option jsstring) (s : jsstring) :
  strict_eq_opt v s = true <-> v = Some s.
Proof.
  unfold strict_eq_opt. destruct v as [s'|]; [|by split].
  rewrite bool_decide_eq_true. split; congruence.
Qed.

Lemma new_SchedulingService_engine w :
  fst (new_SchedulingService w)
  = Returned {| engine := if strict_eq_opt (ENABLE_SIDEKICK w) (lit "true")
                          then SidekickEngine else GoogleCalendarEngine |}.
Proof.
  destruct w as [tr ob ar di env lv ext].
  unfold new_SchedulingService, createEngine, getenv_ENABLE_SIDEKICK,
    new_SidekickEngine, new_GoogleCalendarEngine, log, emit, bind, ret.
  simpl. destruct (strict_eq_opt env (lit "true")), lv; reflexivity.
Qed.

Lemma new_SchedulingService_trace w :
  exists evs, added_events w (snd (new_SchedulingService w)) evs
              /\ env_reads evs = [EnvRead "ENABLE_SIDEKICK"].
Proof.
  destruct w as [tr ob ar di env lv ext].
  unfold new_SchedulingService, createEngine, getenv_ENABLE_SIDEKICK,
    new_SidekickEngine, new_GoogleCalendarEngine, log, emit, bind, ret,
    added_events.
  simpl. destruct (strict_eq_opt env (lit "true")), lv; simpl;
    repeat rewrite <- app_assoc; simpl; eexists; (split; [reflexivity|]);
    reflexivity.
Qed.

Lemma shipped_propose (e : SchedulingEngine Ext) r w obj :
  shipped_engine e -> heap w !! r = Some obj ->
  exists logs, propose e r w = (Returned [], record logs w)
               /\ engine_calls logs = [] /\ env_reads logs = [].
Proof.
  intros [-> | ->] Hr; cbn [propose SidekickEngine GoogleCalendarEngine];
    unfold bind at 1, deref; rewrite Hr; unfold bind, ret; logs;
    rewrite record_record; eexists; (split; [reflexivity|]); by split.
Qed.

Lemma shipped_book (e : SchedulingEngine Ext) r chosen w obj :
  shipped_engine e -> heap w !! r = Some obj ->
  exists logs, book e r chosen w
               = (Returned {| eventId := lit "TBD" |}, record logs w)
               /\ engine_calls logs = [] /\ env_reads logs = [].
Proof.
  intros [-> | ->] Hr; cbn [book SidekickEngine GoogleCalendarEngine];
    unfold bind at 1, deref; rewrite Hr; unfold bind, ret; logs;
    rewrite record_record; eexists; (split; [reflexivity|]); by split.
Qed.

(** The world in which the engine starts, for a request that is in the
    store. *)
Lemma propose_world_run this r request w (o : RequestObject) :
  objects w !! r = Some o ->
  propose_world this r request w
  = record [Invoked (getEngineType this) (Propose (enhanced_ref w))]
      (store (enhanced_ref w) (enhanced_object o)
         (record [proposing_log this request] w)).
Proof.
  intros Ho. unfold propose_world.
  by rewrite (enhanceRequest_object r (record _ w) o Ho).
Qed.

Lemma book_world_run this r request chosen w (o : RequestObject) :
  objects w !! r = Some o ->
  book_world this r request chosen w
  = record [Invoked (getEngineType this) (Book (enhanced_ref w) chosen)]
      (store (enhanced_ref w) (enhanced_object o)
         (record [confirming_log this request chosen] w)).
Proof.
  intros Ho. unfold book_world.
  by rewrite (enhanceRequest_object r (record _ w) o Ho).
Qed.

Lemma propose_world_enhanced this r request w :
  heap w !! r = Some request ->
  heap (propose_world this r request w) !! enhanced_ref w
  = Some (enhanced request).
Proof.
  intros Hr. destruct (heap_object _ _ _ Hr) as (o & Ho & Hq).
  rewrite (propose_world_run _ _ _ _ _ Ho), heap_record.
  exact (heap_store_enhanced (record _ w) o request Hq).
Qed.

Lemma book_world_enhanced this r request chosen w :
  heap w !! r = Some request ->
  heap (book_world this r request chosen w) !! enhanced_ref w
  = Some (enhanced request).
Proof.
  intros Hr. destruct (heap_object _ _ _ Hr) as (o & Ho & Hq).
  rewrite (book_world_run _ _ _ _ _ _ Ho), heap_record.
  exact (heap_store_enhanced (record _ w) o request Hq).
Qed.

Lemma propose_world_original this r request w r0 obj :
  heap w !! r = Some request ->
  heap w !! r0 = Some obj ->
  heap (propose_world this r request w) !! r0 = Some obj.
Proof.
  intros Hr Hr0. destruct (heap_object _ _ _ Hr) as (o & Ho & _).
  rewrite (propose_world_run _ _ _ _ _ Ho), heap_record.
  rewrite <- Hr0.
  apply (heap_store_other (record _ w) o r0).
  by eapply fresh_ref_other.
Qed.

Lemma book_world_original this r request chosen w r0 obj :
  heap w !! r = Some request ->
  heap w !! r0 = Some obj ->
  heap (book_world this r request chosen w) !! r0 = Some obj.
Proof.
  intros Hr Hr0. destruct (heap_object _ _ _ Hr) as (o & Ho & _).
  rewrite (book_world_run _ _ _ _ _ _ Ho), heap_record.
  rewrite <- Hr0.
  apply (heap_store_other (record _ w) o r0).
  by eapply fresh_ref_other.
Qed.


Lemma engine_calls_app (a b : list Event) :
  engine_calls (a ++ b) = engine_calls a ++ engine_calls b.
Proof. apply List.filter_app. Qed.

Lemma env_reads_app (a b : list Event) :
  env_reads (a ++ b) = env_reads a ++ env_reads b.
Proof. apply List.filter_app. Qed.

Lemma shipped_proposeSlots_events this r w :
  shipped_engine (engine this) ->
  exists evs,
    added_events w (snd (proposeSlots parseDate this r w)) evs
    /\ env_reads evs = []
    /\ Forall (is_call_on (getEngineType this)) (engine_calls evs).
Proof.
  intros Hs. unfold added_events. destruct (heap w !! r) as [request|] eqn:Hr.
  - destruct (validateMeetingRequest parseDate request) as [[]|e] eqn:Hv.
    + erewrite proposeSlots_valid by eassumption.
      destruct (shipped_propose (engine this) (enhanced_ref w)
                  (propose_world this r request w) (enhanced request) Hs
                  (propose_world_enhanced this r request w Hr))
        as (logs & -> & Hc & He).
      destruct (heap_object _ _ _ Hr) as (o & Ho & _).
      rewrite (propose_world_run _ _ _ _ _ Ho).
      unfold after_propose. cbn [snd record store trace].
      rewrite <- !app_assoc. eexists. split; [reflexivity|].
      rewrite !env_reads_app, !engine_calls_app, Hc, He. simpl.
      split; [reflexivity|]. repeat constructor.
    + erewrite proposeSlots_invalid by eassumption. simpl.
      eexists. split; [reflexivity|]. split; [reflexivity|]. constructor.
  - unfold proposeSlots, bind, deref. rewrite Hr. cbn [snd].
    exists []. rewrite app_nil_r. repeat split. constructor.
Qed.

Lemma shipped_confirmSlot_events this r chosenSlot w :
  shipped_engine (engine this) ->
  exists evs,
    added_events w (snd (confirmSlot parseDate this r chosenSlot w)) evs
    /\ env_reads evs = []
    /\ Forall (is_call_on (getEngineType this)) (engine_calls evs).
Proof.
  intros Hs. unfold added_events. destruct (heap w !! r) as [request|] eqn:Hr.
  - destruct (validateMeetingRequest parseDate request) as [[]|e] eqn:Hv.
    + destruct (validateTimeWindow parseDate chosenSlot) as [[]|e] eqn:Ht.
      * erewrite confirmSlot_valid by eassumption.
        destruct (shipped_book (engine this) (enhanced_ref w) chosenSlot
                    (book_world this r request chosenSlot w) (enhanced request)
                    Hs
                    (book_world_enhanced this r request chosenSlot w Hr))
          as (logs & -> & Hc & He).
        unfold after_book. rewrite heap_record.
        rewrite (book_world_original this r request chosenSlot w r request
                   Hr Hr).
        destruct (heap_object _ _ _ Hr) as (o & Ho & _).
        rewrite (book_world_run _ _ _ _ _ _ Ho).
        cbn [snd record store trace].
        rewrite <- !app_assoc. eexists. split; [reflexivity|].
        rewrite !env_reads_app, !engine_calls_app, Hc, He. simpl.
        split; [reflexivity|]. repeat constructor.
      * erewrite confirmSlot_invalid_slot by eassumption. simpl.
        eexists. split; [reflexivity|]. split; [reflexivity|]. constructor.
    + erewrite confirmSlot_invalid_request by eassumption. simpl.
      eexists. split; [reflexivity|]. split; [reflexivity|]. constructor.
  - unfold confirmSlot, bind, deref. rewrite Hr. cbn [snd].
    exists []. rewrite app_nil_r. repeat split. constructor.
Qed.


Lemma heap_setenv v w : heap (setenv v w) = heap w.
Proof. reflexivity. Qed.

Lemma log_setenv source level msg context v w :
  log source level msg context (setenv v w)
  = (fst (log source level msg context w),
     setenv v (snd (log source level msg context w))).
Proof.
  unfold log. cbn [logLevel setenv].
  destruct (_ <? _)%Z; [reflexivity|].
  destruct (context_refusal context); reflexivity.
Qed.

Lemma deref_setenv r v w :
  deref r (setenv v w) = (fst (deref r w), setenv v (snd (deref r w))).
Proof.
  unfold deref. rewrite heap_setenv. by destruct (heap w !! r).
Qed.

Lemma bind_setenv (A B : Type) (m : M Ext A) (k : A -> M Ext B) v w :
  m (setenv v w) = (fst (m w), setenv v (snd (m w))) ->
  (forall a w', k a (setenv v w')
                = (fst (k a w'), setenv v (snd (k a w')))) ->
  bind m k (setenv v w) = (fst (bind m k w), setenv v (snd (bind m k w))).
Proof.
  intros Hm Hk. unfold bind. rewrite Hm.
  destruct (m w) as [[a|e] w']; cbn [fst snd]; [apply Hk|reflexivity].
Qed.

Lemma shipped_propose_setenv (e : SchedulingEngine Ext) r w v :
  shipped_engine e ->
  propose e r (setenv v w)
  = (fst (propose e r w), setenv v (snd (propose e r w))).
Proof.
  intros [-> | ->]; cbn [propose SidekickEngine GoogleCalendarEngine];
    repeat (apply bind_setenv; [|intros]);
    first [apply log_setenv | apply deref_setenv | reflexivity].
Qed.

Lemma shipped_book_setenv (e : SchedulingEngine Ext) r chosen w v :
  shipped_engine e ->
  book e r chosen (setenv v w)
  = (fst (book e r chosen w), setenv v (snd (book e r chosen w))).
Proof.
  intros [-> | ->]; cbn [book SidekickEngine GoogleCalendarEngine];
    repeat (apply bind_setenv; [|intros]);
    first [apply log_setenv | apply deref_setenv | reflexivity].
Qed.

Lemma shipped_proposeSlots_setenv this r w v :
  shipped_engine (engine this) ->
  proposeSlots parseDate this r (setenv v w)
  = (fst (proposeSlots parseDate this r w),
     setenv v (snd (proposeSlots parseDate this r w))).
Proof.
  intros Hs. destruct (heap w !! r) as [request|] eqn:Hr.
  - assert (Hr' : heap (setenv v w) !! r = Some request) by exact Hr.
    destruct (validateMeetingRequest parseDate request) as [[]|e] eqn:Hv.
    + rewrite (proposeSlots_valid this r (setenv v w) request Hr' Hv),
        (proposeSlots_valid this r w request Hr Hv).
      destruct (heap_object _ _ _ Hr) as (o & Ho & _).
      rewrite (propose_world_run this r request (setenv v w) o Ho),
        (propose_world_run this r request w o Ho).
      change (enhanced_ref (setenv v w)) with (enhanced_ref w).
      change (record ?a (store ?b ?c (record ?d (setenv v w))))
        with (setenv v (record a (store b c (record d w)))).
      rewrite shipped_propose_setenv by exact Hs.
      destruct (propose _ _ _) as [[ps|e] w']; reflexivity.
    + rewrite (proposeSlots_invalid this r (setenv v w) request e Hr' Hv),
        (proposeSlots_invalid this r w request e Hr Hv).
      reflexivity.
  - unfold proposeSlots, bind, deref. rewrite heap_setenv, Hr.
    reflexivity.
Qed.

Lemma shipped_confirmSlot_setenv this r chosenSlot w v :
  shipped_engine (engine this) ->
  confirmSlot parseDate this r chosenSlot (setenv v w)
  = (fst (confirmSlot parseDate this r chosenSlot w),
     setenv v (snd (confirmSlot parseDate this r chosenSlot w))).
Proof.
  intros Hs. destruct (heap w !! r) as [request|] eqn:Hr.
  - assert (Hr' : heap (setenv v w) !! r = Some request) by exact Hr.
    destruct (validateMeetingRequest parseDate request) as [[]|e] eqn:Hv.
    + destruct (validateTimeWindow parseDate chosenSlot) as [[]|e] eqn:Ht.
      * rewrite (confirmSlot_valid this r chosenSlot (setenv v w)
                   request Hr' Hv Ht),
          (confirmSlot_valid this r chosenSlot w request Hr Hv Ht).
        destruct (heap_object _ _ _ Hr) as (o & Ho & _).
        rewrite (book_world_run this r request chosenSlot (setenv v w) o Ho),
          (book_world_run this r request chosenSlot w o Ho).
        change (enhanced_ref (setenv v w)) with (enhanced_ref w).
        change (record ?a (store ?b ?c (record ?d (setenv v w))))
          with (setenv v (record a (store b c (record d w)))).
        rewrite shipped_book_setenv by exact Hs.
        destruct (book _ _ _ _) as [[res|e] w']; [|reflexivity].
        unfold after_book. cbn [fst snd]. rewrite heap_setenv.
        destruct (heap w' !! r); reflexivity.
      * rewrite (confirmSlot_invalid_slot this r chosenSlot
                   (setenv v w) request e Hr' Hv Ht),
          (confirmSlot_invalid_slot this r chosenSlot w request e
             Hr Hv Ht).
        reflexivity.
    + rewrite (confirmSlot_invalid_request this r chosenSlot
                 (setenv v w) request e Hr' Hv),
        (confirmSlot_invalid_request this r chosenSlot w request e
           Hr Hv).
      reflexivity.
  - unfold confirmSlot, bind, deref. rewrite heap_setenv, Hr.
    reflexivity.
Qed.

(** C3.  The constructor reads [ENABLE_SIDEKICK] once: the value
    ["true"] yields a service over [SidekickEngine], every other value
    (absent or ["false"] included) one over [GoogleCalendarEngine]; two
    constructions under the same value yield the same service.  The
    methods of the service so built never read the variable again: each
    engine call they make goes to the engine chosen at construction, and
    changing the variable afterwards changes neither their outcome nor
    what they leave behind. *)
Theorem C3_engine_resolved_once_at_construction w :
  (ENABLE_SIDEKICK w = Some (lit "true") ->
   fst (new_SchedulingService w) = Returned {| engine := SidekickEngine |})
  /\ (ENABLE_SIDEKICK w <> Some (lit "true") ->
      fst (new_SchedulingService w)
      = Returned {| engine := GoogleCalendarEngine |})
  /\ (forall w2 : World Ext,
        ENABLE_SIDEKICK w2 = ENABLE_SIDEKICK w ->
        fst (new_SchedulingService w2) = fst (new_SchedulingService w))
  /\ (exists evs,
        added_events w (snd (new_SchedulingService w)) evs
        /\ env_reads evs = [EnvRead "ENABLE_SIDEKICK"])
  /\ (forall this,
        fst (new_SchedulingService w) = Returned this ->
        forall (w' : World Ext) r chosenSlot v,
          (exists evs,
             added_events w' (snd (proposeSlots parseDate this r w')) evs
             /\ env_reads evs = []
             /\ Forall (is_call_on (getEngineType this)) (engine_calls evs))
          /\ (exists evs,
                added_events w'
                  (snd (confirmSlot parseDate this r chosenSlot w')) evs
                /\ env_reads evs = []
                /\ Forall (is_call_on (getEngineType this))
                     (engine_calls evs))
          /\ proposeSlots parseDate this r (setenv v w')
             = (fst (proposeSlots parseDate this r w'),
                setenv v (snd (proposeSlots parseDate this r w')))
          /\ confirmSlot parseDate this r chosenSlot (setenv v w')
             = (fst (confirmSlot parseDate this r chosenSlot w'),
                setenv v (snd (confirmSlot parseDate this r chosenSlot w')))).
Proof.
  split; [|split; [|split; [|split]]].
  - intros He. rewrite new_SchedulingService_engine.
    apply strict_eq_opt_true in He. rewrite He. reflexivity.
  - intros He. rewrite new_SchedulingService_engine.
    destruct (strict_eq_opt (ENABLE_SIDEKICK w) (lit "true")) eqn:E;
      [|reflexivity].
    apply strict_eq_opt_true in E. contradiction.
  - intros w2 He. rewrite !new_SchedulingService_engine, He. reflexivity.
  - apply new_SchedulingService_trace.
  - intros this Hthis w' r chosenSlot v.
    assert (Hs : shipped_engine (engine this)).
    { rewrite new_SchedulingService_engine in Hthis.
      injection Hthis as <-. simpl.
      destruct (strict_eq_opt _ _); [left|right]; reflexivity. }
    split; [|split; [|split]].
    + by apply shipped_proposeSlots_events.
    + by apply shipped_confirmSlot_events.
    + by apply shipped_proposeSlots_setenv.
    + by apply shipped_confirmSlot_setenv.
Qed.


(** ** Enhancement and delegation *)

Lemma positive_truthy (d : number) :
  positive_number d = true -> truthy_number d = true.
Proof. destruct d as [s|s| |s m e]; cbn; congruence. Qed.


Lemma and_then_returned (a b : Outcome unit) :
  a >> b = Returned tt -> a = Returned tt /\ b = Returned tt.
Proof. destruct a as [[]|e]; cbn; [by split|discriminate]. Qed.




(** C4.  For a request that passes validation, [proposeSlots] and
    [confirmSlot] (given a valid slot) hand the engine a reference to the
    enhanced request.  Its [durationMinutes] is the caller's value when
    that value is positive, and [Policies.scheduling.defaultDurationMinutes],
    which is 45, when the caller gave none; every other field is the
    caller's. *)
Theorem C4_enhanced_request_carries_duration
    this r chosenSlot w request :
  heap w !! r = Some request ->
  validateMeetingRequest parseDate request = Returned tt ->
  (proposeSlots parseDate this r w
   = after_propose this
       (propose (engine this) (enhanced_ref w)
          (propose_world this r request w))
   /\ heap (propose_world this r request w) !! enhanced_ref w
      = Some (enhanced request))
  /\ (validateTimeWindow parseDate chosenSlot = Returned tt ->
      confirmSlot parseDate this r chosenSlot w
      = after_book this r chosenSlot
          (book (engine this) (enhanced_ref w) chosenSlot
             (book_world this r request chosenSlot w))
      /\ heap (book_world this r request chosenSlot w) !! enhanced_ref w
         = Some (enhanced request))
  /\ (forall d, durationMinutes request = Some d ->
                positive_number d = true ->
                durationMinutes (enhanced request) = Some d)
  /\ (durationMinutes request = None ->
      durationMinutes (enhanced request)
      = Some (defaultDurationMinutes (scheduling Policies)))
  /\ defaultDurationMinutes (scheduling Policies) = num_of_Z 45
  /\ subject (enhanced request) = subject request
  /\ attendees (enhanced request) = attendees request
  /\ earliestISO (enhanced request) = earliestISO request
  /\ latestISO (enhanced request) = latestISO request
  /\ constraints (enhanced request) = constraints request.
Proof.
  intros Hr Hv. split; [|split; [|split; [|split]]].
  - split; [by apply proposeSlots_valid|by apply propose_world_enhanced].
  - intros Ht.
    split; [by apply confirmSlot_valid|by apply book_world_enhanced].
  - intros d Hd Hp. unfold enhanced. cbn. rewrite Hd. cbn.
    by rewrite (positive_truthy d Hp).
  - intros Hd. unfold enhanced. cbn. by rewrite Hd.
  - repeat split.
Qed.

(** C6.  For a request that passes validation, [confirmSlot] on a slot
    whose start or end is no date throws the error "Invalid time slot
    format"; on a slot whose two ends are dates with the start not before
    the end it throws "Meeting start time must be before end time" (the
    two [InvalidSlot] failures of the specification).  In both cases
    [engine.book] is not called. *)
Theorem C6_slot_checked_before_booking this r chosenSlot w request :
  heap w !! r = Some request ->
  validateMeetingRequest parseDate request = Returned tt ->
  (parseDate (startISO chosenSlot) = None
   \/ parseDate (endISO chosenSlot) = None ->
   raised_before_engine (new_Error (lit "Invalid time slot format")) w
     (confirmSlot parseDate this r chosenSlot w))
  /\ (forall a b,
        parseDate (startISO chosenSlot) = Some a ->
        parseDate (endISO chosenSlot) = Some b ->
        (b <= a)%Z ->
        raised_before_engine
          (new_Error (lit "Meeting start time must be before end time")) w
          (confirmSlot parseDate this r chosenSlot w)).
Proof.
  intros Hr Hv. split.
  - intros Hnan.
    assert (Ht : validateTimeWindow parseDate chosenSlot
                 = Threw (new_Error (lit "Invalid time slot format"))).
    { unfold validateTimeWindow.
      destruct Hnan as [-> | ->]; cbn;
        [|destruct (parseDate (startISO chosenSlot))]; reflexivity. }
    erewrite confirmSlot_invalid_slot by eassumption.
    split; [reflexivity|]. eexists. split; reflexivity.
  - intros a b Ha Hb Hab.
    assert (Ht : validateTimeWindow parseDate chosenSlot
                 = Threw (new_Error
                            (lit "Meeting start time must be before end time"))).
    { unfold validateTimeWindow. rewrite Ha, Hb. cbn.
      apply Z.leb_le in Hab. rewrite Hab. reflexivity. }
    erewrite confirmSlot_invalid_slot by eassumption.
    split; [reflexivity|]. eexists. split; reflexivity.
Qed.


(** C7.  For a valid request and a valid slot, [confirmSlot] returns the
    very [BookingResult] that [engine.book] returned (the caller's object
    being still in the store for the closing log record, as an object
    that is referred to always is), and returns nothing that the engine
    did not return.  With either engine of the repository the result is
    [{ eventId: 'TBD' }], whose [eventId] is not empty. *)
Theorem C7_booking_result_returned_unchanged
    this r chosenSlot w request :
  heap w !! r = Some request ->
  validateMeetingRequest parseDate request = Returned tt ->
  validateTimeWindow parseDate chosenSlot = Returned tt ->
  (forall result w',
     book (engine this) (enhanced_ref w) chosenSlot
       (book_world this r request chosenSlot w)
     = (Returned result, w') ->
     is_Some (heap w' !! r) ->
     fst (confirmSlot parseDate this r chosenSlot w) = Returned result)
  /\ (forall result,
        fst (confirmSlot parseDate this r chosenSlot w) = Returned result ->
        fst (book (engine this) (enhanced_ref w) chosenSlot
               (book_world this r request chosenSlot w))
        = Returned result)
  /\ (shipped_engine (engine this) ->
      exists result,
        fst (confirmSlot parseDate this r chosenSlot w) = Returned result
        /\ eventId result = lit "TBD"
        /\ eventId result <> []).
Proof.
  intros Hr Hv Ht. erewrite confirmSlot_valid by eassumption.
  split; [|split].
  - intros result w' Hb [request' Hr']. rewrite Hb. unfold after_book.
    rewrite Hr'. reflexivity.
  - intros result. destruct (book _ _ _ _) as [[res|e] w'];
      unfold after_book; [destruct (heap w' !! r)|]; cbn; congruence.
  - intros Hs.
    destruct (shipped_book (engine this) (enhanced_ref w) chosenSlot
                (book_world this r request chosenSlot w) (enhanced request)
                Hs (book_world_enhanced this r request chosenSlot w Hr))
      as (logs & -> & _).
    unfold after_book. rewrite heap_record.
    rewrite (book_world_original this r request chosenSlot w r request
               Hr Hr).
    eexists. split; [reflexivity|]. split; [reflexivity|discriminate].
Qed.

(** ** The store *)

Lemma shipped_propose_store (e : SchedulingEngine Ext) r w :
  shipped_engine e ->
  objects (snd (propose e r w)) = objects w
  /\ arrays (snd (propose e r w)) = arrays w
  /\ dictionaries (snd (propose e r w)) = dictionaries w.
Proof.
  intros [-> | ->]; cbn [propose SidekickEngine GoogleCalendarEngine];
    unfold bind, deref, ret;
    (destruct (heap w !! r) as [req|]; [|by repeat split]);
    logs; by repeat split.
Qed.

Lemma shipped_book_store (e : SchedulingEngine Ext) r chosen w :
  shipped_engine e ->
  objects (snd (book e r chosen w)) = objects w
  /\ arrays (snd (book e r chosen w)) = arrays w
  /\ dictionaries (snd (book e r chosen w)) = dictionaries w.
Proof.
  intros [-> | ->]; cbn [book SidekickEngine GoogleCalendarEngine];
    unfold bind, deref, ret;
    (destruct (heap w !! r) as [req|]; [|by repeat split]);
    logs; by repeat split.
Qed.

Lemma shipped_engine_writes_nothing (e : SchedulingEngine Ext) :
  shipped_engine e ->
  writes_through_argument e /\ leaves_shared_parts_alone e.
Proof.
  intros Hs. split; split.
  - intros r w r0 _.
    destruct (shipped_propose_store e r w Hs) as (-> & _). reflexivity.
  - intros r chosen w r0 _.
    destruct (shipped_book_store e r chosen w Hs) as (-> & _). reflexivity.
  - intros r w o _.
    destruct (shipped_propose_store e r w Hs) as (_ & -> & ->). by split.
  - intros r chosen w o _.
    destruct (shipped_book_store e r chosen w Hs) as (_ & -> & ->).
    by split.
Qed.

Lemma read_request_local w w' (o : RequestObject) :
  arrays w' !! attendees_ref o = arrays w !! attendees_ref o ->
  (forall c, constraints_ref o = Some c ->
             dictionaries w' !! c = dictionaries w !! c) ->
  read_request w' o = read_request w o.
Proof.
  intros Ha Hd. unfold read_request. rewrite Ha.
  destruct (arrays w !! attendees_ref o); [|reflexivity].
  destruct (constraints_ref o) as [c|]; [|reflexivity].
  by rewrite (Hd c eq_refl).
Qed.

(** C8.  [enhanceRequest] builds a new object at a reference of its
    own, different from the caller's; it leaves the caller's object and
    what the caller's request reads as what they were, and the new
    object reads as the enhanced request.  The new object holds the very
    array of attendees and the very record of constraints of the
    caller's, which the spread does not copy.  After [proposeSlots] and
    after [confirmSlot] no property of the caller's object has been
    written, [durationMinutes] included, whatever an engine does that
    writes to request objects only through the reference it is handed.
    When the engine moreover leaves alone the array of attendees and the
    record of constraints of the request it is handed, the caller's
    request reads after the call as it read before; so it does with
    every service that the constructor builds. *)
Theorem C8_caller_request_left_unchanged
    this r chosenSlot w request (o : RequestObject) :
  objects w !! r = Some o ->
  read_request w o = Some request ->
  (enhanceRequest r w
   = (Returned (enhanced_ref w),
      store (enhanced_ref w) (enhanced_object o) w)
   /\ enhanced_ref w <> r
   /\ objects (store (enhanced_ref w) (enhanced_object o) w) !! r = Some o
   /\ heap (store (enhanced_ref w) (enhanced_object o) w) !! r
      = Some request
   /\ heap (store (enhanced_ref w) (enhanced_object o) w) !! enhanced_ref w
      = Some (enhanced request))
  /\ (attendees_ref (enhanced_object o) = attendees_ref o
      /\ constraints_ref (enhanced_object o) = constraints_ref o)
  /\ (writes_through_argument (engine this) ->
      objects (snd (proposeSlots parseDate this r w)) !! r = Some o
      /\ objects (snd (confirmSlot parseDate this r chosenSlot w)) !! r
         = Some o)
  /\ (writes_through_argument (engine this) ->
      leaves_shared_parts_alone (engine this) ->
      heap (snd (proposeSlots parseDate this r w)) !! r = Some request
      /\ heap (snd (confirmSlot parseDate this r chosenSlot w)) !! r
         = Some request)
  /\ (forall w0 : World Ext,
        fst (new_SchedulingService w0) = Returned this ->
        heap (snd (proposeSlots parseDate this r w)) !! r = Some request
        /\ heap (snd (confirmSlot parseDate this r chosenSlot w)) !! r
           = Some request).
Proof.
  intros Ho Hq.
  assert (Hr : heap w !! r = Some request)
    by (by rewrite heap_lookup, Ho).
  assert (Hne : r <> enhanced_ref w) by (by eapply fresh_ref_other).
  assert (Hstored : forall (a d : list Event),
            objects (record a (store (enhanced_ref w) (enhanced_object o)
                                 (record d w))) !! r = Some o).
  { intros a d. cbn [objects store record].
    rewrite lookup_insert_ne; [exact Ho|congruence]. }
  assert (Hcopy : forall (a d : list Event),
            objects (record a (store (enhanced_ref w) (enhanced_object o)
                                 (record d w))) !! enhanced_ref w
            = Some (enhanced_object o)).
  { intros a d. cbn [objects store record]. apply lookup_insert_eq. }
  assert (Hread : forall w' : World Ext,
            objects w' !! r = Some o ->
            arrays w' !! attendees_ref o = arrays w !! attendees_ref o ->
            (forall c, constraints_ref o = Some c ->
                       dictionaries w' !! c = dictionaries w !! c) ->
            heap w' !! r = Some request).
  { intros w' Ho' Ha Hd. rewrite heap_lookup, Ho'. cbn [mbind option_bind].
    rewrite <- Hq. by apply read_request_local. }
  assert (Hdeep : writes_through_argument (engine this) ->
            leaves_shared_parts_alone (engine this) ->
            heap (snd (proposeSlots parseDate this r w)) !! r = Some request
            /\ heap (snd (confirmSlot parseDate this r chosenSlot w)) !! r
               = Some request).
  { intros [Hp Hb] [Hsp Hsb]. split.
    - destruct (validateMeetingRequest parseDate request) as [[]|e] eqn:Hv.
      + erewrite proposeSlots_valid by eassumption.
        pose proof (Hp (enhanced_ref w) (propose_world this r request w) r
                      Hne) as H.
        pose proof (Hsp (enhanced_ref w) (propose_world this r request w)
                      (enhanced_object o)) as Hs.
        rewrite (propose_world_run _ _ _ _ _ Ho) in H, Hs |- *.
        rewrite Hstored in H.
        destruct (Hs (Hcopy _ _)) as [Ha Hd].
        destruct (propose _ _ _) as [[ps|e] w']; by apply Hread.
      + erewrite proposeSlots_invalid by eassumption. exact Hr.
    - destruct (validateMeetingRequest parseDate request) as [[]|e] eqn:Hv.
      + destruct (validateTimeWindow parseDate chosenSlot) as [[]|e] eqn:Ht.
        * erewrite confirmSlot_valid by eassumption.
          pose proof (Hb (enhanced_ref w) chosenSlot
                        (book_world this r request chosenSlot w) r Hne)
            as H.
          pose proof (Hsb (enhanced_ref w) chosenSlot
                        (book_world this r request chosenSlot w)
                        (enhanced_object o)) as Hs.
          rewrite (book_world_run _ _ _ _ _ _ Ho) in H, Hs |- *.
          rewrite Hstored in H.
          destruct (Hs (Hcopy _ _)) as [Ha Hd].
          destruct (book _ _ _ _) as [[res|e] w'];
            cbn [after_book]; [destruct (heap w' !! r)|]; by apply Hread.
        * erewrite confirmSlot_invalid_slot by eassumption. exact Hr.
      + erewrite confirmSlot_invalid_request by eassumption. exact Hr. }
  split; [|split; [|split; [|split]]].
  - split; [by apply enhanceRequest_object|].
    split; [congruence|].
    split; [cbn [objects store];
            rewrite lookup_insert_ne; [exact Ho|congruence]|].
    split; [by rewrite heap_store_other|by apply heap_store_enhanced].
  - by split.
  - intros [Hp Hb]. split.
    + destruct (validateMeetingRequest parseDate request) as [[]|e] eqn:Hv.
      * erewrite proposeSlots_valid by eassumption.
        pose proof (Hp (enhanced_ref w) (propose_world this r request w) r
                      Hne) as H.
        rewrite (propose_world_run _ _ _ _ _ Ho) in H |- *.
        rewrite Hstored in H.
        destruct (propose _ _ _) as [[ps|e] w']; exact H.
      * erewrite proposeSlots_invalid by eassumption. exact Ho.
    + destruct (validateMeetingRequest parseDate request) as [[]|e] eqn:Hv.
      * destruct (validateTimeWindow parseDate chosenSlot) as [[]|e] eqn:Ht.
        -- erewrite confirmSlot_valid by eassumption.
           pose proof (Hb (enhanced_ref w) chosenSlot
                         (book_world this r request chosenSlot w) r Hne)
             as H.
           rewrite (book_world_run _ _ _ _ _ _ Ho) in H |- *.
           rewrite Hstored in H.
           destruct (book _ _ _ _) as [[res|e] w'];
             cbn [after_book]; [destruct (heap w' !! r)|]; exact H.
        -- erewrite confirmSlot_invalid_slot by eassumption. exact Ho.
      * erewrite confirmSlot_invalid_request by eassumption. exact Ho.
  - exact Hdeep.
  - intros w0 Hthis.
    assert (Hs : shipped_engine (engine this)).
    { rewrite new_SchedulingService_engine in Hthis.
      injection Hthis as <-. cbn [engine].
      destruct (strict_eq_opt _ _); [left|right]; reflexivity. }
    destruct (shipped_engine_writes_nothing (engine this) Hs) as [Hw Hl].
    by apply Hdeep.
Qed.



(** ** Bounds that are no dates *)

Lemma validateRange_unparseable request e l :
  earliestISO request = Some e ->
  latestISO request = Some l ->
  parseDate e = None \/ parseDate l = None ->
  validateRange parseDate request = Returned tt.
Proof.
  intros He Hl Hnan. unfold validateRange. rewrite He, Hl.
  destruct (truthy_string e && truthy_string l); [|reflexivity].
  destruct Hnan as [-> | ->]; cbn;
    [|destruct (parseDate e)]; reflexivity.
Qed.

Lemma validateMeetingRequest_split request :
  validateMeetingRequest parseDate request
  = validateMeetingRequest parseDate (with_range None None request)
    >> validateRange parseDate request.
Proof.
  unfold validateMeetingRequest, with_range.
  cbn [subject attendees durationMinutes earliestISO latestISO validateRange].
  set (A := throw_if _ _ >> throw_if _ _ >> validateAttendees _
            >> throw_if _ _).
  destruct A as [[]|err]; reflexivity.
Qed.

(** C10.  When [earliestISO] and [latestISO] are both non-empty and one
    of them is no date, the range check of the request passes; if the
    other checks pass too, validation succeeds and [proposeSlots] goes on
    to call the engine.  Request validation never throws the range error
    on such bounds, whereas [validateTimeWindow] rejects every slot with
    an end that is no date. *)
Theorem C10_unparseable_bounds_are_not_rejected
    this r w request e l :
  earliestISO request = Some e ->
  latestISO request = Some l ->
  e <> [] -> l <> [] ->
  parseDate e = None \/ parseDate l = None ->
  validateRange parseDate request = Returned tt
  /\ (validateMeetingRequest parseDate (with_range None None request)
      = Returned tt ->
      heap w !! r = Some request ->
      validateMeetingRequest parseDate request = Returned tt
      /\ proposeSlots parseDate this r w
         = after_propose this
             (propose (engine this) (enhanced_ref w)
                (propose_world this r request w)))
  /\ validateMeetingRequest parseDate request
     <> Threw (new_Error (lit "Earliest time must be before latest time"))
  /\ (forall chosenSlot,
        parseDate (startISO chosenSlot) = None
        \/ parseDate (endISO chosenSlot) = None ->
        validateTimeWindow parseDate chosenSlot
        = Threw (new_Error (lit "Invalid time slot format"))).
Proof.
  intros He Hl _ _ Hnan.
  pose proof (validateRange_unparseable request e l He Hl Hnan) as Hrange.
  split; [exact Hrange|split; [|split]].
  - intros Hother Hr.
    assert (Hv : validateMeetingRequest parseDate request = Returned tt).
    { rewrite validateMeetingRequest_split, Hother, Hrange. reflexivity. }
    split; [exact Hv|]. by apply proposeSlots_valid.
  - rewrite validateMeetingRequest_split, Hrange.
    unfold validateMeetingRequest, with_range.
    cbn [subject attendees durationMinutes earliestISO latestISO validateRange].
    rewrite validateAttendees_spec.
    destruct (_ || _);
      [unfold throw_if, and_then; intros H; injection H as H;
       vm_compute in H; discriminate|].
    destruct (Nat.eqb _ _);
      [unfold throw_if, and_then; intros H; injection H as H;
       vm_compute in H; discriminate|].
    destruct (forallb _ _);
      [|unfold throw_if, and_then; intros H; injection H as H;
        vm_compute in H; discriminate].
    destruct (_ && _); unfold throw_if, and_then; intros H;
      [injection H as H; vm_compute in H|]; discriminate.
  - intros chosenSlot Hs. unfold validateTimeWindow.
    destruct Hs as [-> | ->]; cbn;
      [|destruct (parseDate (startISO chosenSlot))]; reflexivity.
Qed.

(** What holds of the duration check: a negative duration on a request
    that passes the three checks before it is rejected, for both
    methods, before any engine call. *)
Lemma negative_duration_rejected this r chosenSlot w request d :
  heap w !! r = Some request ->
  durationMinutes request = Some d ->
  num_lt d zero = true ->
  validateMeetingRequest parseDate (with_duration None request)
  = Returned tt ->
  raised_before_engine (new_Error (lit "Meeting duration must be positive"))
    w (proposeSlots parseDate this r w)
  /\ raised_before_engine
       (new_Error (lit "Meeting duration must be positive")) w
       (confirmSlot parseDate this r chosenSlot w).
Proof.
  intros Hr Hd Hneg Hother.
  assert (Hv : validateMeetingRequest parseDate request
               = Threw (new_Error (lit "Meeting duration must be positive"))).
  { unfold validateMeetingRequest, with_duration in *.
    cbn [subject attendees durationMinutes earliestISO latestISO
         truthy_opt_number opt_num_le andb] in Hother.
    apply and_then_returned in Hother as [Hother _].
    apply and_then_returned in Hother as [Hother _].
    rewrite Hother.
    assert (Hg : truthy_opt_number (durationMinutes request)
                 && opt_num_le (durationMinutes request) zero = true)
      by (apply duration_guard; eauto).
    rewrite Hg. reflexivity. }
  erewrite proposeSlots_invalid, confirmSlot_invalid_request by eassumption.
  split; (split; [reflexivity|]); eexists; (split; [reflexivity|]);
    reflexivity.
Qed.

End Properties.

(* ================================================================== *)
(** * The properties on the fixtures *)
(* ================================================================== *)







(** C1, as stated, fails.  A request with [durationMinutes: 0] fails the
    stated duration check ("positive when present"), and a request whose
    [earliestISO] is no date fails the stated range check ("earliest
    before latest when both present"); in both cases nothing is thrown
    and the engine is called. *)
Lemma C1_stated_checks_not_all_enforced :
  (first_failing (range_as_stated isoParse) zeroDurationRequest
   = Some DurationCheck
   /\ ~ raised_before_engine
         (error_of DurationCheck zeroDurationRequest)
         (world_with None zeroDurationRequest)
         (proposeSlots isoParse googleService 1%positive
            (world_with None zeroDurationRequest))
   /\ fst (proposeSlots isoParse googleService 1%positive
             (world_with None zeroDurationRequest)) = Returned []
   /\ engine_calls
        (trace (snd (proposeSlots isoParse googleService 1%positive
                       (world_with None zeroDurationRequest))))
      = [Invoked (lit "GoogleCalendarEngine") (Propose 2%positive)])
  /\ (first_failing (range_as_stated isoParse) undatedRequest
      = Some RangeCheck
      /\ ~ raised_before_engine
            (error_of RangeCheck undatedRequest)
            (world_with None undatedRequest)
            (proposeSlots isoParse googleService 1%positive
               (world_with None undatedRequest))
      /\ fst (proposeSlots isoParse googleService 1%positive
                (world_with None undatedRequest)) = Returned []
      /\ engine_calls
           (trace (snd (proposeSlots isoParse googleService 1%positive
                          (world_with None undatedRequest))))
         = [Invoked (lit "GoogleCalendarEngine") (Propose 2%positive)]).
Proof.
  split; (split; [vm_compute; reflexivity|]);
    (split; [intros [H _]; vm_compute in H; discriminate|]);
    split; vm_compute; reflexivity.
Qed.

(** The amended C1 on two requests: the one of the test suite with a
    duration of -30, which fails the duration check alone, and one that
    fails every check, for which the error is the one of the subject. *)
Lemma C1_first_failing_check_witness :
  (heap (world_with None negativeDurationRequest) !! 1%positive
   = Some negativeDurationRequest
   /\ first_failing (range_of_dates isoParse) negativeDurationRequest
      = Some DurationCheck
   /\ duration_set negativeDurationRequest = true
   /\ raised_before_engine
        (new_Error (lit "Meeting duration must be positive"))
        (world_with None negativeDurationRequest)
        (proposeSlots isoParse googleService 1%positive
           (world_with None negativeDurationRequest))
   /\ raised_before_engine
        (new_Error (lit "Meeting duration must be positive"))
        (world_with None negativeDurationRequest)
        (confirmSlot isoParse googleService 1%positive dummySlot
           (world_with None negativeDurationRequest)))
  /\ (heap (world_with None hopelessRequest) !! 1%positive
      = Some hopelessRequest
      /\ first_failing (range_of_dates isoParse) hopelessRequest
         = Some SubjectCheck
      /\ raised_before_engine
           (new_Error (lit "Meeting subject is required"))
           (world_with None hopelessRequest)
           (proposeSlots isoParse googleService 1%positive
              (world_with None hopelessRequest))
      /\ raised_before_engine
           (new_Error (lit "Meeting subject is required"))
           (world_with None hopelessRequest)
           (confirmSlot isoParse googleService 1%positive dummySlot
              (world_with None hopelessRequest))).
Proof.
  split.
  - split; [vm_compute; reflexivity|].
    split; [vm_compute; reflexivity|].
    split; [vm_compute; reflexivity|].
    apply (C1_first_failing_check_raises_before_engine unit isoParse
             googleService 1%positive dummySlot
             (world_with None negativeDurationRequest)
             negativeDurationRequest DurationCheck).
    + vm_compute. reflexivity.
    + vm_compute. reflexivity.
    + intros _. vm_compute. reflexivity.
  - split; [vm_compute; reflexivity|].
    split; [vm_compute; reflexivity|].
    apply (C1_first_failing_check_raises_before_engine unit isoParse
             googleService 1%positive dummySlot
             (world_with None hopelessRequest) hopelessRequest SubjectCheck).
    + vm_compute. reflexivity.
    + vm_compute. reflexivity.
    + intros H. discriminate H.
Defined.

(** C2 on [{ ...dummyRequest, durationMinutes: 0 }].  The duration is
    present and [<= 0], yet the error "Meeting duration must be positive"
    (the [InvalidRequest] of the specification) is not thrown: validation
    passes, [proposeSlots] returns the engine's empty list and
    [confirmSlot] its booking, after an engine call on a copy whose
    duration is 45. *)
Theorem C2_zero_duration_is_not_rejected :
  opt_num_le (durationMinutes zeroDurationRequest) zero = true
  /\ validateMeetingRequest isoParse zeroDurationRequest = Returned tt
  /\ fst (proposeSlots isoParse googleService 1%positive
            (world_with None zeroDurationRequest)) = Returned []
  /\ fst (confirmSlot isoParse googleService 1%positive dummySlot
            (world_with None zeroDurationRequest))
     = Returned {| eventId := lit "TBD" |}
  /\ engine_calls
       (trace (snd (proposeSlots isoParse googleService 1%positive
                      (world_with None zeroDurationRequest))))
     = [Invoked (lit "GoogleCalendarEngine") (Propose 2%positive)]
  /\ durationMinutes <$>
       heap (snd (proposeSlots isoParse googleService 1%positive
                    (world_with None zeroDurationRequest))) !! 2%positive
     = Some (Some (num_of_Z 45)).
Proof. repeat split; vm_compute; reflexivity. Qed.

(** C3 on the three values of the tests: ["true"], ["false"], absent. *)
Lemma C3_engine_resolved_witness :
  fst (new_SchedulingService (world_with (Some (lit "true")) dummyRequest))
  = Returned sidekickService
  /\ fst (new_SchedulingService (world_with (Some (lit "false")) dummyRequest))
     = Returned googleService
  /\ fst (new_SchedulingService (world_with None dummyRequest))
     = Returned googleService
  /\ fst (new_SchedulingService (world_with (Some (lit "true")) hopelessRequest))
     = fst (new_SchedulingService (world_with (Some (lit "true")) dummyRequest))
  /\ proposeSlots isoParse sidekickService 1%positive
       (setenv (Some (lit "false")) (world_with (Some (lit "true")) dummyRequest))
     = (fst (proposeSlots isoParse sidekickService 1%positive
               (world_with (Some (lit "true")) dummyRequest)),
        setenv (Some (lit "false"))
          (snd (proposeSlots isoParse sidekickService 1%positive
                  (world_with (Some (lit "true")) dummyRequest)))).
Proof.
  pose proof (C3_engine_resolved_once_at_construction unit isoParse
                (world_with (Some (lit "true")) dummyRequest))
    as (Htrue & _ & Hsame & _ & Hlife).
  pose proof (C3_engine_resolved_once_at_construction unit isoParse
                (world_with (Some (lit "false")) dummyRequest))
    as (_ & Hfalse & _).
  pose proof (C3_engine_resolved_once_at_construction unit isoParse
                (world_with None dummyRequest))
    as (_ & Habsent & _).
  split; [|split; [|split; [|split]]].
  - apply Htrue. reflexivity.
  - apply Hfalse. intros H. vm_compute in H. discriminate H.
  - apply Habsent. intros H. vm_compute in H. discriminate H.
  - apply Hsame. reflexivity.
  - apply (Hlife sidekickService (Htrue eq_refl)
             (world_with (Some (lit "true")) dummyRequest) 1%positive
             dummySlot (Some (lit "false"))).
Defined.

(** C4 on [dummyRequest] with and without its duration of 30. *)
Lemma C4_enhanced_request_witness :
  (heap (world_with None openDurationRequest) !! 1%positive
   = Some openDurationRequest
   /\ validateMeetingRequest isoParse openDurationRequest = Returned tt
   /\ durationMinutes openDurationRequest = None
   /\ durationMinutes (enhanced openDurationRequest) = Some (num_of_Z 45))
  /\ (heap (world_with None dummyRequest) !! 1%positive = Some dummyRequest
      /\ validateMeetingRequest isoParse dummyRequest = Returned tt
      /\ validateTimeWindow isoParse dummySlot = Returned tt
      /\ positive_number (num_of_Z 30) = true
      /\ durationMinutes (enhanced dummyRequest) = Some (num_of_Z 30)
      /\ heap (book_world googleService 1%positive dummyRequest dummySlot
                 (world_with None dummyRequest))
         !! enhanced_ref (world_with None dummyRequest)
         = Some (enhanced dummyRequest)).
Proof.
  split.
  - assert (Hr : heap (world_with None openDurationRequest) !! 1%positive
                 = Some openDurationRequest) by (vm_compute; reflexivity).
    assert (Hv : validateMeetingRequest isoParse openDurationRequest
                 = Returned tt) by (vm_compute; reflexivity).
    destruct (C4_enhanced_request_carries_duration unit isoParse
                googleService 1%positive dummySlot
                (world_with None openDurationRequest) openDurationRequest
                Hr Hv) as (_ & _ & _ & Hnone & H45 & _).
    split; [exact Hr|]. split; [exact Hv|]. split; [reflexivity|].
    rewrite <- H45. apply Hnone. reflexivity.
  - assert (Hr : heap (world_with None dummyRequest) !! 1%positive
                 = Some dummyRequest) by (vm_compute; reflexivity).
    assert (Hv : validateMeetingRequest isoParse dummyRequest
                 = Returned tt) by (vm_compute; reflexivity).
    assert (Ht : validateTimeWindow isoParse dummySlot = Returned tt)
      by (vm_compute; reflexivity).
    assert (Hp : positive_number (num_of_Z 30) = true)
      by (vm_compute; reflexivity).
    destruct (C4_enhanced_request_carries_duration unit isoParse
                googleService 1%positive dummySlot
                (world_with None dummyRequest) dummyRequest
                Hr Hv) as (_ & Hbook & Hsome & _).
    split; [exact Hr|]. split; [exact Hv|]. split; [exact Ht|].
    split; [exact Hp|]. split.
    + apply Hsome; [reflexivity|exact Hp].
    + apply (Hbook Ht).
Defined.

(** C5 on an engine whose calls fail with an error that carries a
    BigInt.  The request and the slot are valid, and [engine.propose]
    and [engine.book] throw [QuotaExceeded]; yet what comes out of
    [proposeSlots] and of [confirmSlot] is not that error but the
    [TypeError] with which [JSON.stringify] refuses it, thrown from
    inside [logger.error] before the handler reaches [throw error].
    The engine was called once, and the record of the failure names the
    error of the engine. *)
Theorem C5_unserialisable_engine_error_is_replaced :
  heap (world_with None dummyRequest) !! 1%positive = Some dummyRequest
  /\ validateMeetingRequest isoParse dummyRequest = Returned tt
  /\ validateTimeWindow isoParse dummySlot = Returned tt
  /\ fst (propose (engine quotaService)
            (enhanced_ref (world_with None dummyRequest))
            (propose_world quotaService 1%positive dummyRequest
               (world_with None dummyRequest)))
     = Threw QuotaExceeded
  /\ fst (book (engine quotaService)
            (enhanced_ref (world_with None dummyRequest)) dummySlot
            (book_world quotaService 1%positive dummyRequest dummySlot
               (world_with None dummyRequest)))
     = Threw QuotaExceeded
  /\ fst (proposeSlots isoParse quotaService 1%positive
            (world_with None dummyRequest))
     = Threw (TypeError (lit "Do not know how to serialize a BigInt"))
  /\ fst (confirmSlot isoParse quotaService 1%positive dummySlot
            (world_with None dummyRequest))
     = Threw (TypeError (lit "Do not know how to serialize a BigInt"))
  /\ TypeError (lit "Do not know how to serialize a BigInt")
     <> QuotaExceeded
  /\ engine_calls
       (trace (snd (proposeSlots isoParse quotaService 1%positive
                      (world_with None dummyRequest))))
     = [Invoked (lit "QuotaEngine") (Propose 2%positive)]
  /\ last (trace (snd (proposeSlots isoParse quotaService 1%positive
                         (world_with None dummyRequest))))
     = Some (propose_failed_log QuotaExceeded).
Proof.
  repeat split; try (vm_compute; reflexivity).
  vm_compute. intros H. discriminate H.
Qed.

(** C6 on the two bad slots of the test suite. *)
Lemma C6_slot_checked_witness :
  heap (world_with None dummyRequest) !! 1%positive = Some dummyRequest
  /\ validateMeetingRequest isoParse dummyRequest = Returned tt
  /\ isoParse (startISO invalidSlot) = None
  /\ raised_before_engine (new_Error (lit "Invalid time slot format"))
       (world_with None dummyRequest)
       (confirmSlot isoParse googleService 1%positive invalidSlot
          (world_with None dummyRequest))
  /\ isoParse (startISO invertedSlot) = Some 1705329000000%Z
  /\ isoParse (endISO invertedSlot) = Some 1705327200000%Z
  /\ raised_before_engine
       (new_Error (lit "Meeting start time must be before end time"))
       (world_with None dummyRequest)
       (confirmSlot isoParse googleService 1%positive invertedSlot
          (world_with None dummyRequest)).
Proof.
  assert (Hr : heap (world_with None dummyRequest) !! 1%positive
               = Some dummyRequest) by (vm_compute; reflexivity).
  assert (Hv : validateMeetingRequest isoParse dummyRequest = Returned tt)
    by (vm_compute; reflexivity).
  split; [exact Hr|]. split; [exact Hv|].
  split; [vm_compute; reflexivity|]. split.
  - apply (C6_slot_checked_before_booking unit isoParse googleService
             1%positive invalidSlot (world_with None dummyRequest)
             dummyRequest Hr Hv).
    left. vm_compute. reflexivity.
  - split; [vm_compute; reflexivity|]. split; [vm_compute; reflexivity|].
    apply (C6_slot_checked_before_booking unit isoParse googleService
             1%positive invertedSlot (world_with None dummyRequest)
             dummyRequest Hr Hv) with (a := 1705329000000%Z)
                                      (b := 1705327200000%Z).
    + vm_compute. reflexivity.
    + vm_compute. reflexivity.
    + lia.
Defined.

(** C7 on [dummyRequest], [dummySlot] and [SidekickEngine]. *)
Lemma C7_booking_result_witness :
  heap (world_with None dummyRequest) !! 1%positive = Some dummyRequest
  /\ validateMeetingRequest isoParse dummyRequest = Returned tt
  /\ validateTimeWindow isoParse dummySlot = Returned tt
  /\ shipped_engine (engine sidekickService)
  /\ fst (book SidekickEngine (enhanced_ref (world_with None dummyRequest))
            dummySlot
            (book_world sidekickService 1%positive dummyRequest dummySlot
               (world_with None dummyRequest)))
     = Returned {| eventId := lit "TBD" |}
  /\ fst (confirmSlot isoParse sidekickService 1%positive dummySlot
            (world_with None dummyRequest))
     = Returned {| eventId := lit "TBD" |}.
Proof.
  assert (Hr : heap (world_with None dummyRequest) !! 1%positive
               = Some dummyRequest) by (vm_compute; reflexivity).
  assert (Hv : validateMeetingRequest isoParse dummyRequest = Returned tt)
    by (vm_compute; reflexivity).
  assert (Ht : validateTimeWindow isoParse dummySlot = Returned tt)
    by (vm_compute; reflexivity).
  assert (Hs : shipped_engine (engine sidekickService))
    by (left; reflexivity).
  destruct (C7_booking_result_returned_unchanged unit isoParse
              sidekickService 1%positive dummySlot
              (world_with None dummyRequest) dummyRequest Hr Hv Ht)
    as (Hforth & Hback & Hshipped).
  split; [exact Hr|]. split; [exact Hv|]. split; [exact Ht|].
  split; [exact Hs|]. split.
  - apply Hback. destruct (Hshipped Hs) as ([id] & Hres & Hid & _).
    cbn in Hid. rewrite Hres, Hid. reflexivity.
  - apply (Hforth {| eventId := lit "TBD" |}
             (snd (book SidekickEngine
                     (enhanced_ref (world_with None dummyRequest)) dummySlot
                     (book_world sidekickService 1%positive dummyRequest dummySlot
                        (world_with None dummyRequest))))).
    + vm_compute. reflexivity.
    + exists dummyRequest. vm_compute. reflexivity.
Defined.

(** The object of the store of [world_with env openDurationRequest]. *)
Lemma openDurationRequest_object :
  objects (world_with None openDurationRequest) !! 1%positive
  = Some {| own_subject := subject openDurationRequest;
            attendees_ref := 1%positive;
            own_durationMinutes := None;
            own_earliestISO := earliestISO openDurationRequest;
            own_latestISO := latestISO openDurationRequest;
            constraints_ref := None |}.
Proof. vm_compute. reflexivity. Qed.

(** C8 on [GoogleCalendarEngine] and a request without duration. *)
Lemma C8_caller_request_witness :
  objects (world_with None openDurationRequest) !! 1%positive
  = Some {| own_subject := subject openDurationRequest;
            attendees_ref := 1%positive;
            own_durationMinutes := None;
            own_earliestISO := earliestISO openDurationRequest;
            own_latestISO := latestISO openDurationRequest;
            constraints_ref := None |}
  /\ heap (world_with None openDurationRequest) !! 1%positive
     = Some openDurationRequest
  /\ writes_through_argument (engine googleService)
  /\ leaves_shared_parts_alone (engine googleService)
  /\ fst (new_SchedulingService (world_with None openDurationRequest))
     = Returned googleService
  /\ objects (snd (proposeSlots isoParse googleService 1%positive
                     (world_with None openDurationRequest))) !! 1%positive
     = objects (world_with None openDurationRequest) !! 1%positive
  /\ objects (snd (confirmSlot isoParse googleService 1%positive dummySlot
                     (world_with None openDurationRequest))) !! 1%positive
     = objects (world_with None openDurationRequest) !! 1%positive
  /\ heap (snd (proposeSlots isoParse googleService 1%positive
                  (world_with None openDurationRequest))) !! 1%positive
     = Some openDurationRequest
  /\ heap (snd (confirmSlot isoParse googleService 1%positive dummySlot
                  (world_with None openDurationRequest))) !! 1%positive
     = Some openDurationRequest
  /\ enhanced_ref (world_with None openDurationRequest) <> 1%positive.
Proof.
  destruct (shipped_engine_writes_nothing unit (engine googleService)
              (or_intror eq_refl)) as [Hw Hl].
  assert (Hr : heap (world_with None openDurationRequest) !! 1%positive
               = Some openDurationRequest) by (vm_compute; reflexivity).
  assert (Hnew : fst (new_SchedulingService
                        (world_with None openDurationRequest))
                 = Returned googleService)
    by exact (new_SchedulingService_engine unit
                (world_with None openDurationRequest)).
  destruct (C8_caller_request_left_unchanged unit isoParse googleService
              1%positive dummySlot (world_with None openDurationRequest)
              openDurationRequest _ openDurationRequest_object
              ltac:(vm_compute; reflexivity))
    as ((_ & Hne & _) & _ & Hfields & Hdeep & Hbuilt).
  destruct (Hfields Hw) as [Hp Hc].
  destruct (Hdeep Hw Hl) as [Hp' Hc'].
  rewrite openDurationRequest_object at 2 3.
  split; [exact openDurationRequest_object|].
  split; [exact Hr|]. split; [exact Hw|]. split; [exact Hl|].
  split; [exact Hnew|].
  split; [exact Hp|]. split; [exact Hc|]. split; [exact Hp'|].
  split; [exact Hc'|exact Hne].
Defined.

(** The array of attendees is one for the caller's request and for the
    enhanced copy.  [AttendeeDroppingEngine] writes to request objects
    only through the reference it is handed, and to none at all; what it
    writes to the array of the copy shows in the caller's request, whose
    properties hold what they held. *)
Lemma emptied_attendees_show_in_the_callers_request :
  writes_through_argument AttendeeDroppingEngine
  /\ ~ leaves_shared_parts_alone AttendeeDroppingEngine
  /\ heap (world_with None dummyRequest) !! 1%positive = Some dummyRequest
  /\ objects (snd (proposeSlots isoParse droppingService 1%positive
                     (world_with None dummyRequest))) !! 1%positive
     = objects (world_with None dummyRequest) !! 1%positive
  /\ attendees <$>
       heap (snd (proposeSlots isoParse droppingService 1%positive
                    (world_with None dummyRequest))) !! 1%positive
     = Some []
  /\ attendees <$>
       heap (snd (confirmSlot isoParse droppingService 1%positive dummySlot
                    (world_with None dummyRequest))) !! 1%positive
     = Some [].
Proof.
  split; [|split].
  - split.
    + intros r w r0 _. cbn [propose AttendeeDroppingEngine].
      by destruct (objects w !! r).
    + intros r chosen w r0 _. cbn [book AttendeeDroppingEngine].
      by destruct (objects w !! r).
  - intros [Hp _].
    destruct (Hp 1%positive (world_with None dummyRequest) _
                ltac:(vm_compute; reflexivity)) as [Ha _].
    vm_compute in Ha. discriminate Ha.
  - repeat split; vm_compute; reflexivity.
Qed.


(** C10 on [earliestISO: 'not-a-date']. *)
Lemma C10_unparseable_bounds_witness :
  earliestISO undatedRequest = Some (lit "not-a-date")
  /\ latestISO undatedRequest = Some (lit "2024-01-15T18:00:00.000Z")
  /\ isoParse (lit "not-a-date") = None
  /\ heap (world_with None undatedRequest) !! 1%positive
     = Some undatedRequest
  /\ validateMeetingRequest isoParse undatedRequest = Returned tt
  /\ proposeSlots isoParse googleService 1%positive
       (world_with None undatedRequest)
     = after_propose googleService
         (propose (engine googleService)
            (enhanced_ref (world_with None undatedRequest))
            (propose_world googleService 1%positive undatedRequest
               (world_with None undatedRequest)))
  /\ validateTimeWindow isoParse invalidSlot
     = Threw (new_Error (lit "Invalid time slot format")).
Proof.
  assert (Hn : isoParse (lit "not-a-date") = None)
    by (vm_compute; reflexivity).
  assert (Hr : heap (world_with None undatedRequest) !! 1%positive
               = Some undatedRequest) by (vm_compute; reflexivity).
  destruct (C10_unparseable_bounds_are_not_rejected unit isoParse
              googleService 1%positive (world_with None undatedRequest)
              undatedRequest (lit "not-a-date")
              (lit "2024-01-15T18:00:00.000Z"))
    as (_ & Hgo & _ & Hslot).
  - reflexivity.
  - reflexivity.
  - intros H. vm_compute in H. discriminate H.
  - intros H. vm_compute in H. discriminate H.
  - left. exact Hn.
  - destruct Hgo as [Hv Hp]; [vm_compute; reflexivity|exact Hr|].
    split; [reflexivity|]. split; [reflexivity|]. split; [exact Hn|].
    split; [exact Hr|]. split; [exact Hv|]. split; [exact Hp|].
    apply Hslot. left. vm_compute. reflexivity.
Defined.

(* ================================================================== *)
(** * More on the scheduling service *)
(* ================================================================== *)

Section MoreScheduling.
Variable Ext : Type.
Variable parseDate : jsstring -> Date.
Implicit Types (w : World Ext) (this : SchedulingService Ext).
Implicit Types (request : MeetingRequest) (r : loc).

Lemma trimStart_nil_iff (s : jsstring) :
  trimStart s = [] <-> Forall (fun c => isWhiteSpace c = true) s.
Proof.
  induction s as [|c s IH]; cbn [trimStart].
  - split; [constructor|reflexivity].
  - destruct (isWhiteSpace c) eqn:Hc.
    + rewrite IH. split; [by constructor|by inversion 1].
    + split; [discriminate|]. inversion 1; congruence.
Qed.

Lemma trimStart_suffix (s : jsstring) :
  exists ws, s = ws ++ trimStart s
             /\ Forall (fun c => isWhiteSpace c = true) ws.
Proof.
  induction s as [|c s (ws & IH & Hws)]; cbn [trimStart].
  - exists []. by split.
  - destruct (isWhiteSpace c) eqn:Hc.
    + exists (c :: ws). split; [cbn; congruence|by constructor].
    + exists []. by split.
Qed.

Lemma trim_blank_iff (s : jsstring) :
  Nat.eqb (length (trim s)) 0 = true
  <-> Forall (fun c => isWhiteSpace c = true) s.
Proof.
  rewrite Nat.eqb_eq, length_zero_iff_nil. unfold trim, trimEnd.
  split.
  - intros H. apply (f_equal (@rev _)) in H. rewrite rev_involutive in H.
    cbn in H. apply trimStart_nil_iff in H.
    destruct (trimStart_suffix s) as (ws & Hs & Hws). rewrite Hs.
    apply List.Forall_app. split; [exact Hws|].
    apply List.Forall_forall. intros c Hc. rewrite List.Forall_forall in H.
    apply H. apply List.in_rev. rewrite rev_involutive. exact Hc.
  - intros H. apply trimStart_nil_iff in H. rewrite H. reflexivity.
Qed.

Lemma blank_or_not (s : jsstring) :
  Forall (fun c => isWhiteSpace c = true) s
  \/ exists c, In c s /\ isWhiteSpace c = false.
Proof.
  induction s as [|c s [IH | (c' & Hin & Hc')]].
  - left. constructor.
  - destruct (isWhiteSpace c) eqn:Hc.
    + left. by constructor.
    + right. exists c. split; [by left|exact Hc].
  - right. exists c'. split; [by right|exact Hc'].
Qed.

Lemma trim_not_blank_iff (s : jsstring) :
  Nat.eqb (length (trim s)) 0 = false
  <-> exists c, In c s /\ isWhiteSpace c = false.
Proof.
  split.
  - intros H. destruct (blank_or_not s) as [Hb | Hn]; [|exact Hn].
    apply trim_blank_iff in Hb. congruence.
  - intros (c & Hin & Hc).
    destruct (Nat.eqb (length (trim s)) 0) eqn:E; [|reflexivity].
    apply trim_blank_iff in E. rewrite List.Forall_forall in E.
    specialize (E c Hin). congruence.
Qed.

Lemma startsWith_nil (s : jsstring) : startsWith s [] = true.
Proof. destruct s; reflexivity. Qed.

Lemma includes_char_iff (s : jsstring) (c : code_unit) :
  includes s [c] = true <-> In c s.
Proof.
  induction s as [|c' s IH]; cbn [includes startsWith].
  - split; [discriminate|inversion 1].
  - rewrite orb_true_iff, IH, startsWith_nil, andb_true_r, N.eqb_eq.
    cbn [In].
    split; (intros [H | H]; [left; congruence|by right]).
Qed.

Lemma at_sign : lit "@" = [64%N].
Proof. reflexivity. Qed.

Lemma forallb_emails_iff (l : list Attendee) :
  forallb (fun a => includes (email a) (lit "@")) l = true
  <-> forall a, In a l -> In 64%N (email a).
Proof.
  rewrite forallb_forall. rewrite at_sign.
  split; intros H a Ha; apply includes_char_iff; by apply H.
Qed.

Lemma and_then_returned_iff (a b : Outcome unit) :
  a >> b = Returned tt <-> a = Returned tt /\ b = Returned tt.
Proof.
  split; [apply and_then_returned|]. intros [-> ->]. reflexivity.
Qed.

Lemma throw_if_returned_iff (c : bool) (e : Error) :
  throw_if c e = Returned tt <-> c = false.
Proof. destruct c; cbn; split; congruence. Qed.

Lemma validateRange_returned_iff request :
  validateRange parseDate request = Returned tt
  <-> forall e l a b,
        earliestISO request = Some e -> latestISO request = Some l ->
        e <> [] -> l <> [] ->
        parseDate e = Some a -> parseDate l = Some b -> (a < b)%Z.
Proof.
  unfold validateRange.
  destruct (earliestISO request) as [e|], (latestISO request) as [l|];
    try (split; [intros _ ? ? ? ? ? ?; discriminate|reflexivity]).
  destruct e as [|ce e]; [split; [intros _ ? ? ? ? H; injection H as <-; congruence|reflexivity]|].
  destruct l as [|cl l]; [split; [intros _ ? ? ? ? _ H; injection H as <-; congruence|reflexivity]|].
  cbn [truthy_string andb].
  destruct (parseDate (ce :: e)) as [a|] eqn:Ha,
           (parseDate (cl :: l)) as [b|] eqn:Hb; cbn [date_ge throw_if].
  - destruct (Z.leb_spec b a) as [Hle | Hlt].
    + split; [discriminate|]. intros H.
      specialize (H _ _ a b eq_refl eq_refl). rewrite Ha, Hb in H.
      assert (a < b)%Z by (apply H; congruence). lia.
    + split; [|reflexivity]. intros _ e' l' a' b' He Hl _ _ Ha' Hb'.
      injection He as <-. injection Hl as <-. congruence.
  - split; [|reflexivity]. intros _ e' l' a' b' He Hl _ _ Ha' Hb'.
    injection He as <-. injection Hl as <-. congruence.
  - split; [|reflexivity]. intros _ e' l' a' b' He Hl _ _ Ha' Hb'.
    injection He as <-. injection Hl as <-. congruence.
  - split; [|reflexivity]. intros _ e' l' a' b' He Hl _ _ Ha' Hb'.
    injection He as <-. injection Hl as <-. congruence.
Qed.

Lemma duration_guard_false_iff (o : option number) :
  truthy_opt_number o && opt_num_le o zero = false
  <-> forall d, o = Some d -> num_lt d zero = false.
Proof.
  split.
  - intros H d Hd. destruct (num_lt d zero) eqn:E; [|reflexivity].
    assert (truthy_opt_number o && opt_num_le o zero = true)
      by (apply duration_guard; eauto).
    congruence.
  - intros H. destruct (truthy_opt_number o && opt_num_le o zero) eqn:E;
      [|reflexivity].
    apply duration_guard in E as (d & Hd & Hlt).
    rewrite (H d Hd) in Hlt. discriminate.
Qed.

(** X1.  [validateMeetingRequest] accepts a request exactly when the
    subject has a character that is no white space, there is at least
    one attendee, the address of every attendee contains an [@], a
    duration that is given is not below zero, and, where both bounds are
    given, not empty and parseable, the earliest lies strictly before the
    latest. *)
Theorem validateMeetingRequest_accepts_iff request :
  validateMeetingRequest parseDate request = Returned tt
  <-> (exists c, In c (subject request) /\ isWhiteSpace c = false)
      /\ attendees request <> []
      /\ (forall a, In a (attendees request) -> In 64%N (email a))
      /\ (forall d, durationMinutes request = Some d ->
                    num_lt d zero = false)
      /\ (forall e l a b,
            earliestISO request = Some e -> latestISO request = Some l ->
            e <> [] -> l <> [] ->
            parseDate e = Some a -> parseDate l = Some b -> (a < b)%Z).
Proof.
  unfold validateMeetingRequest.
  rewrite !and_then_returned_iff, !throw_if_returned_iff, subject_condition,
    validateAttendees_spec, trim_not_blank_iff, duration_guard_false_iff,
    validateRange_returned_iff, <- forallb_emails_iff.
  assert (Hatt : Nat.eqb (length (attendees request)) 0 = false
                 <-> attendees request <> []).
  { destruct (attendees request); cbn; split; congruence. }
  rewrite Hatt.
  assert (Hem : (if forallb (fun a => includes (email a) (lit "@"))
                      (attendees request)
                 then Returned tt
                 else Threw (new_Error
                               (lit "Invalid email address for attendee: "
                                ++ offending_email (attendees request))))
                = Returned tt
                <-> forallb (fun a => includes (email a) (lit "@"))
                      (attendees request) = true).
  { destruct (forallb _ _); split; congruence. }
  rewrite Hem. tauto.
Qed.


Lemma or_default_stable (o : option number) :
  or_default (Some (or_default o (defaultDurationMinutes (scheduling Policies))))
    (defaultDurationMinutes (scheduling Policies))
  = or_default o (defaultDurationMinutes (scheduling Policies)).
Proof.
  destruct o as [d|]; [|reflexivity]. cbn [or_default].
  destruct (truthy_number d) eqn:Hd; [by rewrite Hd|reflexivity].
Qed.

Lemma enhanced_guard (o : option number) :
  truthy_opt_number
    (Some (or_default o (defaultDurationMinutes (scheduling Policies))))
  && opt_num_le
       (Some (or_default o (defaultDurationMinutes (scheduling Policies))))
       zero
  = truthy_opt_number o && opt_num_le o zero.
Proof.
  destruct o as [d|]; [|reflexivity]. cbn [or_default].
  destruct (truthy_number d) eqn:Hd; [reflexivity|].
  cbn [truthy_opt_number]. rewrite Hd. reflexivity.
Qed.

(** X2.  Enhancing an enhanced request changes nothing, and the enhanced
    request passes [validateMeetingRequest] exactly as the original
    does, with the same error when it fails. *)
Theorem enhancement_is_stable request :
  enhanced (enhanced request) = enhanced request
  /\ validateMeetingRequest parseDate (enhanced request)
     = validateMeetingRequest parseDate request.
Proof.
  split.
  - unfold enhanced.
    cbn [subject attendees durationMinutes earliestISO latestISO constraints].
    by rewrite or_default_stable.
  - unfold validateMeetingRequest, validateRange, enhanced.
    cbn [subject attendees durationMinutes earliestISO latestISO].
    by rewrite enhanced_guard.
Qed.

Lemma validateTimeWindow_returned_iff (slot : TimeWindow) :
  validateTimeWindow parseDate slot = Returned tt
  <-> exists a b, parseDate (startISO slot) = Some a
                  /\ parseDate (endISO slot) = Some b /\ (a < b)%Z.
Proof.
  unfold validateTimeWindow.
  destruct (parseDate (startISO slot)) as [a|],
           (parseDate (endISO slot)) as [b|]; cbn;
    try (split; [discriminate|intros (? & ? & ? & ? & ?); discriminate]).
  destruct (Z.leb_spec b a) as [Hle | Hlt]; cbn.
  - split; [discriminate|]. intros (a' & b' & Ha & Hb & Hlt).
    injection Ha as <-. injection Hb as <-. lia.
  - split; [|reflexivity]. intros _. exists a, b. by repeat split.
Qed.

Lemma shipped_confirmSlot_result this r chosenSlot w request :
  shipped_engine (engine this) ->
  heap w !! r = Some request ->
  validateMeetingRequest parseDate request = Returned tt ->
  validateTimeWindow parseDate chosenSlot = Returned tt ->
  exists logs,
    confirmSlot parseDate this r chosenSlot w
    = (Returned {| eventId := lit "TBD" |},
       record (logs ++ [booked_log this {| eventId := lit "TBD" |} request
                          chosenSlot])
         (book_world this r request chosenSlot w))
    /\ engine_calls logs = [].
Proof.
  intros Hs Hr Hv Ht.
  rewrite (confirmSlot_valid Ext parseDate this r chosenSlot w request Hr Hv Ht).
  destruct (shipped_book Ext (engine this) (enhanced_ref w) chosenSlot
              (book_world this r request chosenSlot w) (enhanced request)
              Hs (book_world_enhanced Ext this r request chosenSlot w Hr))
    as (logs & -> & Hc & _).
  unfold after_book. rewrite heap_record.
  rewrite (book_world_original Ext this r request chosenSlot w r request
             Hr Hr).
  exists logs. split; [|exact Hc]. by rewrite record_record.
Qed.

(** X3.  With one of the two engines of the repository, [confirmSlot]
    returns a booking exactly when the request is valid and both ends of
    the chosen slot parse, the start strictly before the end. *)
Theorem shipped_confirmSlot_succeeds_iff this r chosenSlot w request :
  shipped_engine (engine this) ->
  heap w !! r = Some request ->
  fst (confirmSlot parseDate this r chosenSlot w)
  = Returned {| eventId := lit "TBD" |}
  <-> validateMeetingRequest parseDate request = Returned tt
      /\ exists a b, parseDate (startISO chosenSlot) = Some a
                     /\ parseDate (endISO chosenSlot) = Some b
                     /\ (a < b)%Z.
Proof.
  intros Hs Hr. rewrite <- validateTimeWindow_returned_iff. split.
  - destruct (validateMeetingRequest parseDate request) as [[]|e] eqn:Hv.
    + destruct (validateTimeWindow parseDate chosenSlot) as [[]|e] eqn:Ht;
        [by split|].
      rewrite (confirmSlot_invalid_slot Ext parseDate this r chosenSlot w
                 request e Hr Hv Ht).
      discriminate.
    + rewrite (confirmSlot_invalid_request Ext parseDate this r chosenSlot w
                 request e Hr Hv).
      discriminate.
  - intros [Hv Ht].
    destruct (shipped_confirmSlot_result this r chosenSlot w request
                Hs Hr Hv Ht) as (logs & -> & _).
    reflexivity.
Qed.

(** X4.  With one of the two engines of the repository, [proposeSlots]
    returns for the valid requests and only for them, and what it
    returns is always the empty list. *)
Theorem shipped_proposeSlots_returns_iff this r w request :
  shipped_engine (engine this) ->
  heap w !! r = Some request ->
  (fst (proposeSlots parseDate this r w) = Returned []
   <-> validateMeetingRequest parseDate request = Returned tt)
  /\ (forall proposals,
        fst (proposeSlots parseDate this r w) = Returned proposals ->
        proposals = []).
Proof.
  intros Hs Hr.
  destruct (validateMeetingRequest parseDate request) as [[]|e] eqn:Hv.
  - rewrite (proposeSlots_valid Ext parseDate this r w request Hr Hv).
    destruct (shipped_propose Ext (engine this) (enhanced_ref w)
                (propose_world this r request w) (enhanced request)
                Hs (propose_world_enhanced Ext this r request w Hr))
      as (logs & -> & _).
    cbn. split; [by split|congruence].
  - rewrite (proposeSlots_invalid Ext parseDate this r w request e Hr Hv).
    cbn. split; [split; discriminate|discriminate].
Qed.

Lemma fresh_after_store (w : World Ext) (obj : RequestObject) :
  enhanced_ref (store (enhanced_ref w) obj w) <> enhanced_ref w.
Proof.
  intros E.
  pose proof (fresh_ref_free Ext (store (enhanced_ref w) obj w)) as H.
  rewrite E in H. cbn [objects store] in H.
  by rewrite lookup_insert_eq in H.
Qed.

(** X5.  Confirming the same request and slot twice books twice: both
    calls return, the engine is asked to book two times, each time with
    a copy of the request of its own, and the object of the caller is
    what it was. *)
Theorem shipped_confirmSlot_twice this r chosenSlot w request :
  shipped_engine (engine this) ->
  heap w !! r = Some request ->
  validateMeetingRequest parseDate request = Returned tt ->
  validateTimeWindow parseDate chosenSlot = Returned tt ->
  exists r1 r2,
    r1 <> r2 /\ r1 <> r /\ r2 <> r
    /\ fst (confirmSlot parseDate this r chosenSlot w)
       = Returned {| eventId := lit "TBD" |}
    /\ fst (confirmSlot parseDate this r chosenSlot
              (snd (confirmSlot parseDate this r chosenSlot w)))
       = Returned {| eventId := lit "TBD" |}
    /\ engine_calls
         (trace (snd (confirmSlot parseDate this r chosenSlot
                        (snd (confirmSlot parseDate this r chosenSlot w)))))
       = engine_calls (trace w)
         ++ [Invoked (getEngineType this) (Book r1 chosenSlot);
             Invoked (getEngineType this) (Book r2 chosenSlot)]
    /\ heap (snd (confirmSlot parseDate this r chosenSlot
                    (snd (confirmSlot parseDate this r chosenSlot w)))) !! r
       = Some request.
Proof.
  intros Hs Hr Hv Ht.
  destruct (shipped_confirmSlot_result this r chosenSlot w request
              Hs Hr Hv Ht) as (logs1 & -> & Hc1).
  cbn [fst snd].
  set (w1 := record _ (book_world this r request chosenSlot w)).
  assert (Hr1 : heap w1 !! r = Some request)
    by (exact (book_world_original Ext this r request chosenSlot w r request
                 Hr Hr)).
  destruct (heap_object Ext _ _ _ Hr) as (o & Ho & _).
  destruct (shipped_confirmSlot_result this r chosenSlot w1 request
              Hs Hr1 Hv Ht) as (logs2 & -> & Hc2).
  cbn [fst snd].
  exists (enhanced_ref w), (enhanced_ref w1).
  split; [|split; [|split; [|split; [|split; [|split]]]]].
  - intros E. symmetry in E. revert E. subst w1.
    rewrite (book_world_run Ext _ _ _ _ _ _ Ho).
    exact (fresh_after_store (record _ w) (enhanced_object o)).
  - intros E. symmetry in E. revert E. by eapply fresh_ref_other.
  - intros E. symmetry in E. revert E. by eapply fresh_ref_other.
  - reflexivity.
  - reflexivity.
  - destruct (heap_object Ext _ _ _ Hr1) as (o1 & Ho1 & _).
    rewrite (book_world_run Ext _ _ _ _ _ _ Ho1). subst w1.
    rewrite (book_world_run Ext _ _ _ _ _ _ Ho). cbn [record store trace].
    rewrite !engine_calls_app, Hc1, Hc2. cbn.
    rewrite !app_nil_r, <- app_assoc. reflexivity.
  - exact (book_world_original Ext this r request chosenSlot w1 r request
             Hr1 Hr1).
Qed.

(** X30.  For a valid request, when [engine.propose] throws,
    [proposeSlots] has called the engine once and adds one error record
    to what the engine left, with no second call and no empty list in
    place of the error.  What it throws is the error of the engine when
    [JSON.stringify] accepts that error, and the [TypeError] of
    [JSON.stringify] when it refuses it.  When [engine.propose] returns
    the empty list, [proposeSlots] returns the empty list.  For a valid
    slot, [confirmSlot] does with what [engine.book] throws as
    [proposeSlots] does. *)
Theorem engine_outcome_through_the_handler
    this r chosenSlot w request :
  heap w !! r = Some request ->
  validateMeetingRequest parseDate request = Returned tt ->
  engine_calls (trace (propose_world this r request w))
  = engine_calls (trace w)
    ++ [Invoked (getEngineType this) (Propose (enhanced_ref w))]
  /\ (forall e w',
        propose (engine this) (enhanced_ref w)
          (propose_world this r request w)
        = (Threw e, w') ->
        proposeSlots parseDate this r w
        = (match asJSON e with
           | Json _ => Threw e
           | Refuses why => Threw (TypeError why)
           end,
           record [propose_failed_log e] w'))
  /\ (forall w',
        propose (engine this) (enhanced_ref w)
          (propose_world this r request w)
        = (Returned [], w') ->
        proposeSlots parseDate this r w
        = (Returned [], record [generated_log this []] w'))
  /\ (validateTimeWindow parseDate chosenSlot = Returned tt ->
      forall e w',
        book (engine this) (enhanced_ref w) chosenSlot
          (book_world this r request chosenSlot w)
        = (Threw e, w') ->
        confirmSlot parseDate this r chosenSlot w
        = (match asJSON e with
           | Json _ => Threw e
           | Refuses why => Threw (TypeError why)
           end,
           record [confirm_failed_log e] w')).
Proof.
  intros Hr Hv. destruct (heap_object Ext _ _ _ Hr) as (o & Ho & _).
  split; [|split; [|split]].
  - rewrite (propose_world_run Ext _ _ _ _ _ Ho). cbn [record store trace].
    rewrite !engine_calls_app. cbn. by rewrite app_nil_r.
  - intros e w' He.
    rewrite (proposeSlots_valid Ext parseDate this r w request Hr Hv), He.
    unfold after_propose, rethrown. by destruct (asJSON e).
  - intros w' He.
    rewrite (proposeSlots_valid Ext parseDate this r w request Hr Hv), He.
    reflexivity.
  - intros Ht e w' He.
    rewrite (confirmSlot_valid Ext parseDate this r chosenSlot w request
               Hr Hv Ht), He.
    unfold after_book, rethrown. by destruct (asJSON e).
Qed.

End MoreScheduling.

(** The request and the slot of the test suite book with the Google
    Calendar engine, and the slot that ends before it starts does not. *)
Lemma shipped_confirmSlot_succeeds_witness :
  fst (confirmSlot isoParse googleService 1%positive dummySlot
         (world_with None dummyRequest))
  = Returned {| eventId := lit "TBD" |}
  /\ fst (confirmSlot isoParse googleService 1%positive invertedSlot
            (world_with None dummyRequest))
     <> Returned {| eventId := lit "TBD" |}.
Proof.
  assert (Hs : shipped_engine (engine googleService))
    by (right; reflexivity).
  assert (Hr : heap (world_with None dummyRequest) !! 1%positive
               = Some dummyRequest) by (vm_compute; reflexivity).
  split.
  - apply (shipped_confirmSlot_succeeds_iff unit isoParse googleService
             1%positive dummySlot (world_with None dummyRequest)
             dummyRequest Hs Hr).
    split; [vm_compute; reflexivity|].
    exists 1705327200000%Z, 1705329000000%Z.
    split; [vm_compute; reflexivity|]. split; [vm_compute; reflexivity|lia].
  - intros H.
    apply (shipped_confirmSlot_succeeds_iff unit isoParse googleService
             1%positive invertedSlot (world_with None dummyRequest)
             dummyRequest Hs Hr) in H.
    destruct H as (_ & a & b & Ha & Hb & Hlt).
    vm_compute in Ha. vm_compute in Hb.
    injection Ha as <-. injection Hb as <-. lia.
Defined.

(** The request of the test suite gets the empty list from the Sidekick
    engine, and the request with a negative duration gets nothing. *)
Lemma shipped_proposeSlots_returns_witness :
  fst (proposeSlots isoParse sidekickService 1%positive
         (world_with None dummyRequest))
  = Returned []
  /\ fst (proposeSlots isoParse sidekickService 1%positive
            (world_with None negativeDurationRequest))
     <> Returned [].
Proof.
  assert (Hs : shipped_engine (engine sidekickService))
    by (left; reflexivity).
  split.
  - destruct (shipped_proposeSlots_returns_iff unit isoParse sidekickService
                1%positive (world_with None dummyRequest) dummyRequest Hs)
      as [[_ Hback] _]; [vm_compute; reflexivity|].
    apply Hback. vm_compute. reflexivity.
  - destruct (shipped_proposeSlots_returns_iff unit isoParse sidekickService
                1%positive (world_with None negativeDurationRequest)
                negativeDurationRequest Hs)
      as [[Hforth _] _]; [vm_compute; reflexivity|].
    intros H. apply Hforth in H. vm_compute in H. discriminate H.
Defined.

(** Booking the slot of the test suite twice. *)
Lemma shipped_confirmSlot_twice_witness :
  exists r1 r2,
    r1 <> r2
    /\ engine_calls
         (trace (snd (confirmSlot isoParse googleService 1%positive dummySlot
                        (snd (confirmSlot isoParse googleService 1%positive
                                dummySlot (world_with None dummyRequest))))))
       = engine_calls (trace (world_with None dummyRequest))
         ++ [Invoked (getEngineType googleService) (Book r1 dummySlot);
             Invoked (getEngineType googleService) (Book r2 dummySlot)].
Proof.
  destruct (shipped_confirmSlot_twice unit isoParse googleService 1%positive
              dummySlot (world_with None dummyRequest) dummyRequest)
    as (r1 & r2 & Hne & _ & _ & _ & _ & Hcalls & _).
  - right. reflexivity.
  - vm_compute. reflexivity.
  - vm_compute. reflexivity.
  - vm_compute. reflexivity.
  - exists r1, r2. split; [exact Hne|exact Hcalls].
Defined.

(** An engine out of reach, whose error serialises, and one whose error
    carries a BigInt; the empty list of [GoogleCalendarEngine]. *)
Lemma engine_outcome_witness :
  heap (world_with None dummyRequest) !! 1%positive = Some dummyRequest
  /\ validateMeetingRequest isoParse dummyRequest = Returned tt
  /\ validateTimeWindow isoParse dummySlot = Returned tt
  /\ proposeSlots isoParse failingService 1%positive
       (world_with None dummyRequest)
     = (Threw EngineUnavailable,
        record [propose_failed_log EngineUnavailable]
          (propose_world failingService 1%positive dummyRequest
             (world_with None dummyRequest)))
  /\ confirmSlot isoParse failingService 1%positive dummySlot
       (world_with None dummyRequest)
     = (Threw EngineUnavailable,
        record [confirm_failed_log EngineUnavailable]
          (book_world failingService 1%positive dummyRequest dummySlot
             (world_with None dummyRequest)))
  /\ proposeSlots isoParse quotaService 1%positive
       (world_with None dummyRequest)
     = (Threw (TypeError (lit "Do not know how to serialize a BigInt")),
        record [propose_failed_log QuotaExceeded]
          (propose_world quotaService 1%positive dummyRequest
             (world_with None dummyRequest)))
  /\ fst (proposeSlots isoParse googleService 1%positive
            (world_with None dummyRequest)) = Returned [].
Proof.
  assert (Hr : heap (world_with None dummyRequest) !! 1%positive
               = Some dummyRequest) by (vm_compute; reflexivity).
  assert (Hv : validateMeetingRequest isoParse dummyRequest = Returned tt)
    by (vm_compute; reflexivity).
  assert (Ht : validateTimeWindow isoParse dummySlot = Returned tt)
    by (vm_compute; reflexivity).
  split; [exact Hr|]. split; [exact Hv|]. split; [exact Ht|].
  destruct (engine_outcome_through_the_handler unit isoParse failingService
              1%positive dummySlot (world_with None dummyRequest)
              dummyRequest Hr Hv) as (_ & Hpropose & _ & Hbook).
  split; [|split; [|split]].
  - apply (Hpropose EngineUnavailable). reflexivity.
  - apply (Hbook Ht EngineUnavailable). reflexivity.
  - destruct (engine_outcome_through_the_handler unit isoParse quotaService
                1%positive dummySlot (world_with None dummyRequest)
                dummyRequest Hr Hv) as (_ & Hquota & _).
    apply (Hquota QuotaExceeded). reflexivity.
  - destruct (engine_outcome_through_the_handler unit isoParse googleService
                1%positive dummySlot (world_with None dummyRequest)
                dummyRequest Hr Hv) as (_ & _ & Hempty & _).
    rewrite (Hempty (snd (propose GoogleCalendarEngine
                            (enhanced_ref (world_with None dummyRequest))
                            (propose_world googleService 1%positive
                               dummyRequest
                               (world_with None dummyRequest)))));
      [reflexivity|vm_compute; reflexivity].
Defined.

(* ================================================================== *)
(** * Properties of the contact store *)
(* ================================================================== *)

Section ContactMemoryProperties.

Import ContactMemory.

Implicit Types (this : ContactMemory) (k : jsstring) (m : JsMap).
Implicit Types (v p : ContactProfile) (history : list Call).

Lemma map_has_get k m : map_has k m = bool_decide (is_Some (map_get k m)).
Proof.
  induction m as [|[k' v] m IH]; cbn [map_has map_get].
  - symmetry. apply bool_decide_eq_false. by intros [? ?].
  - destruct (bool_decide (k' = k)); cbn [orb]; [|exact IH].
    symmetry. apply bool_decide_eq_true. by eexists.
Qed.

Lemma map_has_keys k m : map_has k m = true <-> In k (map fst m).
Proof.
  induction m as [|[k' v] m IH]; cbn [map_has map fst In].
  - split; [discriminate|tauto].
  - rewrite orb_true_iff, bool_decide_eq_true, IH. tauto.
Qed.

Lemma map_get_set k k' v m :
  map_get k' (map_set k v m)
  = if bool_decide (k' = k) then Some v else map_get k' m.
Proof.
  induction m as [|[k0 v0] m IH]; cbn [map_set map_get].
  - destruct (bool_decide_reflect (k = k')) as [->|Hne].
    + by rewrite bool_decide_eq_true_2.
    + by rewrite bool_decide_eq_false_2 by congruence.
  - destruct (bool_decide_reflect (k0 = k)) as [->|Hne]; cbn [map_get].
    + destruct (bool_decide_reflect (k = k')) as [->|Hne'].
      * by rewrite bool_decide_eq_true_2.
      * by rewrite bool_decide_eq_false_2 by congruence.
    + destruct (bool_decide_reflect (k0 = k')) as [->|Hne']; [|exact IH].
      by rewrite bool_decide_eq_false_2 by congruence.
Qed.

(** X6.  After [set(k, v)], [get(k)] is [v] and [has(k)] is true; [get]
    and [has] of every other key are what they were. *)
Theorem get_after_set this k k' v :
  get k' (set k v this)
  = (if bool_decide (k' = k) then Some v else get k' this)
  /\ has k' (set k v this) = (bool_decide (k' = k) || has k' this).
Proof.
  unfold get, has, set. cbn [contacts]. rewrite !map_has_get, map_get_set.
  split; [reflexivity|].
  destruct (bool_decide (k' = k)); cbn [orb]; [|reflexivity].
  apply bool_decide_eq_true. by eexists.
Qed.

Lemma map_set_keys k v m :
  map fst (map_set k v m)
  = if map_has k m then map fst m else map fst m ++ [k].
Proof.
  induction m as [|[k0 v0] m IH]; cbn [map_set map_has map fst app];
    [reflexivity|].
  destruct (bool_decide (k0 = k)); cbn [orb map fst]; [reflexivity|].
  rewrite IH. by destruct (map_has k m).
Qed.

Lemma map_remove_keys_subset k k' m :
  In k' (map fst (map_remove k m)) -> In k' (map fst m).
Proof.
  induction m as [|[k0 v0] m IH]; cbn [map_remove map fst In]; [tauto|].
  destruct (bool_decide (k0 = k)); cbn [map fst In]; tauto.
Qed.

Lemma map_remove_NoDup k m :
  List.NoDup (map fst m) -> List.NoDup (map fst (map_remove k m)).
Proof.
  induction m as [|[k0 v0] m IH]; cbn [map_remove map fst]; [tauto|].
  intros H. inversion H as [|? ? Hnotin Hnd]; subst.
  destruct (bool_decide (k0 = k)); cbn [map fst]; [exact Hnd|].
  constructor; [|by apply IH].
  intros Hin. apply Hnotin. by eapply map_remove_keys_subset.
Qed.

Lemma map_get_remove k k' m :
  List.NoDup (map fst m) ->
  map_get k' (map_remove k m)
  = if bool_decide (k' = k) then None else map_get k' m.
Proof.
  induction m as [|[k0 v0] m IH]; cbn [map_remove map_get map fst].
  - by destruct (bool_decide (k' = k)).
  - intros H. inversion H as [|? ? Hnotin Hnd]; subst.
    destruct (bool_decide_reflect (k0 = k)) as [->|Hne]; cbn [map_get].
    + destruct (bool_decide_reflect (k' = k)) as [->|Hne'].
      * destruct (map_get k m) eqn:E; [|reflexivity].
        exfalso. apply Hnotin. apply map_has_keys.
        rewrite map_has_get, E. apply bool_decide_eq_true. by eexists.
      * by rewrite bool_decide_eq_false_2 by congruence.
    + rewrite (IH Hnd).
      destruct (bool_decide_reflect (k0 = k')) as [->|Hne']; [|reflexivity].
      by rewrite bool_decide_eq_false_2 by congruence.
Qed.

Lemma contacts_after_snoc history (c : Call) :
  after (history ++ [c]) = call (after history) c.
Proof. unfold after. by rewrite fold_left_app. Qed.

(** Every store that calls can build has no key twice. *)
Lemma after_NoDup history : List.NoDup (keys (after history)).
Proof.
  induction history as [|c history IH] using rev_ind; [constructor|].
  rewrite contacts_after_snoc. destruct c as [k v|k|]; cbn [call].
  - unfold keys, set in *. cbn [contacts]. rewrite map_set_keys.
    destruct (map_has k (contacts (after history))) eqn:E; [exact IH|].
    apply List.NoDup_app; [exact IH|repeat constructor; inversion 1|].
    intros x Hx [<-|[]]. apply map_has_keys in Hx. congruence.
  - unfold keys, delete in *. cbn [snd contacts]. by apply map_remove_NoDup.
  - constructor.
Qed.

(** X7.  On a store reached by any calls, [delete(k)] returns whether
    [k] was stored; afterwards [k] is absent, every other key reads as
    before, and a second [delete(k)] returns false. *)
Theorem delete_removes_the_key history k k' :
  fst (delete k (after history)) = has k (after history)
  /\ get k' (snd (delete k (after history)))
     = (if bool_decide (k' = k) then None else get k' (after history))
  /\ has k (snd (delete k (after history))) = false
  /\ fst (delete k (snd (delete k (after history)))) = false.
Proof.
  pose proof (after_NoDup history) as Hnd. unfold keys in Hnd.
  assert (Hget : forall k'',
             get k'' (snd (delete k (after history)))
             = if bool_decide (k'' = k) then None
               else get k'' (after history)).
  { intros k''. unfold get, delete. cbn [snd contacts].
    by apply map_get_remove. }
  assert (Hhas : has k (snd (delete k (after history))) = false).
  { unfold has. rewrite map_has_get.
    change (map_get k (contacts (snd (delete k (after history)))))
      with (get k (snd (delete k (after history)))).
    rewrite Hget. rewrite (bool_decide_eq_true_2 (k = k)) by reflexivity.
    apply bool_decide_eq_false. by intros [? ?]. }
  split; [reflexivity|]. split; [apply Hget|]. split; [exact Hhas|].
  exact Hhas.
Qed.

Lemma last_written_snoc k history (c : Call) (acc : option ContactProfile) :
  last_written k (history ++ [c]) acc
  = match c with
    | CallSet k' v =>
        if bool_decide (k' = k) then Some v else last_written k history acc
    | CallDelete k' =>
        if bool_decide (k' = k) then None else last_written k history acc
    | CallClear => None
    end.
Proof.
  revert acc. induction history as [|c0 history IH]; intros acc.
  - destruct c; reflexivity.
  - destruct c0; cbn [app last_written]; apply IH.
Qed.

(** X8.  After any sequence of [set], [delete] and [clear] on a new
    store, [get(k)] is the profile of the last [set] of [k] that no later
    [delete] of [k] and no later [clear] has undone, and [has(k)] tells
    whether there is one. *)
Theorem get_returns_last_written history k :
  get k (after history) = last_written k history None
  /\ has k (after history)
     = bool_decide (is_Some (last_written k history None)).
Proof.
  assert (Hget : get k (after history) = last_written k history None).
  { induction history as [|c history IH] using rev_ind; [reflexivity|].
    rewrite contacts_after_snoc, last_written_snoc.
    destruct c as [k' v|k'|]; cbn [call].
    - unfold get, set in *. cbn [contacts]. rewrite map_get_set, IH.
      destruct (bool_decide_reflect (k = k')) as [->|Hne].
      + by rewrite bool_decide_eq_true_2.
      + by rewrite bool_decide_eq_false_2 by congruence.
    - unfold get, delete in *. cbn [snd contacts].
      rewrite (map_get_remove k' k _ (after_NoDup history)), IH.
      destruct (bool_decide_reflect (k = k')) as [->|Hne].
      + by rewrite bool_decide_eq_true_2.
      + by rewrite bool_decide_eq_false_2 by congruence.
    - reflexivity. }
  split; [exact Hget|]. unfold has. rewrite map_has_get.
  change (map_get k (contacts (after history))) with (get k (after history)).
  by rewrite Hget.
Qed.

Lemma map_get_In k v m : map_get k m = Some v -> In v (map snd m).
Proof.
  induction m as [|[k0 v0] m IH]; cbn [map_get map snd In]; [discriminate|].
  destruct (bool_decide (k0 = k)); [intros [= ->]; by left|].
  intros H. right. by apply IH.
Qed.

Lemma map_In_get v m :
  List.NoDup (map fst m) -> In v (map snd m) ->
  exists k, map_get k m = Some v.
Proof.
  induction m as [|[k0 v0] m IH]; cbn [map fst snd In map_get]; [tauto|].
  intros Hnd [->|Hin].
  - exists k0. by rewrite bool_decide_eq_true_2.
  - apply List.NoDup_cons_iff in Hnd as [Hnotin Hnd].
    destruct (IH Hnd Hin) as (k & Hk). exists k.
    destruct (bool_decide_reflect (k0 = k)) as [->|Hne]; [|exact Hk].
    exfalso. apply Hnotin. apply map_has_keys. rewrite map_has_get, Hk.
    apply bool_decide_eq_true. by eexists.
Qed.

(** X9.  On a store reached by any calls no key is held twice, [getAll]
    has one profile for each key, the keys held are those for which
    [has] is true, and a profile is listed by [getAll] exactly when [get]
    returns it for some key. *)
Theorem getAll_lists_each_contact_once history :
  List.NoDup (keys (after history))
  /\ length (getAll (after history)) = length (keys (after history))
  /\ (forall k, In k (keys (after history)) <-> has k (after history) = true)
  /\ (forall p, In p (getAll (after history))
                <-> exists k, get k (after history) = Some p).
Proof.
  pose proof (after_NoDup history) as Hnd.
  split; [exact Hnd|]. split; [|split].
  - unfold getAll, map_values, keys. by rewrite !length_map.
  - intros k. symmetry. apply map_has_keys.
  - intros p. split.
    + by apply map_In_get.
    + intros (k & Hk). by eapply map_get_In.
Qed.

Lemma map_set_values k v m :
  map_has k m = false -> map snd (map_set k v m) = map snd m ++ [v].
Proof.
  induction m as [|[k0 v0] m IH]; cbn [map_has map_set map snd app];
    [reflexivity|].
  destruct (bool_decide (k0 = k)); cbn [orb map snd]; [discriminate|].
  intros H. by rewrite IH.
Qed.

(** X10.  [set] on a key already held leaves the order and the number of
    the contacts alone; on a new key it adds the contact at the end of
    what [getAll] lists. *)
Theorem set_keeps_insertion_order this k v :
  keys (set k v this)
  = (if has k this then keys this else keys this ++ [k])
  /\ length (getAll (set k v this))
     = (if has k this then length (getAll this)
        else S (length (getAll this)))
  /\ (has k this = false -> getAll (set k v this) = getAll this ++ [v]).
Proof.
  unfold keys, getAll, map_values, has, set. cbn [contacts].
  split; [apply map_set_keys|]. split.
  - rewrite !length_map.
    rewrite <- (length_map fst (map_set k v (contacts this))), map_set_keys.
    destruct (map_has k (contacts this)); [by rewrite length_map|].
    rewrite length_app, length_map. cbn. lia.
  - apply map_set_values.
Qed.

Lemma map_set_set k v1 v2 m :
  map_set k v2 (map_set k v1 m) = map_set k v2 m.
Proof.
  induction m as [|[k0 v0] m IH]; cbn [map_set].
  - by rewrite bool_decide_eq_true_2.
  - destruct (bool_decide (k0 = k)) eqn:E; cbn [map_set]; rewrite E;
      [reflexivity|by rewrite IH].
Qed.

Lemma map_remove_set k v m :
  map_has k m = false -> map_remove k (map_set k v m) = m.
Proof.
  induction m as [|[k0 v0] m IH]; cbn [map_has map_set map_remove].
  - by rewrite bool_decide_eq_true_2.
  - destruct (bool_decide (k0 = k)) eqn:E; cbn [orb map_remove];
      [discriminate|].
    rewrite E. intros H. by rewrite IH.
Qed.

(** X11.  Of two [set] on the same key only the second one counts, and
    [delete] after the [set] of a key that was not held returns true and
    gives the store back as it was. *)
Theorem set_overwrites_and_delete_undoes this k v1 v2 :
  set k v2 (set k v1 this) = set k v2 this
  /\ (has k this = false -> delete k (set k v1 this) = (true, this)).
Proof.
  destruct this as [m]. unfold set, has, delete. cbn [contacts]. split.
  - by rewrite map_set_set.
  - intros H. rewrite (map_remove_set k v1 m H).
    f_equal. rewrite map_has_get, map_get_set.
    rewrite (bool_decide_eq_true_2 (k = k)) by reflexivity.
    apply bool_decide_eq_true. by eexists.
Qed.

End ContactMemoryProperties.

(** The first contact of a new store is the one that [getAll] lists. *)
Lemma set_keeps_insertion_order_witness :
  ContactMemory.getAll
    (ContactMemory.set (lit "test@example.com") sampleProfile
       ContactMemory.new)
  = [sampleProfile].
Proof.
  destruct (set_keeps_insertion_order ContactMemory.new
              (lit "test@example.com") sampleProfile) as (_ & _ & H).
  apply H. reflexivity.
Defined.

(** Storing the first contact and deleting it again. *)
Lemma set_overwrites_and_delete_undoes_witness :
  ContactMemory.delete (lit "test@example.com")
    (ContactMemory.set (lit "test@example.com") sampleProfile
       ContactMemory.new)
  = (true, ContactMemory.new).
Proof.
  destruct (set_overwrites_and_delete_undoes ContactMemory.new
              (lit "test@example.com") sampleProfile sampleProfile)
    as (_ & H).
  apply H. reflexivity.
Defined.

(* ================================================================== *)
(** * Properties of the configuration *)
(* ================================================================== *)

Section SettingsProperties.

Import Settings.

Variable isEmail : jsstring -> bool.
Variable toNumber : jsstring -> number.
Variable defaultMessage : DefaultIssue -> jsstring.

Local Abbreviation issues := (Settings.issues isEmail toNumber defaultMessage).
Local Abbreviation parse := (Settings.parse isEmail toNumber defaultMessage).
Local Abbreviation loadConfiguration :=
  (Settings.loadConfiguration isEmail toNumber defaultMessage).
Local Abbreviation check_port := (Settings.check_port toNumber defaultMessage).

Lemma or_else_truthy o dflt : dflt <> [] -> or_else o dflt <> [].
Proof.
  intros H. unfold or_else. destruct o as [[|c s]|]; cbn; congruence.
Qed.

Lemma check_min1_nil p m s : s <> [] -> check_min1 p m s = [].
Proof. destruct s; [congruence|reflexivity]. Qed.

Lemma enum_member_In {A} (members : list (jsstring * A)) s :
  is_Some (enum_member members s) <-> In s (map fst members).
Proof.
  induction members as [|[n a] members IH]; cbn.
  { split; [intros [? ?]; discriminate | tauto]. }
  destruct (bool_decide_reflect (n = s)) as [->|Hne].
  { split; eauto. }
  rewrite IH. split; [tauto | intros [? | ?]; [congruence | assumption]].
Qed.

Lemma check_enum_nil {A} p (members : list (jsstring * A)) s :
  check_enum defaultMessage p members s = [] <-> In s (map fst members).
Proof.
  rewrite <- enum_member_In. unfold check_enum.
  destruct (enum_member members s); split; try done; try eauto.
  all: intros [? ?]; discriminate.
Qed.

Lemma check_port_nil p s :
  check_port p s = []
  <-> isNaN (toNumber s) = false
      /\ num_lt (toNumber s) (num_of_Z 1) = false
      /\ num_lt (num_of_Z 65535) (toNumber s) = false.
Proof.
  unfold Settings.check_port.
  destruct (isNaN (toNumber s)); [split; [discriminate | intros (? & _); discriminate]|].
  destruct (num_lt (toNumber s) (num_of_Z 1)),
           (num_lt (num_of_Z 65535) (toNumber s)); cbn;
    split; try done; intros (_ & ? & ?); discriminate.
Qed.

Lemma nodeEnv_name_member s n :
  enum_member nodeEnv_members s = Some n <-> NodeEnv_name n = s.
Proof.
  unfold nodeEnv_members. cbn [enum_member].
  repeat match goal with
         | |- context [bool_decide (?a = s)] =>
             destruct (bool_decide_reflect (a = s))
         end; subst; destruct n; split; intros H; try done;
    try (by inversion H); cbn in *; congruence.
Qed.

Lemma logLevel_name_member s l :
  enum_member logLevel_members s = Some l <-> LogLevel_name l = s.
Proof.
  unfold logLevel_members. cbn [enum_member].
  repeat match goal with
         | |- context [bool_decide (?a = s)] =>
             destruct (bool_decide_reflect (a = s))
         end; subst; destruct l; split; intros H; try done;
    try (by inversion H); cbn in *; congruence.
Qed.

(** The three strings that cannot be empty. *)
Lemma raw_nonempty env :
  raw_fullName (rawConfig env) <> []
  /\ raw_email (rawConfig env) <> []
  /\ raw_defaultTimezone (rawConfig env) <> []
  /\ raw_displayName (rawConfig env) <> []
  /\ raw_memberId (rawConfig env) <> [].
Proof. repeat split; apply or_else_truthy; discriminate. Qed.

Lemma issues_nil env :
  issues (rawConfig env) = []
  <-> isEmail (raw_email (rawConfig env)) = true
      /\ In (raw_nodeEnv (rawConfig env)) (map fst nodeEnv_members)
      /\ In (raw_logLevel (rawConfig env)) (map fst logLevel_members)
      /\ check_port [lit "application"; lit "port"]
           (raw_port (rawConfig env)) = [].
Proof.
  destruct (raw_nonempty env) as (Hn & _ & Ht & _).
  unfold Settings.issues.
  rewrite (check_min1_nil _ _ _ Hn), (check_min1_nil _ _ _ Ht).
  cbn [app].
  pose proof (check_enum_nil [lit "application"; lit "nodeEnv"]
                nodeEnv_members (raw_nodeEnv (rawConfig env))) as Hn'.
  pose proof (check_enum_nil [lit "application"; lit "logLevel"]
                logLevel_members (raw_logLevel (rawConfig env))) as Hl'.
  rewrite <- Hn', <- Hl'.
  unfold check_email.
  destruct (isEmail _); cbn [app].
  - split.
    + intros H. apply app_eq_nil in H as [H1 H].
      apply app_eq_nil in H as [H2 H]. done.
    + intros (_ & -> & -> & ->). reflexivity.
  - split; [discriminate | intros (? & _); discriminate].
Qed.

Lemma parse_inr env :
  (exists v, parse (rawConfig env) = inr v) <-> issues (rawConfig env) = [].
Proof.
  unfold Settings.parse. split.
  - intros [v H]. destruct (issues (rawConfig env)); [reflexivity|discriminate].
  - intros H. pose proof H as H'. apply issues_nil in H' as (_ & Hn & Hl & _).
    apply enum_member_In in Hn as [n Hn]. apply enum_member_In in Hl as [l Hl].
    rewrite H, Hn, Hl. eauto.
Qed.

Lemma parse_inl env errs :
  parse (rawConfig env) = inl errs ->
  errs = issues (rawConfig env) /\ errs <> [].
Proof.
  unfold Settings.parse. intros H.
  destruct (issues (rawConfig env)) as [|e es] eqn:Hi.
  - pose proof Hi as H'. apply issues_nil in H' as (_ & Hn & Hl & _).
    apply enum_member_In in Hn as [n Hn]. apply enum_member_In in Hl as [l Hl].
    rewrite Hn, Hl in H. discriminate.
  - inversion H. done.
Qed.

Local Abbreviation settings_of env n l :=
  ({| identity :=
       {| fullName := raw_fullName (rawConfig env);
          email := raw_email (rawConfig env);
          defaultTimezone := raw_defaultTimezone (rawConfig env) |};
     slack :=
       {| displayName := Some (raw_displayName (rawConfig env));
          memberId := Some (raw_memberId (rawConfig env)) |};
     application :=
       {| application_nodeEnv := n;
          logLevel := l;
          port := toNumber (raw_port (rawConfig env)) |};
     nodeEnv := n;
     isProduction := NodeEnv_eqb n production;
     isDevelopment := NodeEnv_eqb n development;
     isTest := NodeEnv_eqb n test |}).

Lemma loadConfiguration_cases env :
  (issues (rawConfig env) = []
   /\ exists n l,
        NodeEnv_name n = raw_nodeEnv (rawConfig env)
        /\ LogLevel_name l = raw_logLevel (rawConfig env)
        /\ loadConfiguration env = (Returned (settings_of env n l), []))
  \/ (issues (rawConfig env) <> []
      /\ exists lines,
           length lines = (2 + length (issues (rawConfig env)))%nat
           /\ loadConfiguration env
              = (Threw (new_Error
                   (lit "Invalid configuration - please check your environment variables")),
                 lines)).
Proof.
  unfold Settings.loadConfiguration.
  destruct (parse (rawConfig env)) as [errs|[[i s] a]] eqn:Hp.
  - right. apply parse_inl in Hp as [-> Hne]. split; [exact Hne|].
    eexists. split; [|reflexivity]. cbn. by rewrite length_map.
  - left. assert (Hi : issues (rawConfig env) = [])
      by (apply parse_inr; eauto).
    split; [exact Hi|].
    unfold Settings.parse in Hp. rewrite Hi in Hp.
    destruct (enum_member nodeEnv_members _) as [n|] eqn:Hn; [|discriminate].
    destruct (enum_member logLevel_members _) as [l|] eqn:Hl; [|discriminate].
    inversion Hp; subst. exists n, l.
    apply nodeEnv_name_member in Hn. apply logLevel_name_member in Hl.
    done.
Qed.

(** X12.  [loadConfiguration] returns settings, and writes nothing to the
    console, exactly when the email in force is accepted, [NODE_ENV] and
    [LOG_LEVEL] in force are among the names of the schema, spelled in
    lower case, and the port in force is a number from 1 to 65535; the
    value in force is the variable, or the default when the variable is
    unset or empty. *)
Theorem loadConfiguration_succeeds_iff env :
  (exists settings, loadConfiguration env = (Returned settings, []))
  <-> isEmail (raw_email (rawConfig env)) = true
      /\ In (raw_nodeEnv (rawConfig env))
           [lit "development"; lit "production"; lit "test"]
      /\ In (raw_logLevel (rawConfig env))
           [lit "debug"; lit "info"; lit "warn"; lit "error"]
      /\ isNaN (toNumber (raw_port (rawConfig env))) = false
      /\ num_lt (toNumber (raw_port (rawConfig env))) (num_of_Z 1) = false
      /\ num_lt (num_of_Z 65535) (toNumber (raw_port (rawConfig env))) = false.
Proof.
  rewrite <- check_port_nil with (p := [lit "application"; lit "port"]).
  change [lit "development"; lit "production"; lit "test"]
    with (map fst nodeEnv_members).
  change [lit "debug"; lit "info"; lit "warn"; lit "error"]
    with (map fst logLevel_members).
  rewrite <- issues_nil.
  destruct (loadConfiguration_cases env)
    as [(Hi & n & l & _ & _ & ->) | (Hi & lines & _ & ->)].
  - split; eauto.
  - split; [intros [? ?]; discriminate | done].
Qed.

(** X13.  When [loadConfiguration] does not return, it throws the one
    error that names no cause, after writing two header lines and one
    line for each issue to the console.  There is at least one issue, and
    every issue is about the email, [NODE_ENV], [LOG_LEVEL] or the port:
    the name, the timezone and the Slack values are never at fault. *)
Theorem loadConfiguration_failure env :
  (forall settings, fst (loadConfiguration env) <> Returned settings) ->
  fst (loadConfiguration env)
  = Threw (new_Error
      (lit "Invalid configuration - please check your environment variables"))
  /\ length (snd (loadConfiguration env))
     = (2 + length (issues (rawConfig env)))%nat
  /\ issues (rawConfig env) <> []
  /\ (forall issue, In issue (issues (rawConfig env)) ->
      In (path issue)
        [[lit "identity"; lit "email"];
         [lit "application"; lit "nodeEnv"];
         [lit "application"; lit "logLevel"];
         [lit "application"; lit "port"]]).
Proof.
  intros Hfail.
  destruct (loadConfiguration_cases env)
    as [(Hi & n & l & _ & _ & Hl) | (Hi & lines & Hlen & Hl)].
  - exfalso. eapply Hfail. by rewrite Hl.
  - rewrite Hl. cbn [fst snd]. repeat split; try done.
    intros issue. destruct (raw_nonempty env) as (Hn & _ & Ht & _).
    unfold Settings.issues.
    rewrite (check_min1_nil _ _ _ Hn), (check_min1_nil _ _ _ Ht).
    cbn [app]. rewrite !in_app_iff.
    unfold check_email, check_enum, Settings.check_port.
    destruct (isEmail _), (enum_member nodeEnv_members _),
      (enum_member logLevel_members _), (isNaN _),
      (num_lt (toNumber (raw_port (rawConfig env))) (num_of_Z 1)),
      (num_lt (num_of_Z 65535) (toNumber (raw_port (rawConfig env)))); cbn;
      intros H; repeat destruct H as [H | H]; subst; cbn; tauto.
Qed.

(** X14.  In settings that [loadConfiguration] returns, name, email and
    timezone are not empty, the email is an accepted one, both Slack
    values are present and not empty, [nodeEnv] and [logLevel] are the
    members named by the values in force, exactly the flag of [nodeEnv]
    among [isProduction], [isDevelopment] and [isTest] is set, and the
    port is a number from 1 to 65535. *)
Theorem loaded_settings_shape env settings :
  fst (loadConfiguration env) = Returned settings ->
  fullName (identity settings) <> []
  /\ email (identity settings) <> []
  /\ defaultTimezone (identity settings) <> []
  /\ isEmail (email (identity settings)) = true
  /\ (exists d m,
       slack settings = {| displayName := Some d; memberId := Some m |}
       /\ d <> [] /\ m <> [])
  /\ nodeEnv settings = application_nodeEnv (application settings)
  /\ NodeEnv_name (nodeEnv settings) = raw_nodeEnv (rawConfig env)
  /\ LogLevel_name (logLevel (application settings))
     = raw_logLevel (rawConfig env)
  /\ (isProduction settings, isDevelopment settings, isTest settings)
     = match nodeEnv settings with
       | production => (true, false, false)
       | development => (false, true, false)
       | test => (false, false, true)
       end
  /\ port (application settings) = toNumber (raw_port (rawConfig env))
  /\ isNaN (port (application settings)) = false
  /\ num_lt (port (application settings)) (num_of_Z 1) = false
  /\ num_lt (num_of_Z 65535) (port (application settings)) = false.
Proof.
  intros H.
  destruct (loadConfiguration_cases env)
    as [(Hi & n & l & Hn & Hl & Hload) | (Hi & lines & _ & Hload)];
    rewrite Hload in H; [|discriminate].
  cbn in H. inversion H; subst settings. clear H.
  destruct (raw_nonempty env) as (H1 & H2 & H3 & H4 & H5).
  apply issues_nil in Hi as (He & _ & _ & Hp).
  apply check_port_nil in Hp as (Hp1 & Hp2 & Hp3).
  cbn.
  repeat split; try done.
  - eauto 6.
  - by destruct n.
Qed.

(** X15.  [loadConfiguration] does not tell a variable that is set to the
    empty string from one that is not set: both environments give the
    same result and the same console lines. *)
Theorem empty_variable_is_unset env :
  loadConfiguration
    (fun name => match env name with Some [] => None | value => value end)
  = loadConfiguration env.
Proof.
  unfold Settings.loadConfiguration.
  assert (rawConfig
            (fun name => match env name with Some [] => None | value => value end)
          = rawConfig env) as ->; [|reflexivity].
  unfold rawConfig. f_equal;
    match goal with
    | |- or_else (match env ?v with _ => _ end) _ = _ =>
        destruct (env v) as [[|c s]|]; reflexivity
    end.
Qed.

(** X16.  [validateEnvironment] returns true exactly when the three
    variables it requires are set and not empty; then it writes nothing,
    and otherwise it writes a header and the missing names, in the order
    of its list. *)
Theorem validateEnvironment_spec env :
  (fst (validateEnvironment env) = true
   <-> forall name, In name requiredVars ->
         exists value, env name = Some value /\ value <> [])
  /\ snd (validateEnvironment env)
     = (if fst (validateEnvironment env) then []
        else ConsoleError (lit "Missing required environment variables:") None
             :: map (fun name => ConsoleError (lit "  - " ++ lit name)%list None)
                  (List.filter
                     (fun name => negb (truthy_opt_string (env name)))
                     requiredVars)).
Proof.
  unfold validateEnvironment.
  set (missing := List.filter _ requiredVars).
  assert (Hm : missing = [] <->
               forall name, In name requiredVars ->
                 exists value, env name = Some value /\ value <> []).
  { unfold missing. split.
    - intros H name Hin.
      destruct (truthy_opt_string (env name)) eqn:Ht.
      + destruct (env name) as [[|c s]|]; try discriminate. eauto.
      + assert (Hf : In name (List.filter
                   (fun name => negb (truthy_opt_string (env name)))
                   requiredVars)) by (apply filter_In; by rewrite Ht).
        rewrite H in Hf. destruct Hf.
    - intros H.
      destruct (List.filter _ requiredVars) as [|name rest] eqn:Hf;
        [reflexivity|].
      assert (Hin : In name (List.filter
                   (fun name => negb (truthy_opt_string (env name)))
                   requiredVars)) by (rewrite Hf; by left).
      apply filter_In in Hin as [Hin Ht].
      destruct (H name Hin) as (value & Hv & Hne). rewrite Hv in Ht.
      destruct value; [congruence | discriminate]. }
  destruct missing as [|name rest]; cbn [length Nat.ltb Nat.leb fst snd].
  - split; [|reflexivity]. split; [intros _; by apply Hm | done].
  - split; [|reflexivity]. split; [discriminate|].
    intros H. apply Hm in H. discriminate.
Qed.

End SettingsProperties.

(** [NODE_ENV=staging]: one issue, three console lines, the one error. *)
Lemma loadConfiguration_failure_witness :
  fst (Settings.loadConfiguration looseEmail decimalNumber plainMessage
         stagingEnvironment)
  = Threw (new_Error
      (lit "Invalid configuration - please check your environment variables"))
  /\ length (snd (Settings.loadConfiguration looseEmail decimalNumber
                    plainMessage stagingEnvironment)) = 3%nat.
Proof.
  destruct (loadConfiguration_failure looseEmail decimalNumber plainMessage
              stagingEnvironment) as (H1 & H2 & _).
  - intros settings H. vm_compute in H. discriminate H.
  - split; [exact H1|]. rewrite H2. vm_compute. reflexivity.
Defined.

(** No variable set: the settings are the defaults, in development. *)
Lemma loaded_settings_shape_witness :
  fst (Settings.loadConfiguration looseEmail decimalNumber plainMessage
         noVariables) = Returned defaultSettings
  /\ (Settings.isProduction defaultSettings,
      Settings.isDevelopment defaultSettings,
      Settings.isTest defaultSettings)
     = (false, true, false)
  /\ Settings.LogLevel_name
       (Settings.logLevel (Settings.application defaultSettings))
     = lit "info".
Proof.
  assert (H : fst (Settings.loadConfiguration looseEmail decimalNumber
                     plainMessage noVariables) = Returned defaultSettings)
    by (vm_compute; reflexivity).
  destruct (loaded_settings_shape looseEmail decimalNumber plainMessage
              noVariables defaultSettings H)
    as (_ & _ & _ & _ & _ & _ & _ & Hl & Hf & _).
  split; [exact H|]. split; [exact Hf|]. rewrite Hl. reflexivity.
Defined.

(* ================================================================== *)
(** * Properties of the application life cycle *)
(* ================================================================== *)

Section ApplicationProperties.

Import Application.

Variable settings : Settings.Settings.
Variable stack : Error -> option jsstring.
Variable npm_package_version : option jsstring.
Variable process_version : jsstring.

Local Abbreviation initialize := (Application.initialize settings stack).
Local Abbreviation shutdown := (Application.shutdown stack).
Local Abbreviation complete := (Application.configuration_complete settings).
Local Abbreviation main :=
  (Application.main settings stack npm_package_version process_version).
Local Abbreviation on_signal := (Application.on_signal stack).
Local Abbreviation after := (Application.after settings stack).

Implicit Types (s : Run) (history : list Call).

Ltac app_run :=
  unfold Application.initialize, Application.shutdown,
    Application.validateConfiguration, Application.initializeServices,
    Application.performHealthChecks, Application.cleanupServices,
    Application.try_catch, Application.try_catch_finally, Application.bind,
    Application.ret, Application.throw, Application.logger,
    Application.get_isInitialized, Application.get_isShuttingDown,
    Application.set_isInitialized, Application.set_isShuttingDown.

Lemma initialize_when_initialized s :
  isInitialized (app s) = true ->
  exists record,
    initialize s
    = (Returned tt, {| app := app s; logged := logged s ++ [record] |}).
Proof.
  intros H. app_run. cbn. rewrite H. eexists. reflexivity.
Qed.

Lemma initialize_fresh s :
  isInitialized (app s) = false ->
  exists records,
    snd (initialize s)
    = {| app := {| isInitialized := complete;
                   isShuttingDown := isShuttingDown (app s) |};
         logged := logged s ++ records |}
    /\ fst (initialize s)
       = if negb (truthy_string (Settings.fullName (Settings.identity settings)))
            || negb (truthy_string (Settings.email (Settings.identity settings)))
         then Threw (new_Error (lit "Identity configuration is incomplete"))
         else if truthy_opt_string (Settings.displayName (Settings.slack settings))
                 && negb (truthy_opt_string
                            (Settings.memberId (Settings.slack settings)))
              then Threw (new_Error (lit "Slack configuration is incomplete"))
              else Returned tt.
Proof.
  intros H. destruct s as [[i d] l]. cbn in H. subst i.
  unfold Application.configuration_complete. app_run. cbn.
  destruct (truthy_string (Settings.fullName _)); cbn;
    [|rewrite <- !app_assoc; eexists; split; reflexivity].
  destruct (truthy_string (Settings.email _)); cbn;
    [|rewrite <- !app_assoc; eexists; split; reflexivity].
  destruct (truthy_opt_string (Settings.displayName _)); cbn;
    [|rewrite <- !app_assoc; eexists; split; reflexivity].
  destruct (truthy_opt_string (Settings.memberId _)); cbn;
    rewrite <- !app_assoc; eexists; split; reflexivity.
Qed.

Lemma truthy_string_false (x : jsstring) : truthy_string x = false <-> x = [].
Proof. destruct x; cbn; split; congruence. Qed.

Lemma truthy_string_true (x : jsstring) : truthy_string x = true <-> x <> [].
Proof. destruct x; cbn; split; congruence. Qed.

(** X17.  On an application that is not initialized, [initialize] throws
    "Identity configuration is incomplete" when the name or the email of
    the settings is empty, whatever the Slack values are, and "Slack
    configuration is incomplete" when these two are there and a Slack
    display name comes without a member id; in both cases the instance is
    left as it was.  It returns exactly when the configuration is
    complete, and then the application is ready unless it is shutting
    down. *)
Theorem initialize_outcome s :
  isInitialized (app s) = false ->
  (Settings.fullName (Settings.identity settings) = []
   \/ Settings.email (Settings.identity settings) = [] ->
   fst (initialize s)
   = Threw (new_Error (lit "Identity configuration is incomplete"))
   /\ app (snd (initialize s)) = app s)
  /\ (Settings.fullName (Settings.identity settings) <> [] ->
      Settings.email (Settings.identity settings) <> [] ->
      truthy_opt_string (Settings.displayName (Settings.slack settings))
      = true ->
      truthy_opt_string (Settings.memberId (Settings.slack settings))
      = false ->
      fst (initialize s)
      = Threw (new_Error (lit "Slack configuration is incomplete"))
      /\ app (snd (initialize s)) = app s)
  /\ (fst (initialize s) = Returned tt <-> complete = true)
  /\ (complete = true ->
      isReady (app (snd (initialize s))) = negb (isShuttingDown (app s))).
Proof.
  intros H. destruct (initialize_fresh s H) as (records & Hs & Ho).
  rewrite Ho, Hs. cbn [app snd]. unfold Application.configuration_complete.
  destruct s as [[i d] l]. cbn in H. subst i. cbn [app isShuttingDown].
  split; [|split; [|split]].
  - intros [E | E]; apply truthy_string_false in E; rewrite E;
      rewrite ?orb_true_r; cbn; by rewrite ?andb_false_r.
  - intros Hn He Hd Hm. apply truthy_string_true in Hn, He.
    rewrite Hn, He, Hd, Hm. cbn. by split.
  - destruct (truthy_string (Settings.fullName _)),
             (truthy_string (Settings.email _)),
             (truthy_opt_string (Settings.displayName _)),
             (truthy_opt_string (Settings.memberId _)); cbn;
      split; congruence.
  - intros ->. reflexivity.
Qed.

(** X18.  A second [initialize] has the outcome of the first and leaves
    the instance as the first left it; on an initialized application it
    returns, changes nothing and logs one record. *)
Theorem initialize_again_changes_nothing s :
  fst (initialize (snd (initialize s))) = fst (initialize s)
  /\ app (snd (initialize (snd (initialize s)))) = app (snd (initialize s)).
Proof.
  assert (Hinit : forall s', isInitialized (app s') = true ->
            fst (initialize s') = Returned tt
            /\ app (snd (initialize s')) = app s').
  { intros s' H. destruct (initialize_when_initialized s' H) as (r & ->).
    by split. }
  destruct (isInitialized (app s)) eqn:H.
  - destruct (Hinit s H) as (Ho & Ha).
    assert (H' : isInitialized (app (snd (initialize s))) = true)
      by (by rewrite Ha).
    destruct (Hinit _ H') as (-> & ->). by rewrite Ho.
  - destruct (initialize_fresh s H) as (records & Hs & Ho).
    destruct complete eqn:Hc.
    + assert (H' : isInitialized (app (snd (initialize s))) = true)
        by (by rewrite Hs).
      destruct (Hinit _ H') as (-> & ->). rewrite Ho. split; [|reflexivity].
      unfold Application.configuration_complete in Hc.
      destruct (truthy_string (Settings.fullName _)),
               (truthy_string (Settings.email _)),
               (truthy_opt_string (Settings.displayName _)),
               (truthy_opt_string (Settings.memberId _));
        cbn in *; congruence.
    + assert (H' : isInitialized (app (snd (initialize s))) = false)
        by (by rewrite Hs).
      destruct (initialize_fresh _ H') as (records' & -> & ->).
      rewrite Ho, Hs, Hc. by split.
Qed.

Lemma shutdown_run s :
  exists records,
    shutdown s
    = (Returned tt,
       {| app := if isShuttingDown (app s) then app s else Application.new;
          logged := logged s ++ records |}).
Proof.
  destruct s as [[i d] l]. app_run. cbn. destruct d; cbn.
  - eexists. reflexivity.
  - rewrite <- !app_assoc. eexists. reflexivity.
Qed.

(** X19.  [shutdown] never throws.  When no shutdown is under way it
    leaves the application as a new one, neither initialized nor
    shutting down, and otherwise it leaves it untouched.  The handler of
    [SIGINT] and [SIGTERM] therefore always exits with code 0. *)
Theorem shutdown_never_throws s (signal : Signal) :
  fst (shutdown s) = Returned tt
  /\ app (snd (shutdown s))
     = (if isShuttingDown (app s) then app s else Application.new)
  /\ fst (on_signal signal s) = Exited 0.
Proof.
  destruct (shutdown_run s) as (records & Hs).
  split; [by rewrite Hs|]. split; [by rewrite Hs|].
  unfold Application.on_signal, Application.bind, Application.logger.
  cbn [fst snd app logged].
  match goal with
  | |- context [Application.shutdown stack ?x] =>
      destruct (shutdown_run x) as (records' & ->)
  end.
  reflexivity.
Qed.

Lemma application_after_snoc history c :
  after (history ++ [c]) = Application.call settings stack (after history) c.
Proof. unfold Application.after. by rewrite fold_left_app. Qed.

(** X20.  After any sequence of [initialize] and [shutdown] calls on a new
    application, each awaited before the next, no shutdown is under way,
    and the application is initialized, ready and reported healthy
    exactly when the configuration is complete and the last call was
    [initialize]. *)
Theorem application_state_after_calls history :
  let initialized :=
    complete
    && match List.last history CallShutdown with
       | CallInitialize => true
       | CallShutdown => false
       end in
  isShuttingDown (app (after history)) = false
  /\ isInitialized (app (after history)) = initialized
  /\ isReady (app (after history)) = initialized
  /\ forall now up,
       status (getHealthStatus settings now up (app (after history)))
       = if initialized then healthy else unhealthy.
Proof.
  cbn zeta.
  assert (Hinv : isShuttingDown (app (after history)) = false
                 /\ isInitialized (app (after history))
                    = (complete
                       && match List.last history CallShutdown with
                          | CallInitialize => true
                          | CallShutdown => false
                          end)).
  { induction history as [|c history [IHd IHi]] using rev_ind.
    - split; [reflexivity|]. by rewrite andb_false_r.
    - rewrite last_last, application_after_snoc.
      destruct c; cbn [Application.call].
      + rewrite andb_true_r.
        destruct (isInitialized (app (after history))) eqn:H.
        * destruct (initialize_when_initialized _ H) as (r & ->).
          cbn [snd app]. split; [exact IHd|]. rewrite H.
          symmetry in IHi. by apply andb_true_iff in IHi as [-> _].
        * destruct (initialize_fresh _ H) as (rs & -> & _).
          cbn [snd app isShuttingDown isInitialized]. by split.
      + rewrite andb_false_r.
        destruct (shutdown_run (after history)) as (rs & ->).
        cbn [snd app]. rewrite IHd. by split. }
  destruct Hinv as [Hd Hi].
  assert (Hr : isReady (app (after history))
               = (complete
                  && match List.last history CallShutdown with
                     | CallInitialize => true
                     | CallShutdown => false
                     end)).
  { unfold Application.isReady. by rewrite Hd, Hi, andb_true_r. }
  split; [exact Hd|]. split; [exact Hi|]. split; [exact Hr|].
  intros now up. unfold Application.getHealthStatus. cbn [status].
  fold (isReady (app (after history))). by rewrite Hr.
Qed.

Lemma complete_checks :
  complete = true ->
  negb (truthy_string (Settings.fullName (Settings.identity settings)))
  || negb (truthy_string (Settings.email (Settings.identity settings)))
  = false
  /\ truthy_opt_string (Settings.displayName (Settings.slack settings))
     && negb (truthy_opt_string (Settings.memberId (Settings.slack settings)))
     = false.
Proof.
  unfold Application.configuration_complete.
  destruct (truthy_string (Settings.fullName _)),
           (truthy_string (Settings.email _)),
           (truthy_opt_string (Settings.displayName _)),
           (truthy_opt_string (Settings.memberId _)); cbn; by try split.
Qed.

Lemma incomplete_checks :
  complete = false ->
  exists e,
    (if negb (truthy_string (Settings.fullName (Settings.identity settings)))
        || negb (truthy_string (Settings.email (Settings.identity settings)))
     then Threw (new_Error (lit "Identity configuration is incomplete"))
     else if truthy_opt_string (Settings.displayName (Settings.slack settings))
             && negb (truthy_opt_string
                        (Settings.memberId (Settings.slack settings)))
          then Threw (new_Error (lit "Slack configuration is incomplete"))
          else Returned tt) = Threw (A := unit) e.
Proof.
  unfold Application.configuration_complete.
  destruct (truthy_string (Settings.fullName _)),
           (truthy_string (Settings.email _)),
           (truthy_opt_string (Settings.displayName _)),
           (truthy_opt_string (Settings.memberId _)); cbn;
    try discriminate; eauto.
Qed.

(** With a complete configuration [initialize] returns from every
    state, and leaves the application initialized. *)
Lemma initialize_complete s :
  complete = true ->
  fst (initialize s) = Returned tt
  /\ isInitialized (app (snd (initialize s))) = true.
Proof.
  intros Hc. destruct (isInitialized (app s)) eqn:H.
  - destruct (initialize_when_initialized s H) as (r & ->). by split.
  - destruct (initialize_fresh s H) as (rs & -> & ->).
    destruct (complete_checks Hc) as [-> ->]. by split.
Qed.

(** What [main] comes to, and the state it leaves. *)
Lemma main_run s :
  exists records,
    main s
    = (if isInitialized (app s) || complete then Running else Exited 1,
       {| app := if isInitialized (app s) then app s
                 else {| isInitialized := complete;
                         isShuttingDown := isShuttingDown (app s) |};
          logged := logged s ++ records |}).
Proof.
  unfold Application.main, Application.try_catch,
    Application.try_catch_finally, Application.bind, Application.logger,
    Application.ret.
  cbn [fst snd app logged].
  match goal with
  | |- context [Application.initialize settings stack ?x] => set (s1 := x)
  end.
  assert (Ha : app s1 = app s) by reflexivity.
  assert (Hl : logged s1 = logged s ++ [_]) by reflexivity.
  destruct (isInitialized (app s)) eqn:H; cbn [orb].
  - assert (H1 : isInitialized (app s1) = true) by (by rewrite Ha).
    destruct (initialize_when_initialized s1 H1) as (r & ->).
    cbn [app logged]. rewrite Ha, Hl, <- !app_assoc. eexists. reflexivity.
  - assert (H1 : isInitialized (app s1) = false) by (by rewrite Ha).
    destruct (initialize_fresh s1 H1) as (rs & Hs & Ho).
    destruct (Application.initialize settings stack s1) as [o s2].
    cbn [fst snd] in Hs, Ho. subst s2.
    destruct complete eqn:Hc.
    + destruct (complete_checks Hc) as [E1 E2]. rewrite E1, E2 in Ho.
      subst o. cbn [app logged]. rewrite Ha, Hl, <- !app_assoc.
      eexists. reflexivity.
    + destruct (incomplete_checks Hc) as [e He]. rewrite He in Ho. subst o.
      cbn [app logged]. rewrite Ha, Hl, <- !app_assoc.
      eexists. reflexivity.
Qed.

(** X21.  [main] exits with code 1 exactly when the application was not
    initialized and the configuration is incomplete, and then the
    instance is as before; otherwise [main] returns without a call of
    [process.exit], with the application initialized. *)
Theorem main_exit s :
  fst (main s)
  = (if isInitialized (app s) || complete then Running else Exited 1)
  /\ app (snd (main s))
     = (if isInitialized (app s) || negb complete then app s
        else {| isInitialized := true;
                isShuttingDown := isShuttingDown (app s) |}).
Proof.
  destruct (main_run s) as (records & ->). cbn [fst snd app].
  split; [reflexivity|].
  destruct (isInitialized (app s)) eqn:H; cbn [orb]; [reflexivity|].
  destruct complete; cbn [negb]; [reflexivity|].
  destruct (app s); cbn in *; congruence.
Qed.

End ApplicationProperties.

(* ================================================================== *)
(** * The configuration and the start of the application *)
(* ================================================================== *)

Section LoadedSettings.

Variable isEmail : jsstring -> bool.
Variable toNumber : jsstring -> number.
Variable defaultMessage : Settings.DefaultIssue -> jsstring.
Variable stack : Error -> option jsstring.
Variable npm_package_version : option jsstring.
Variable process_version : jsstring.

Lemma loaded_settings_complete env settings :
  fst (Settings.loadConfiguration isEmail toNumber defaultMessage env)
  = Returned settings ->
  Application.configuration_complete settings = true.
Proof.
  intros H.
  destruct (loadConfiguration_cases isEmail toNumber defaultMessage env)
    as [(_ & n & l & _ & _ & Hl) | (_ & lines & _ & Hl)];
    rewrite Hl in H; [|discriminate].
  cbn [fst] in H. inversion H; subst settings. clear H.
  assert (T : forall o d, d <> [] ->
                truthy_string (Settings.or_else o d) = true)
    by (intros o d Hd; by apply truthy_string_true, or_else_truthy).
  unfold Application.configuration_complete, Settings.rawConfig.
  cbn [Settings.identity Settings.slack Settings.fullName Settings.email
       Settings.displayName Settings.memberId truthy_opt_string
       Settings.raw_fullName Settings.raw_email Settings.raw_displayName
       Settings.raw_memberId].
  rewrite !T by discriminate. reflexivity.
Qed.

(** X22.  With settings that [loadConfiguration] returned, neither check
    of [validateConfiguration] can fail: from every state [initialize]
    returns and leaves the application initialized, and [main] returns
    without a call of [process.exit]. *)
Theorem loaded_settings_always_start env settings s :
  fst (Settings.loadConfiguration isEmail toNumber defaultMessage env)
  = Returned settings ->
  fst (Application.initialize settings stack s) = Returned tt
  /\ Application.isInitialized
       (Application.app (snd (Application.initialize settings stack s)))
     = true
  /\ fst (Application.main settings stack npm_package_version
            process_version s)
     = Application.Running.
Proof.
  intros H. apply loaded_settings_complete in H.
  destruct (initialize_complete settings stack s H) as [Ho Hi].
  split; [exact Ho|]. split; [exact Hi|].
  destruct (main_run settings stack npm_package_version process_version s)
    as (records & ->).
  cbn [fst]. by rewrite H, orb_true_r.
Qed.

End LoadedSettings.

(** A Slack display name without a member id stops the start. *)
Lemma initialize_outcome_witness :
  Application.isInitialized (Application.app freshRun) = false
  /\ fst (Application.initialize halfSlackSettings noStack freshRun)
     = Threw (new_Error (lit "Slack configuration is incomplete"))
  /\ Application.app
       (snd (Application.initialize halfSlackSettings noStack freshRun))
     = Application.app freshRun.
Proof.
  assert (H : Application.isInitialized (Application.app freshRun) = false)
    by reflexivity.
  destruct (initialize_outcome halfSlackSettings noStack freshRun H)
    as (_ & Hslack & _).
  split; [exact H|]. apply Hslack.
  - intros E. vm_compute in E. discriminate E.
  - intros E. vm_compute in E. discriminate E.
  - reflexivity.
  - reflexivity.
Defined.

(** With no variable set the application starts. *)
Lemma loaded_settings_always_start_witness :
  fst (Settings.loadConfiguration looseEmail decimalNumber plainMessage
         noVariables) = Returned defaultSettings
  /\ fst (Application.main defaultSettings noStack None (lit "v20.0.0")
            freshRun)
     = Application.Running.
Proof.
  assert (H : fst (Settings.loadConfiguration looseEmail decimalNumber
                     plainMessage noVariables) = Returned defaultSettings)
    by (vm_compute; reflexivity).
  destruct (loaded_settings_always_start looseEmail decimalNumber
              plainMessage noStack None (lit "v20.0.0") noVariables
              defaultSettings freshRun H) as (_ & _ & Hmain).
  split; [exact H|exact Hmain].
Defined.

(* ================================================================== *)
(** * Properties of the logger *)
(* ================================================================== *)

Section LoggerProperties.

Import Logger.

Variable Context : Type.
Variable spread : Context -> option Context -> Context.
Variable keys : Context -> list jsstring.
Variable toLowerCase : jsstring -> jsstring.
Variable stringify : LogEntry Context -> Stringified.
Variable stringify_indented : Context -> Stringified.

Local Abbreviation this_log :=
  (Logger.this_log Context spread keys stringify stringify_indented).
Local Abbreviation log :=
  (Logger.log Context keys stringify stringify_indented).
Local Abbreviation child := (Logger.child Context toLowerCase).
Local Abbreviation descend := (Logger.descend Context toLowerCase).
Local Abbreviation new := (Logger.new Context toLowerCase).

Lemma spread_config_with_source c d s :
  spread_config d (with_source c s)
  = {| level := level c; format := format c;
       includeStackTrace := includeStackTrace c;
       includeIdentity := includeIdentity c; source := s |}.
Proof. reflexivity. Qed.

Lemma descend_snoc env (this : Logger Context) chain cs :
  descend env this (chain ++ [cs])
  = child env (descend env this chain) (fst cs) (snd cs).
Proof. unfold Logger.descend. by rewrite fold_left_app. Qed.

(** X24.  A logger made by [child], at the end of any chain of [child]
    calls, spreads only the context of the last [child] under the context
    of a call: the contexts bound further up the chain are not in what it
    logs.  Level, format and the two flags are those of the logger at
    the head of the chain, whatever the environment is when [child] is
    called, and the source is the last non-empty one given on the way. *)
Theorem child_keeps_only_its_own_context env env'
    (this : Logger Context) chain context source :
  let made := child env (descend env' this chain) context source in
  bound made = Some context
  /\ level (config made) = level (config this)
  /\ format (config made) = format (config this)
  /\ includeStackTrace (config made) = includeStackTrace (config this)
  /\ includeIdentity (config made) = includeIdentity (config this)
  /\ Logger.source (config made)
     = or_opt source
         (fold_left (fun s cs => or_opt (snd cs) s) chain
            (Logger.source (config this)))
  /\ forall now settings l message logContext,
       this_log made now settings l message logContext
       = log (config made) now settings l message
           (Some (spread context logContext)).
Proof.
  cbn zeta.
  assert (H : level (config (descend env' this chain)) = level (config this)
    /\ format (config (descend env' this chain)) = format (config this)
    /\ includeStackTrace (config (descend env' this chain))
       = includeStackTrace (config this)
    /\ includeIdentity (config (descend env' this chain))
       = includeIdentity (config this)
    /\ Logger.source (config (descend env' this chain))
       = fold_left (fun s cs => or_opt (snd cs) s) chain
           (Logger.source (config this))).
  { induction chain as [|cs chain IH] using rev_ind; [done|].
    rewrite descend_snoc, fold_left_app.
    destruct IH as (H1 & H2 & H3 & H4 & H5).
    unfold Logger.child, Logger.new, Logger.new_config.
    cbn [config]. rewrite spread_config_with_source.
    cbn. by rewrite H5. }
  destruct H as (H1 & H2 & H3 & H4 & H5).
  unfold Logger.child, Logger.new, Logger.new_config.
  cbn [config bound]. rewrite spread_config_with_source.
  cbn. by rewrite H5.
Qed.

Lemma LogLevel_name_inj l l' :
  Settings.LogLevel_name l = Settings.LogLevel_name l' -> l = l'.
Proof. destruct l, l'; intros H; try reflexivity; vm_compute in H; discriminate. Qed.

Lemma find_values (s : jsstring) :
  snd <$> List.find (fun m : jsstring * LogLevel => bool_decide (fst m = s))
            LogLevel_values
  = Settings.enum_member Settings.logLevel_members s.
Proof.
  unfold LogLevel_values, Settings.logLevel_members.
  cbn [List.find Settings.enum_member fst snd].
  repeat case_bool_decide; reflexivity.
Qed.

Lemma logLevel_not_member s :
  ~ In s (map Settings.LogLevel_name [DEBUG; INFO; WARN; ERROR]) ->
  Settings.enum_member Settings.logLevel_members s = None.
Proof.
  intros H. destruct (Settings.enum_member _ s) as [l|] eqn:E; [|reflexivity].
  apply logLevel_name_member in E. exfalso. apply H. rewrite <- E.
  destruct l; cbn; tauto.
Qed.

Section WithSettings.

Variable isEmail : jsstring -> bool.
Variable toNumber : jsstring -> number.
Variable defaultMessage : Settings.DefaultIssue -> jsstring.

Local Abbreviation loadConfiguration :=
  (Settings.loadConfiguration isEmail toNumber defaultMessage).

Lemma loaded_logLevel env settings :
  fst (loadConfiguration env) = Returned settings ->
  Settings.enum_member Settings.logLevel_members
    (Settings.raw_logLevel (Settings.rawConfig env))
  = Some (Settings.logLevel (Settings.application settings)).
Proof.
  unfold Settings.loadConfiguration, Settings.parse.
  destruct (Settings.issues _ _ _ _); [|discriminate].
  destruct (Settings.enum_member Settings.nodeEnv_members _); [|discriminate].
  destruct (Settings.enum_member Settings.logLevel_members _); [|discriminate].
  cbn. intros H. by inversion H.
Qed.

(** X25.  When [toLowerCase] leaves the four level names as they are and
    [loadConfiguration] returns settings, a logger constructed without
    options in the same environment has the [logLevel] of these settings
    as its level. *)
Theorem logger_level_agrees_with_settings env settings :
  (forall l, toLowerCase (Settings.LogLevel_name l) = Settings.LogLevel_name l) ->
  fst (loadConfiguration env) = Returned settings ->
  level (config (new env no_options))
  = Settings.logLevel (Settings.application settings).
Proof.
  intros Hlow Hload. apply loaded_logLevel, logLevel_name_member in Hload.
  set (l := Settings.logLevel (Settings.application settings)) in *.
  unfold Logger.new, Logger.new_config, spread_config, no_options.
  cbn [config level p_level default].
  unfold Settings.rawConfig in Hload. cbn [Settings.raw_logLevel] in Hload.
  unfold Settings.or_else in Hload. unfold parseLogLevel.
  destruct (env "LOG_LEVEL"%string) as [v|]; cbn [default].
  - destruct (truthy_string v) eqn:Hv; cbn [negb].
    + rewrite find_values.
      assert (E : Settings.LogLevel_name l = toLowerCase v)
        by (by rewrite <- Hload, Hlow).
      apply logLevel_name_member in E. by rewrite E.
    + by apply (LogLevel_name_inj INFO l).
  - by apply (LogLevel_name_inj INFO l).
Qed.

(** X26.  A [LOG_LEVEL] that is one of the level names only once it is
    put in lower case is taken by the logger as that level, while
    [loadConfiguration] throws in the same environment. *)
Theorem logger_accepts_a_level_that_settings_reject env value l :
  env "LOG_LEVEL"%string = Some value ->
  value <> [] ->
  toLowerCase value = Settings.LogLevel_name l ->
  ~ In value (map Settings.LogLevel_name [DEBUG; INFO; WARN; ERROR]) ->
  level (config (new env no_options)) = l
  /\ fst (loadConfiguration env)
     = Threw (new_Error
         (lit "Invalid configuration - please check your environment variables")).
Proof.
  intros He Hne Hlow Hnot. split.
  - unfold Logger.new, Logger.new_config, spread_config, no_options.
    cbn [config level p_level default]. rewrite He. unfold parseLogLevel.
    destruct value as [|c value]; [congruence|]. cbn [truthy_string negb].
    rewrite find_values. symmetry in Hlow. apply logLevel_name_member in Hlow.
    by rewrite Hlow.
  - unfold Settings.loadConfiguration, Settings.parse.
    assert (Hm : Settings.enum_member Settings.logLevel_members
              (Settings.raw_logLevel (Settings.rawConfig env)) = None).
    { unfold Settings.rawConfig. cbn [Settings.raw_logLevel]. rewrite He.
      destruct value as [|c value]; [congruence|].
      cbn [Settings.or_else truthy_string]. by apply logLevel_not_member. }
    rewrite Hm.
    destruct (Settings.issues _ _ _ _); [|reflexivity].
    by destruct (Settings.enum_member Settings.nodeEnv_members _).
Qed.

End WithSettings.

End LoggerProperties.

(** No variable set: the logger and the settings both have [INFO]. *)
Lemma logger_level_agrees_witness :
  Logger.level
    (Logger.config (Logger.new unit asciiLower noVariables Logger.no_options))
  = Settings.logLevel (Settings.application defaultSettings).
Proof.
  apply (logger_level_agrees_with_settings unit asciiLower looseEmail
           decimalNumber plainMessage noVariables defaultSettings).
  - intros []; vm_compute; reflexivity.
  - vm_compute. reflexivity.
Defined.

(** [LOG_LEVEL=DEBUG]: the logger is at [DEBUG], the settings do not
    load. *)
Lemma logger_accepts_a_level_witness :
  Logger.level
    (Logger.config (Logger.new unit asciiLower shoutedLevel Logger.no_options))
  = DEBUG
  /\ fst (Settings.loadConfiguration looseEmail decimalNumber plainMessage
            shoutedLevel)
     = Threw (new_Error
         (lit "Invalid configuration - please check your environment variables")).
Proof.
  apply (logger_accepts_a_level_that_settings_reject unit asciiLower
           looseEmail decimalNumber plainMessage shoutedLevel (lit "DEBUG")
           DEBUG).
  - reflexivity.
  - intros E. vm_compute in E. discriminate E.
  - vm_compute. reflexivity.
  - intros E. vm_compute in E.
    repeat destruct E as [E | E]; try discriminate E. exact E.
Defined.

(* ================================================================== *)
(** * Properties of the meeting briefs *)
(* ================================================================== *)

Section BriefProperties.

Import BriefService.

Lemma lines_from_line current line rest :
  ~ In 10%N line ->
  lines_from current (line ++ 10%N :: rest)
  = (rev current ++ line) :: lines_from [] rest.
Proof.
  revert current. induction line as [|c line IH]; intros current Hno.
  - cbn. by rewrite app_nil_r.
  - cbn [app lines_from]. destruct (N.eqb_spec c 10) as [->|Hc].
    + exfalso. apply Hno. by left.
    + rewrite IH by (intros H; apply Hno; by right).
      cbn [rev]. by rewrite <- app_assoc.
Qed.

Lemma lines_from_blank rest :
  lines_from [] (10%N :: rest) = [] :: lines_from [] rest.
Proof. reflexivity. Qed.

Lemma lines_join (l : list jsstring) rest :
  (forall s, In s l -> ~ In 10%N s) ->
  l <> [] ->
  lines_from [] (join nl l ++ 10%N :: rest) = l ++ lines_from [] rest.
Proof.
  induction l as [|s l IH]; intros Hno Hne; [congruence|].
  destruct l as [|s' l].
  - cbn [join]. rewrite lines_from_line by (apply Hno; by left). reflexivity.
  - change (join nl (s :: s' :: l)) with (s ++ nl ++ join nl (s' :: l)).
    unfold nl at 1. rewrite <- !app_assoc. cbn [app].
    rewrite lines_from_line by (apply Hno; by left).
    rewrite IH; [reflexivity | | discriminate].
    intros x Hx. apply Hno. by right.
Qed.

Lemma no_line_feed (s : jsstring) :
  forallb (fun c => negb (N.eqb c 10)) s = true -> ~ In 10%N s.
Proof.
  intros H Hin. rewrite forallb_forall in H. specialize (H _ Hin).
  by rewrite N.eqb_refl in H.
Qed.

(** X27.  When no address contains a line feed, the brief is three
    header lines, then one line ["- " ++ address] for each participant in
    the order given, or one empty line when there is none, then the
    twelve closing lines. *)
Theorem buildBrief_has_one_line_per_participant emails :
  (forall email, In email emails -> ~ In 10%N email) ->
  lines (buildBrief emails)
  = [lit "# Meeting Brief"; []; lit "## Participants"]
    ++ match emails with
       | [] => [[]]
       | _ => map (fun email => lit "- " ++ email) emails
       end
    ++ [[]; lit "## Agenda"; lit "- Welcome and introductions";
        lit "- Main discussion points"; lit "- Next steps"; [];
        lit "## Preparation"; lit "- Review previous meeting notes";
        lit "- Prepare talking points"; []; lit "---";
        lit "*This is a generated brief stub*"].
Proof.
  intros Hno. unfold lines, buildBrief.
  set (tail := nl ++ lit "## Agenda" ++ _).
  assert (Htail : lines_from [] tail
            = [[]; lit "## Agenda"; lit "- Welcome and introductions";
               lit "- Main discussion points"; lit "- Next steps"; [];
               lit "## Preparation"; lit "- Review previous meeting notes";
               lit "- Prepare talking points"; []; lit "---";
               lit "*This is a generated brief stub*"])
    by (vm_compute; reflexivity).
  set (participantList := join nl _).
  unfold nl at 1 2 3 4. cbn [app]. subst participantList.
  rewrite lines_from_line by (by apply no_line_feed).
  rewrite lines_from_blank.
  rewrite lines_from_line by (by apply no_line_feed).
  cbn [rev app].
  destruct emails as [|e emails].
  - cbn [map join app]. rewrite lines_from_blank.
    by rewrite Htail.
  - rewrite lines_join.
    + by rewrite Htail.
    + intros s Hs. apply in_map_iff in Hs as (email & <- & Hin).
      intros H. apply in_app_iff in H as [H|H].
      * vm_compute in H. intuition discriminate.
      * by apply (Hno email).
    + discriminate.
Qed.

End BriefProperties.

(** The brief for two participants has seventeen lines, theirs the
    fourth and the fifth. *)
Lemma buildBrief_lines_witness :
  length (BriefService.lines
            (BriefService.buildBrief
               [lit "test@example.com"; lit "another@example.com"]))
  = 17%nat
  /\ nth_error
       (BriefService.lines
          (BriefService.buildBrief
             [lit "test@example.com"; lit "another@example.com"])) 4
     = Some (lit "- another@example.com").
Proof.
  assert (H : BriefService.lines
                (BriefService.buildBrief
                   [lit "test@example.com"; lit "another@example.com"])
              = _)
    by (apply (buildBrief_has_one_line_per_participant
                 [lit "test@example.com"; lit "another@example.com"]);
        intros email [<- | [<- | []]] E; vm_compute in E;
        repeat destruct E as [E | E]; try discriminate E; exact E).
  rewrite H. split; reflexivity.
Defined.

(* ================================================================== *)
(** * Properties of the inbox *)
(* ================================================================== *)

Section NumberProperties.

Local Open Scope Z_scope.

Lemma digits2_pos_iter_xO p k :
  Z.pos (digits2_pos (Pos.iter xO p k)) = Z.pos (digits2_pos p) + Z.pos k.
Proof.
  induction k as [|k IH] using Pos.peano_ind.
  - cbn. lia.
  - rewrite Pos.iter_succ. cbn [digits2_pos]. lia.
Qed.

Lemma digits2_pos_lower p : 2 ^ (Z.pos (digits2_pos p) - 1) <= Z.pos p.
Proof.
  induction p as [p IH|p IH|]; cbn [digits2_pos].
  - replace (Z.pos (Pos.succ (digits2_pos p)) - 1)
      with (Z.succ (Z.pos (digits2_pos p) - 1)) by lia.
    rewrite Z.pow_succ_r by lia. lia.
  - replace (Z.pos (Pos.succ (digits2_pos p)) - 1)
      with (Z.succ (Z.pos (digits2_pos p) - 1)) by lia.
    rewrite Z.pow_succ_r by lia. lia.
  - cbn. lia.
Qed.

Lemma digits2_pos_safe p : Z.pos p < 2 ^ 53 -> Z.pos (digits2_pos p) <= 53.
Proof.
  intros H. pose proof (digits2_pos_lower p) as Hl.
  destruct (Z_le_gt_dec (Z.pos (digits2_pos p)) 53) as [|Hgt]; [assumption|].
  exfalso.
  assert (2 ^ 53 <= 2 ^ (Z.pos (digits2_pos p) - 1))
    by (apply Z.pow_le_mono_r; lia).
  lia.
Qed.

Lemma binary_round_aux_exact s m e :
  fexp 53 1024 (Z.pos (digits2_pos m) + e) = e ->
  e <= 971 ->
  binary_round_aux 53 1024 s (Z.pos m) e loc_Exact = S754_finite s m e.
Proof.
  intros Hf He. unfold binary_round_aux, shr_fexp. cbn [Zdigits2].
  rewrite Hf, Z.sub_diag.
  cbn [shr shr_record_of_loc shr_m loc_of_shr_record round_nearest_even
       Zdigits2].
  rewrite Hf, Z.sub_diag. cbn [shr shr_record_of_loc shr_m].
  replace (e <=? 1024 - 53) with true; [reflexivity|].
  symmetry. apply Z.leb_le. lia.
Qed.

(** The number that an integer of at most 53 binary digits denotes:
    the integer itself, shifted so that its mantissa has 53 digits. *)
Lemma binary_round_integer s p :
  Z.pos (digits2_pos p) <= 53 ->
  binary_round 53 1024 s p 0
  = S754_finite s
      (match (Z.pos (digits2_pos p) - 53)%Z with
       | Z.neg k => Pos.iter xO p k
       | _ => p
       end)
      (Z.pos (digits2_pos p) - 53).
Proof.
  intros Hd. unfold binary_round, shl_align.
  assert (Hf : fexp 53 1024 (Z.pos (digits2_pos p) + 0)
               = Z.pos (digits2_pos p) - 53).
  { unfold fexp, emin. lia. }
  rewrite Hf, Z.sub_0_r.
  destruct (Z.pos (digits2_pos p) - 53) as [|k|k] eqn:Hk.
  - apply binary_round_aux_exact; [|lia].
    unfold fexp, emin. lia.
  - lia.
  - apply binary_round_aux_exact; [|lia].
    rewrite digits2_pos_iter_xO. unfold fexp, emin. lia.
Qed.

Lemma digits2_pos_from_4 p : 4 <= Z.pos p -> 3 <= Z.pos (digits2_pos p).
Proof.
  destruct p as [[q|q|]|[q|q|]|]; cbn [digits2_pos]; lia.
Qed.

End NumberProperties.

Section InboxProperties.

Import Inbox.

(** X28.  For a whole number of days that a number holds exactly,
    [needsFollowUp] answers true from three days on and false below,
    also for zero and for negative numbers. *)
Theorem needsFollowUp_from_three_days (days : Z) :
  (- 2 ^ 53 < days < 2 ^ 53)%Z ->
  needsFollowUp (num_of_Z days) = (3 <=? days)%Z.
Proof.
  intros Hsafe. unfold needsFollowUp, num_le, SFleb.
  change (num_of_Z 3) with (S754_finite false 6755399441055744 (-51)).
  unfold num_of_Z, binary_normalize.
  destruct days as [|p|p].
  - reflexivity.
  - rewrite binary_round_integer by (apply digits2_pos_safe; lia).
    destruct (Z_le_gt_dec 4 (Z.pos p)) as [H4|H4].
    + pose proof (digits2_pos_from_4 p H4) as Hd.
      cbn [SFcompare].
      replace (-51 ?= Z.pos (digits2_pos p) - 53)%Z with Lt
        by (symmetry; apply Z.compare_lt_iff; lia).
      symmetry. apply Z.leb_le. lia.
    + assert (Hp : p = 1%positive \/ p = 2%positive \/ p = 3%positive) by lia.
      destruct Hp as [-> | [-> | ->]]; reflexivity.
  - rewrite binary_round_integer by (apply digits2_pos_safe; lia).
    reflexivity.
Qed.

(** What is not a number of days at all needs no follow-up, and an item
    open without end does. *)
Lemma needsFollowUp_special :
  needsFollowUp S754_nan = false
  /\ needsFollowUp (S754_infinity false) = true
  /\ needsFollowUp (S754_infinity true) = false.
Proof. by vm_compute. Qed.

End InboxProperties.

(** Three days need a follow-up, two days do not. *)
Lemma needsFollowUp_witness :
  Inbox.needsFollowUp (num_of_Z 3) = true
  /\ Inbox.needsFollowUp (num_of_Z 2) = false.
Proof.
  split.
  - apply (needsFollowUp_from_three_days 3). lia.
  - apply (needsFollowUp_from_three_days 2). lia.
Defined.

(* ================================================================== *)
(** * Durations in whole minutes *)
(* ================================================================== *)

Section WholeMinutes.

Variable parseDate : jsstring -> Date.

(** The sign of the number that a whole number denotes. *)
Lemma num_of_Z_sign (z : Z) :
  (- 2 ^ 53 < z < 2 ^ 53)%Z ->
  num_lt (num_of_Z z) zero = (z <? 0)%Z
  /\ truthy_number (num_of_Z z) = negb (z =? 0)%Z.
Proof.
  intros Hsafe. unfold num_of_Z, binary_normalize.
  destruct z as [|p|p].
  - by split.
  - rewrite binary_round_integer by (apply digits2_pos_safe; lia). by split.
  - rewrite binary_round_integer by (apply digits2_pos_safe; lia). by split.
Qed.

Lemma validateMeetingRequest_duration request :
  validateMeetingRequest parseDate (with_duration None request) = Returned tt ->
  validateMeetingRequest parseDate request
  = throw_if (truthy_opt_number (durationMinutes request)
              && opt_num_le (durationMinutes request) zero)
      (new_Error (lit "Meeting duration must be positive")).
Proof.
  unfold validateMeetingRequest, validateRange, with_duration.
  cbn [subject attendees durationMinutes earliestISO latestISO].
  set (A := throw_if _ _ >> throw_if _ _ >> validateAttendees _).
  destruct A as [[]|err]; [|discriminate].
  cbn [truthy_opt_number opt_num_le andb throw_if and_then].
  intros ->. by destruct (throw_if _ _) as [[]|err].
Qed.

(** X29.  For a duration of a whole number of minutes that a number holds
    exactly, on a request whose other checks pass: validation succeeds
    exactly when the minutes are zero or more and fails with "Meeting
    duration must be positive" exactly when they are below zero; the
    enhanced request carries the same minutes, or the 45 of the policy
    when they are zero. *)
Theorem whole_minutes_accepted_from_zero request (minutes : Z) :
  (- 2 ^ 53 < minutes < 2 ^ 53)%Z ->
  durationMinutes request = Some (num_of_Z minutes) ->
  validateMeetingRequest parseDate (with_duration None request) = Returned tt ->
  (validateMeetingRequest parseDate request = Returned tt
   <-> (0 <= minutes)%Z)
  /\ (validateMeetingRequest parseDate request
      = Threw (new_Error (lit "Meeting duration must be positive"))
      <-> (minutes < 0)%Z)
  /\ durationMinutes (enhanced request)
     = Some (num_of_Z (if (minutes =? 0)%Z then 45 else minutes)).
Proof.
  intros Hsafe Hd Hother.
  destruct (num_of_Z_sign minutes Hsafe) as [Hlt Htruthy].
  rewrite (validateMeetingRequest_duration request Hother).
  assert (Hguard : truthy_opt_number (durationMinutes request)
                   && opt_num_le (durationMinutes request) zero
                   = (minutes <? 0)%Z).
  { destruct (minutes <? 0)%Z eqn:E.
    - apply duration_guard. eauto.
    - apply duration_guard_false_iff. intros d Hd'. congruence. }
  rewrite Hguard. split; [|split].
  - destruct (Z.ltb_spec minutes 0); cbn; split; try done; lia.
  - destruct (Z.ltb_spec minutes 0); cbn; split; try done; lia.
  - unfold enhanced. cbn [durationMinutes]. rewrite Hd. cbn [or_default].
    rewrite Htruthy. by destruct (minutes =? 0)%Z.
Qed.

End WholeMinutes.

(** Thirty minutes pass and are kept; zero minutes pass and become the
    forty-five of the policy; minus thirty are refused. *)
Lemma whole_minutes_witness :
  validateMeetingRequest isoParse dummyRequest = Returned tt
  /\ durationMinutes (enhanced dummyRequest) = Some (num_of_Z 30)
  /\ validateMeetingRequest isoParse zeroDurationRequest = Returned tt
  /\ durationMinutes (enhanced zeroDurationRequest) = Some (num_of_Z 45)
  /\ validateMeetingRequest isoParse negativeDurationRequest
     = Threw (new_Error (lit "Meeting duration must be positive")).
Proof.
  destruct (whole_minutes_accepted_from_zero isoParse dummyRequest 30)
    as (H30 & _ & E30);
    [lia | reflexivity | vm_compute; reflexivity |].
  destruct (whole_minutes_accepted_from_zero isoParse zeroDurationRequest 0)
    as (H0 & _ & E0);
    [lia | reflexivity | vm_compute; reflexivity |].
  destruct (whole_minutes_accepted_from_zero isoParse negativeDurationRequest
              (-30))
    as (_ & Hneg & _);
    [lia | reflexivity | vm_compute; reflexivity |].
  split; [apply H30; lia|]. split; [exact E30|].
  split; [apply H0; lia|]. split; [exact E0|].
  apply Hneg. lia.
Defined.
